(** * Autelis Pool Control (Pentair) node server: the device communication layer

    A shallow embedding of [autelisapi.py] (the HTTP client, the TCP status
    listener and the two vocabulary translators) and of the thermostat driver
    derivation of [autelis-poly.py].

    Conventions of the embedding:
    - a Python [bytes] value is a [string]: one [ascii] per byte (0..255);
    - a Python [str] token is a [string] read as ASCII text.  The text decoded
      from the socket is a list of code points ([list N]); the tokens the
      listener hands to the translators are groups of the status pattern and
      so lie in [A-Z0-9];
    - a Python [int] is a [Z];
    - an exception is a value of [exn]; a call that may raise returns a
      [result];
    - the interpreter's optional limit on the digits of an integer literal
      handed to [int()] is taken as switched off. *)

From Stdlib Require Import String Ascii List ZArith NArith Bool Lia.
From Stdlib Require Import DecimalString.
Import ListNotations.

Local Open Scope string_scope.
Local Open Scope Z_scope.

(** ** Exceptions and results *)

Inductive exn : Type :=
  | ValueError                 (* int() of a malformed literal *)
  | UnicodeDecodeError         (* bytes.decode("utf-8") of malformed bytes *)
  | XMLParseError              (* xml.fromstring of a malformed document *)
  | RequestsTimeout            (* requests.exceptions.Timeout *)
  | RequestsConnectionError    (* requests.exceptions.ConnectionError *)
  | RequestsHTTPError          (* requests.exceptions.HTTPError *)
  | SocketTimeout              (* socket.timeout *)
  | SocketError                (* socket.error other than a timeout *)
  | OtherError (name : string). (* anything else *)

Inductive result (A : Type) : Type :=
  | Ok (a : A)
  | Raise (e : exn).
Arguments Ok {A} a.
Arguments Raise {A} e.

Definition bind {A B : Type} (m : result A) (k : A -> result B) : result B :=
  match m with
  | Ok a => k a
  | Raise e => Raise e
  end.

Notation "'let*' x ':=' m 'in' k" := (bind m (fun x => k))
  (at level 10, x name, m at level 100, k at level 200).

(** ** Python string primitives used by the translators *)

Module Py.

Definition CR : ascii := "013"%char.
Definition LF : ascii := "010"%char.

(** [s[:n]] and [s[n:]] *)
Fixpoint take (n : nat) (s : string) : string :=
  match n, s with
  | O, _ => EmptyString
  | S _, EmptyString => EmptyString
  | S n', String c s' => String c (take n' s')
  end.

Fixpoint drop (n : nat) (s : string) : string :=
  match n, s with
  | O, _ => s
  | S _, EmptyString => EmptyString
  | S n', String _ s' => drop n' s'
  end.

Definition is_upper (c : ascii) : bool :=
  let n := nat_of_ascii c in (Nat.leb 65 n && Nat.leb n 90)%bool.

Definition is_digit (c : ascii) : bool :=
  let n := nat_of_ascii c in (Nat.leb 48 n && Nat.leb n 57)%bool.

Definition lower_char (c : ascii) : ascii :=
  if is_upper c then ascii_of_nat (nat_of_ascii c + 32) else c.

(** [s.lower()] on ASCII text *)
Fixpoint lower (s : string) : string :=
  match s with
  | EmptyString => EmptyString
  | String c s' => String (lower_char c) (lower s')
  end.

(** The white space [int()] skips around an ASCII literal:
    tab, line feed, vertical tab, form feed, carriage return, space. *)
Definition is_space (c : ascii) : bool :=
  let n := nat_of_ascii c in ((Nat.leb 9 n && Nat.leb n 13) || Nat.eqb n 32)%bool.

Fixpoint lstrip (s : string) : string :=
  match s with
  | String c s' => if is_space c then lstrip s' else s
  | EmptyString => EmptyString
  end.

Fixpoint all_space (s : string) : bool :=
  match s with
  | EmptyString => true
  | String c s' => (is_space c && all_space s')%bool
  end.

Definition digit_val (c : ascii) : Z := Z.of_nat (nat_of_ascii c) - 48.

(** The digits of a decimal literal, most significant first, after the first
    digit has been read into [acc]: further digits, each optionally preceded
    by one underscore, then optional trailing white space. *)
Fixpoint int_digits (acc : Z) (s : string) : option Z :=
  match s with
  | EmptyString => Some acc
  | String c s' =>
      if is_digit c then int_digits (10 * acc + digit_val c) s'
      else if Ascii.eqb c "_" then
        match s' with
        | String d s'' =>
            if is_digit d then int_digits (10 * acc + digit_val d) s'' else None
        | EmptyString => None
        end
      else if all_space s then Some acc
      else None
  end.

Definition int_unsigned (s : string) : option Z :=
  match s with
  | String c s' => if is_digit c then int_digits (digit_val c) s' else None
  | EmptyString => None
  end.

(** [int(s)] for a [str] argument, in base 10 *)
Definition int (s : string) : result Z :=
  let t := lstrip s in
  let r :=
    match t with
    | String "+" t' => int_unsigned t'
    | String "-" t' => option_map Z.opp (int_unsigned t')
    | _ => int_unsigned t
    end in
  match r with
  | Some z => Ok z
  | None => Raise ValueError
  end.

(** [str(z)] for an [int] *)
Definition str (z : Z) : string := NilZero.string_of_int (Z.to_int z).

End Py.

(** ** The vocabulary translators ([autelisapi.py], lines 203-263) *)

Definition cmd_to_element (cmd : string) : result string :=
  if String.eqb (Py.take 3 cmd) "CIR" then
    let* circuitNum := Py.int (Py.drop 3 cmd) in
    if (41 <=? circuitNum) && (circuitNum <=? 50) then
      Ok ("feature" ++ Py.str (circuitNum - 40))
    else
      Ok ("circuit" ++ Py.drop 3 cmd)
  else if String.eqb cmd "AIRTMP" then Ok "airtemp"
  else if String.eqb cmd "SPATMP" then Ok "spatemp"
  else if String.eqb cmd "SOLHT" then Ok "solarht"
  else if String.eqb cmd "SOLTMP" then Ok "solartemp"
  else if String.eqb cmd "WFALL" then Ok "waterfall"
  else if String.eqb cmd "CLEAN" then Ok "cleaner"
  else if String.eqb cmd "OPTIONS" then Ok "dip"
  else if String.eqb cmd "UNITS" then Ok "tempunits"
  else if String.eqb cmd "POOLTMP" then Ok "pooltemp"
  else if String.eqb cmd "POOLTMP2" then Ok "pooltemp"
  else Ok (Py.lower cmd).

Definition val_to_text (val : string) : string :=
  if String.eqb val "AUTO" then "0"
  else if String.eqb val "SERVICE" then "1"
  else if String.eqb val "TIMEOUT" then "2"
  else if String.eqb val "TRUE" then "1"
  else if String.eqb val "FALSE" then "0"
  else if String.eqb val "T" then "1"
  else if String.eqb val "F" then "0"
  else if String.eqb val "ON" then "1"
  else if String.eqb val "OFF" then "0"
  else if String.eqb val "HEATER" then "1"
  else if String.eqb val "SOLPREF" then "2"
  else if String.eqb val "SOLAR" then "3"
  else val.

(** ** Observable effects

    Every function of the communication layer is run against a scripted
    environment and returns, next to its result, the list of effects it
    performed, in order. *)

Inductive level : Type := DEBUG | WARNING | ERROR.

Record request : Type := mkRequest {
  req_url : string;
  req_auth : string * string;
  req_timeout_ms : Z
}.

Inductive effect : Type :=
  | Log (l : level) (template : string)
  | HttpGet (r : request)
  | Connect (host : string) (port : Z)
  | SetTimeout (seconds : Z)
  | Send (data : string)
  | Close
  | Callback (element value : string).

Definition trace : Type := list effect.

(** ** The HTTP command interface ([autelisapi.py], lines 13-114) *)

Definition _STATUS_ENDPOINT : string := "status.xml".
Definition _COMMAND_ENDPOINT : string := "set.cgi".
Definition _AUTELIS_ON_VALUE : Z := 1.
Definition _AUTELIS_OFF_VALUE : Z := 0.
Definition _HTTP_TIMEOUT_MS : Z := 3050.

Record response : Type := mkResponse {
  status_code : Z;
  resp_text : string;
  resp_url : string
}.

(** A parsed XML element; only the root tag is inspected by the client. *)
Unset Elimination Schemes.
Inductive Element : Type :=
  | Elem (tag : string) (text : option string) (children : list Element).
Set Elimination Schemes.

Definition tag (x : Element) : string :=
  match x with Elem t _ _ => t end.

(** The libraries the client calls: [requests.get] and [xml.fromstring]. *)
Record HttpWorld : Type := mkHttpWorld {
  requests_get : request -> result response;
  fromstring : string -> result Element
}.

(** [response.raise_for_status()]: HTTPError for a 4xx or 5xx status. *)
Definition raise_for_status (r : response) : result unit :=
  if (400 <=? status_code r) && (status_code r <? 600)
  then Raise RequestsHTTPError else Ok tt.

(** The class tuple of the first [except] clause of both requests. *)
Definition is_transient (e : exn) : bool :=
  match e with
  | RequestsTimeout | RequestsConnectionError | RequestsHTTPError => true
  | _ => false
  end.

Record AutelisInterface : Type := mkAutelisInterface {
  controllerAddr : string;
  _userName : string;
  _password : string
}.

Definition status_request (self : AutelisInterface) : request :=
  mkRequest ("http://" ++ controllerAddr self ++ "/" ++ _STATUS_ENDPOINT)
            (_userName self, _password self) _HTTP_TIMEOUT_MS.

Definition get_status (w : HttpWorld) (self : AutelisInterface)
  : trace * result (option Element) :=
  let rq := status_request self in
  let pre := [Log DEBUG "In get_status()..."; HttpGet rq] in
  match (let* response := requests_get w rq in
         let* _ := raise_for_status response in Ok response) with
  | Raise e =>
      if is_transient e
      then ((pre ++ [Log WARNING "HTTP GET in get_status() failed - %s"])%list, Ok None)
      else ((pre ++ [Log ERROR "Unexpected error occured - %s"])%list, Raise e)
  | Ok response =>
      match fromstring w (resp_text response) with
      | Raise e => (pre, Raise e)
      | Ok statusXML =>
          if String.eqb (tag statusXML) "response"
          then (pre, Ok (Some statusXML))
          else ((pre ++ [Log WARNING "%s returned invalid XML in response"])%list, Ok None)
      end
  end.

Definition command_request (self : AutelisInterface)
  (element label : string) (value : Z) : request :=
  mkRequest ("http://" ++ controllerAddr self ++ "/" ++ _COMMAND_ENDPOINT
             ++ "?name=" ++ element ++ "&" ++ label ++ "=" ++ Py.str value)
            (_userName self, _password self) _HTTP_TIMEOUT_MS.

Definition send_command (w : HttpWorld) (self : AutelisInterface)
  (element label : string) (value : Z) : trace * result bool :=
  let rq := command_request self element label value in
  let pre := [Log DEBUG "In send_command(): Element %s, Label %s, Value %s";
              HttpGet rq] in
  match (let* response := requests_get w rq in
         let* _ := raise_for_status response in Ok response) with
  | Raise e =>
      if is_transient e
      then ((pre ++ [Log WARNING "HTTP GET in send_command() failed - %s"])%list, Ok false)
      else ((pre ++ [Log ERROR "Unexpected error occured - %s"])%list, Raise e)
  | Ok response =>
      ((pre ++ [Log DEBUG "GET returned successfully - %s"])%list, Ok true)
  end.

Definition on (w : HttpWorld) (self : AutelisInterface) (element : string) :=
  send_command w self element "value" _AUTELIS_ON_VALUE.

Definition off (w : HttpWorld) (self : AutelisInterface) (element : string) :=
  send_command w self element "value" _AUTELIS_OFF_VALUE.

Definition set_temp (w : HttpWorld) (self : AutelisInterface)
  (element : string) (value : Z) :=
  send_command w self element "temp" value.

Definition set_heat_setting (w : HttpWorld) (self : AutelisInterface)
  (element : string) (value : Z) :=
  send_command w self element "hval" value.

(** ** Thermostat drivers ([autelis-poly.py], lines 119-165)

    A node keeps its drivers as a list of (name, value, unit) entries.
    [setDriver] belongs to the node framework: it stores the value in the
    first entry of that name and leaves a node without such an entry as it
    is.  Reporting the value to the hub is not part of the node's state and
    is left out. *)

Record driver : Type := mkDriver {
  d_name : string;
  d_value : Z;
  d_uom : Z
}.

Record node : Type := mkNode {
  address : string;
  drivers : list driver
}.

Fixpoint set_first (name : string) (value : Z) (ds : list driver) : list driver :=
  match ds with
  | [] => []
  | d :: ds' =>
      if String.eqb (d_name d) name
      then mkDriver (d_name d) value (d_uom d) :: ds'
      else d :: set_first name value ds'
  end.

Definition setDriver (self : node) (name : string) (value : Z) (report : bool) : node :=
  mkNode (address self) (set_first name value (drivers self)).

Fixpoint find_driver (name : string) (ds : list driver) : option Z :=
  match ds with
  | [] => None
  | d :: ds' => if String.eqb (d_name d) name then Some (d_value d)
                else find_driver name ds'
  end.

Definition getDriver (self : node) (name : string) : option Z :=
  find_driver name (drivers self).

Definition _ISY_TEMP_F_UOM : Z := 17.
Definition _ISY_THERMO_MODE_UOM : Z := 67.
Definition _ISY_THERMO_HCS_UOM : Z := 66.

Definition TempControl_drivers : list driver :=
  [ mkDriver "ST" 0 _ISY_TEMP_F_UOM;
    mkDriver "CLISPH" 0 _ISY_TEMP_F_UOM;
    mkDriver "CLIMD" 0 _ISY_THERMO_MODE_UOM;
    mkDriver "CLIHCS" 0 _ISY_THERMO_HCS_UOM;
    mkDriver "CLISPC" 0 _ISY_TEMP_F_UOM ].

(** Python truth value of an [int] *)
Definition truthy (z : Z) : bool := negb (z =? 0).

Definition update_thermo_drivers (self : node) (setting htstatus : Z)
  (report : bool) : node :=
  let self :=
    if setting =? 1 then setDriver self "CLIMD" 1 report        (* Heat *)
    else if setting =? 2 then setDriver self "CLIMD" 3 report   (* Auto *)
    else if setting =? 3 then setDriver self "CLIMD" 4 report   (* Aux/Emergency Heat *)
    else setDriver self "CLIMD" 0 report in                     (* Off *)
  if String.eqb (address self) "spaht" then
    if truthy (Z.land htstatus 2) then setDriver self "CLIHCS" 1 report       (* Heating *)
    else if truthy (Z.land htstatus 8) then setDriver self "CLIHCS" 7 report  (* Aux Heat *)
    else setDriver self "CLIHCS" 0 report                                     (* Idle *)
  else if String.eqb (address self) "poolht" then
    if truthy (Z.land htstatus 1) then setDriver self "CLIHCS" 1 report
    else if truthy (Z.land htstatus 4) then setDriver self "CLIHCS" 7 report
    else setDriver self "CLIHCS" 0 report
  else self.

(** The hub's names for the codes the two drivers take, as the source's
    comments give them. *)
Inductive thermo_mode : Type := Off | Heat | Auto | AuxHeat.
Inductive heat_cool_status : Type := Idle | Heating | AuxHeating.

Definition mode_code (m : thermo_mode) : Z :=
  match m with Off => 0 | Heat => 1 | Auto => 3 | AuxHeat => 4 end.

Definition hcs_code (h : heat_cool_status) : Z :=
  match h with Idle => 0 | Heating => 1 | AuxHeating => 7 end.

(** ** Decoding the bytes of a message: [msg.decode("utf-8")]

    The strict decoder: shortest forms only, no surrogates, nothing above
    U+10FFFF.  The result is the list of code points. *)

Module Utf8.

Local Open Scope N_scope.

Definition byte_val (c : ascii) : N := N_of_ascii c.

Definition between (lo hi b : N) : bool := (lo <=? b) && (b <=? hi).

Definition cont (b : N) : bool := between 128 191 b.

Definition low6 (b : N) : N := b - 128.

Fixpoint decode_bytes (bs : list N) : option (list N) :=
  match bs with
  | [] => Some []
  | b0 :: r0 =>
      if b0 <? 128 then option_map (cons b0) (decode_bytes r0)
      else if between 194 223 b0 then
        match r0 with
        | b1 :: r1 =>
            if cont b1
            then option_map (cons ((b0 - 192) * 64 + low6 b1)) (decode_bytes r1)
            else None
        | _ => None
        end
      else if between 224 239 b0 then
        match r0 with
        | b1 :: b2 :: r2 =>
            if between (if b0 =? 224 then 160 else 128)
                       (if b0 =? 237 then 159 else 191) b1 && cont b2
            then option_map
                   (cons ((b0 - 224) * 4096 + low6 b1 * 64 + low6 b2))
                   (decode_bytes r2)
            else None
        | _ => None
        end
      else if between 240 244 b0 then
        match r0 with
        | b1 :: b2 :: b3 :: r3 =>
            if between (if b0 =? 240 then 144 else 128)
                       (if b0 =? 244 then 143 else 191) b1 && cont b2 && cont b3
            then option_map
                   (cons ((b0 - 240) * 262144 + low6 b1 * 4096
                          + low6 b2 * 64 + low6 b3))
                   (decode_bytes r3)
            else None
        | _ => None
        end
      else None
  end.

Definition decode (msg : string) : result (list N) :=
  match decode_bytes (map byte_val (list_ascii_of_string msg)) with
  | Some cps => Ok cps
  | None => Raise UnicodeDecodeError
  end.

(** A [str] made of code points below 256, as a [string]. *)
Definition to_string (cps : list N) : string :=
  string_of_list_ascii (map ascii_of_N cps).

End Utf8.

(** ** Regular expressions: [re.match]

    The constructs the status pattern uses, with the backtracking semantics
    of the [re] module: a match is anchored at the start only, [+] and [?]
    are greedy, and the first successful path is taken.  Groups do not nest
    in the pattern and are numbered in the order they close. *)

Module Re.

Inductive regex : Type :=
  | Eps
  | Lit (c : N)
  | Class (p : N -> bool)
  | PlusClass (p : N -> bool)        (* [...]+ *)
  | Opt (r : regex)                  (* r? *)
  | Seq (r1 r2 : regex)
  | Group (r : regex).

Section Matcher.
Variable R : Type.

Fixpoint plus_class (p : N -> bool) (s : list N)
  (k : list N -> option R) : option R :=
  match s with
  | c :: s' =>
      if p c then
        match plus_class p s' k with
        | Some r => Some r
        | None => k s'
        end
      else None
  | [] => None
  end.

Fixpoint run (r : regex) (s : list N) (caps : list (list N))
  (k : list N -> list (list N) -> option R) : option R :=
  match r with
  | Eps => k s caps
  | Lit c =>
      match s with
      | x :: s' => if N.eqb x c then k s' caps else None
      | [] => None
      end
  | Class p =>
      match s with
      | x :: s' => if p x then k s' caps else None
      | [] => None
      end
  | PlusClass p => plus_class p s (fun s' => k s' caps)
  | Opt r' =>
      match run r' s caps k with
      | Some x => Some x
      | None => k s caps
      end
  | Seq r1 r2 => run r1 s caps (fun s' caps' => run r2 s' caps' k)
  | Group r' =>
      run r' s caps
        (fun s' caps' =>
           k s' (caps' ++ [firstn (length s - length s') s])%list)
  end.
End Matcher.

(** [re.match(r, s)]: the groups of the match, or [None]. *)
Definition match_ (r : regex) (s : list N) : option (list (list N)) :=
  run _ r s [] (fun _ caps => Some caps).

Definition lit (c : ascii) : regex := Lit (N_of_ascii c).

Fixpoint seqs (rs : list regex) : regex :=
  match rs with
  | [] => Eps
  | r :: rs' => Seq r (seqs rs')
  end.

End Re.

(** ** The TCP serial port interface ([autelisapi.py], lines 19-199) *)

Definition _CONTROLLER_TCP_PORT : Z := 6000.
Definition _TEST_TCP_MSG : string := "#OPMODE?" ++ String Py.CR EmptyString.
Definition _TEST_RTN_SUCCESS : string := "!00 OPMODE=".
Definition _BUFFER_SIZE : nat := 32.

(** [A-Z0-9] and [FC] *)
Definition token_char (c : N) : bool :=
  (Utf8.between 65 90 c || Utf8.between 48 57 c)%bool.

Definition unit_char (c : N) : bool := (N.eqb c 70 || N.eqb c 67)%bool.

(** [r"!00 ([A-Z0-9]+)=([A-Z0-9]+) ?[FC]?\r\n"] *)
Definition _STATUS_UPDATE_MATCH_PATTERN : Re.regex :=
  Re.seqs [ Re.lit "!"; Re.lit "0"; Re.lit "0"; Re.lit " ";
            Re.Group (Re.PlusClass token_char);
            Re.lit "=";
            Re.Group (Re.PlusClass token_char);
            Re.Opt (Re.lit " ");
            Re.Opt (Re.Class unit_char);
            Re.lit Py.CR; Re.lit Py.LF ].

(** [needle in hay] for [bytes] *)
Fixpoint starts_with (needle hay : string) : bool :=
  match needle, hay with
  | EmptyString, _ => true
  | String a n', String b h' => (Ascii.eqb a b && starts_with n' h')%bool
  | String _ _, EmptyString => false
  end.

Fixpoint contains (needle hay : string) : bool :=
  (starts_with needle hay ||
   match hay with
   | EmptyString => false
   | String _ h' => contains needle h'
   end)%bool.

(** The scripted socket.  [connect_result] is what [conn.connect] does;
    [recvs] lists what the successive calls of [conn.recv] do, an [Ok]
    carrying the bytes read (no bytes at all once the peer has shut the
    stream down); [send_result n] is what the call of [conn.send] does that
    follows [n] earlier ones. *)
Record Socket : Type := mkSocket {
  connect_result : result unit;
  recvs : list (result string);
  send_result : nat -> result unit
}.

(** How a run of the listener ends: it returns, it raises, or the script is
    used up and the listener is blocked in [conn.recv]. *)
Inductive outcome : Type :=
  | Returned (b : bool)
  | Raised (e : exn)
  | Listening.

Definition handler : Type := string -> string -> bool.

(** Lines 181-199: the body of the loop after a message has been read. *)
Definition process_msg (statusUpdateCallback : option handler) (msg : string)
  : trace * result unit :=
  if Nat.ltb 0 (String.length msg) then
    match Utf8.decode msg with
    | Raise e => ([], Raise e)
    | Ok text =>
        match Re.match_ _STATUS_UPDATE_MATCH_PATTERN text with
        | Some groups =>
            let cmd := Utf8.to_string (nth 0 groups []) in
            let val := Utf8.to_string (nth 1 groups []) in
            let dbg := Log DEBUG
              "Status update message received from Pool Controller: Command %s, Value %s" in
            match statusUpdateCallback with
            | Some callback =>
                match cmd_to_element cmd with
                | Raise e => ([dbg], Raise e)
                | Ok element =>
                    let text := val_to_text val in
                    if callback element text
                    then ([dbg; Callback element text], Ok tt)
                    else ([dbg; Callback element text;
                           Log WARNING "Unhandled status update from Pool Controller - %s"],
                          Ok tt)
                end
            | None => ([dbg], Ok tt)
            end
        | None =>
            ([Log WARNING "Invalid status message received from Pool Controller - %s"],
             Ok tt)
        end
    end
  else ([], Ok tt).

(** [socket.timeout] is a subclass of [socket.error]. *)
Definition is_socket_error (e : exn) : bool :=
  match e with SocketTimeout | SocketError => true | _ => false end.

Definition is_socket_timeout (e : exn) : bool :=
  match e with SocketTimeout => true | _ => false end.

(** The handlers of lines 154-164 and 172-178. *)
Definition probe_failed (e : exn) : trace * outcome :=
  if is_socket_timeout e then
    ([Log ERROR "Pool Controller did not respond to test message - connection closed.";
      Close], Returned false)
  else if is_socket_error e then
    ([Log ERROR "TCP Connection to Pool Controller unexpectedly closed. Socket error: %s";
      Close], Returned false)
  else ([Close], Raised e).

Definition recv_failed (e : exn) : trace * outcome :=
  if is_socket_error e then
    ([Log ERROR "TCP Connection to Pool Controller unexpectedly closed. Socket error: %s";
      Close], Returned false)
  else ([Close], Raised e).

(** Lines 166-170: the reply to the test message is not the expected one. *)
Definition invalid_reply (msg : string) : trace * outcome :=
  match Utf8.decode msg with
  | Raise e => ([], Raised e)
  | Ok _ =>
      ([Log ERROR "Pool Controller returned invalid data ('%s') - connection closed.";
        Close], Returned false)
  end.

Definition prepend (t : trace) (r : trace * outcome) : trace * outcome :=
  ((t ++ fst r)%list, snd r).

(** Run [rest] after the message has been processed, unless that raised. *)
Definition and_then (p : trace * result unit) (rest : trace * outcome)
  : trace * outcome :=
  match snd p with
  | Ok _ => prepend (fst p) rest
  | Raise e => (fst p, Raised e)
  end.

(** Lines 140-199: the loop, one iteration for each [recv] of the steady
    state; [nsent] counts the test messages sent so far. *)
Fixpoint listen (statusUpdateCallback : option handler)
  (send_result : nat -> result unit) (nsent : nat)
  (recvs : list (result string)) {struct recvs} : trace * outcome :=
  prepend [SetTimeout 600]
    match recvs with
    | [] => ([], Listening)
    | Ok msg :: rest =>
        and_then (process_msg statusUpdateCallback msg)
                 (listen statusUpdateCallback send_result nsent rest)
    | Raise e :: rest =>
        if is_socket_timeout e then
          prepend [SetTimeout 2; Send _TEST_TCP_MSG]
            match send_result nsent with
            | Raise e' => probe_failed e'
            | Ok _ =>
                match rest with
                | [] => ([], Listening)
                | Raise e' :: _ => probe_failed e'
                | Ok msg :: rest' =>
                    if negb (contains _TEST_RTN_SUCCESS msg) then invalid_reply msg
                    else
                      and_then (process_msg statusUpdateCallback msg)
                               (listen statusUpdateCallback send_result (S nsent) rest')
                end
            end
        else recv_failed e
    end.

(** Lines 118-199. *)
Definition status_listener (sock : Socket) (controllerAddr : string)
  (statusUpdateCallback : option handler) : trace * outcome :=
  prepend [Log DEBUG "In status_listener..."; Connect controllerAddr _CONTROLLER_TCP_PORT]
    match connect_result sock with
    | Raise e =>
        if is_socket_error e then
          ([Log ERROR "Unable to establish TCP connection with Pool Controller. Socket error: %s";
            Close], Returned false)
        else ([Close], Raised e)
    | Ok _ => listen statusUpdateCallback (send_result sock) 0 (recvs sock)
    end.

(** *** A callback that raises

    [handler] above is a callback that returns.  The listener calls the
    callback after its [try] statement has ended (lines 194-196), so an
    exception of the callback leaves [status_listener] at that call,
    without passing any [conn.close()].  The loop once more, for a callback
    that returns or raises; the call that raised is recorded in the
    trace. *)
Definition raising_handler : Type := string -> string -> result bool.

Definition process_msg_raising (statusUpdateCallback : option raising_handler)
  (msg : string) : trace * result unit :=
  if Nat.ltb 0 (String.length msg) then
    match Utf8.decode msg with
    | Raise e => ([], Raise e)
    | Ok text =>
        match Re.match_ _STATUS_UPDATE_MATCH_PATTERN text with
        | Some groups =>
            let cmd := Utf8.to_string (nth 0 groups []) in
            let val := Utf8.to_string (nth 1 groups []) in
            let dbg := Log DEBUG
              "Status update message received from Pool Controller: Command %s, Value %s" in
            match statusUpdateCallback with
            | Some callback =>
                match cmd_to_element cmd with
                | Raise e => ([dbg], Raise e)
                | Ok element =>
                    let text := val_to_text val in
                    match callback element text with
                    | Raise e => ([dbg; Callback element text], Raise e)
                    | Ok true => ([dbg; Callback element text], Ok tt)
                    | Ok false =>
                        ([dbg; Callback element text;
                          Log WARNING "Unhandled status update from Pool Controller - %s"],
                         Ok tt)
                    end
                end
            | None => ([dbg], Ok tt)
            end
        | None =>
            ([Log WARNING "Invalid status message received from Pool Controller - %s"],
             Ok tt)
        end
    end
  else ([], Ok tt).

Fixpoint listen_raising (statusUpdateCallback : option raising_handler)
  (send_result : nat -> result unit) (nsent : nat)
  (recvs : list (result string)) {struct recvs} : trace * outcome :=
  prepend [SetTimeout 600]
    match recvs with
    | [] => ([], Listening)
    | Ok msg :: rest =>
        and_then (process_msg_raising statusUpdateCallback msg)
                 (listen_raising statusUpdateCallback send_result nsent rest)
    | Raise e :: rest =>
        if is_socket_timeout e then
          prepend [SetTimeout 2; Send _TEST_TCP_MSG]
            match send_result nsent with
            | Raise e' => probe_failed e'
            | Ok _ =>
                match rest with
                | [] => ([], Listening)
                | Raise e' :: _ => probe_failed e'
                | Ok msg :: rest' =>
                    if negb (contains _TEST_RTN_SUCCESS msg) then invalid_reply msg
                    else
                      and_then (process_msg_raising statusUpdateCallback msg)
                               (listen_raising statusUpdateCallback send_result
                                  (S nsent) rest')
                end
            end
        else recv_failed e
    end.

Definition status_listener_raising (sock : Socket) (controllerAddr : string)
  (statusUpdateCallback : option raising_handler) : trace * outcome :=
  prepend [Log DEBUG "In status_listener..."; Connect controllerAddr _CONTROLLER_TCP_PORT]
    match connect_result sock with
    | Raise e =>
        if is_socket_error e then
          ([Log ERROR "Unable to establish TCP connection with Pool Controller. Socket error: %s";
            Close], Returned false)
        else ([Close], Raised e)
    | Ok _ => listen_raising statusUpdateCallback (send_result sock) 0 (recvs sock)
    end.

(** ** The node server ([autelis-poly.py])

    The node framework ([polyinterface]) is not part of the repository.
    What the node server asks of it is kept to three things: [setDriver] as
    above; [updateNode], [addNode] and [reportDrivers], which are recorded
    as effects and change nothing here; and the dictionary [self.nodes],
    which the framework fills and the node server only reads.  Node objects
    live in a store and are named by their index, so that two names of one
    object (the controller is [self] and may also be an entry of
    [self.nodes]) see the same drivers.  An index outside the store names
    nothing and is left alone. *)

Definition AttributeError : exn := OtherError "AttributeError".
Definition TypeError : exn := OtherError "TypeError".
Definition KeyError : exn := OtherError "KeyError".
Definition SystemExit : exn := OtherError "SystemExit".

Definition _ISY_BOOL_UOM : Z := 2.
Definition _ISY_INDEX_UOM : Z := 25.
Definition _ISY_TEMP_C_UOM : Z := 4.

(** [int(command.get("value"))] and [int(element.text)]: the argument is a
    string or None. *)
Definition int_of_value (v : option string) : result Z :=
  match v with
  | None => Raise TypeError
  | Some s => Py.int s
  end.

(** *** Equipment (lines 21-48) *)

Definition Equipment_drivers : list driver := [ mkDriver "ST" 0 _ISY_INDEX_UOM ].

Definition cmd_don (w : HttpWorld) (autelis : option AutelisInterface)
  (self : node) : trace * result node :=
  match autelis with
  | None => ([], Raise AttributeError)
  | Some a =>
      match on w a (address self) with
      | (t, Raise e) => (t, Raise e)
      | (t, Ok true) => (t, Ok (setDriver self "ST" 1 true))
      | (t, Ok false) =>
          ((t ++ [Log WARNING
                    "Call to Pool Controller in DON command handler failed for node %s."])%list,
           Ok self)
      end
  end.

Definition cmd_dof (w : HttpWorld) (autelis : option AutelisInterface)
  (self : node) : trace * result node :=
  match autelis with
  | None => ([], Raise AttributeError)
  | Some a =>
      match off w a (address self) with
      | (t, Raise e) => (t, Raise e)
      | (t, Ok true) => (t, Ok (setDriver self "ST" 0 true))
      | (t, Ok false) =>
          ((t ++ [Log WARNING
                    "Call to Pool Controller in DOF command handler failed for node %s."])%list,
           Ok self)
      end
  end.

(** *** TempControl (lines 51-169)

    [cmd_set_mode] reaches the interface through [self.parent], the other
    handlers through [self.controller]; the framework sets both to the
    controller. *)

Definition unit_is_C (tempUnit : option string) : bool :=
  match tempUnit with
  | Some u => String.eqb u "C"
  | None => false
  end.

Definition temp_uom (tempUnit : option string) : Z :=
  if unit_is_C tempUnit then _ISY_TEMP_C_UOM else _ISY_TEMP_F_UOM.

Definition name_in (names : list string) (name : string) : bool :=
  existsb (String.eqb name) names.

(** The loop over [self.drivers] of both [set_temp_unit] methods. *)
Definition relabel (names : list string) (tempUnit : option string)
  (ds : list driver) : list driver :=
  map (fun d => if name_in names (d_name d)
                then mkDriver (d_name d) (d_value d) (temp_uom tempUnit)
                else d) ds.

Definition TempControl_id (tempUnit : option string) : string :=
  if unit_is_C tempUnit then "TEMP_CONTROL_C" else "TEMP_CONTROL".

(** [TempControl.set_temp_unit]: the new [id] and the node. *)
Definition TempControl_set_temp_unit (self : node) (tempUnit : option string)
  : string * node :=
  (TempControl_id tempUnit,
   mkNode (address self) (relabel ["ST"; "CLISPH"; "CLISPC"] tempUnit (drivers self))).

Definition setpoint_element (addr : string) : option string :=
  if String.eqb addr "poolht" then Some "poolsp"
  else if String.eqb addr "poolht2" then Some "poolsp2"
  else if String.eqb addr "spaht" then Some "spasp"
  else None.

Definition cmd_set_temp (w : HttpWorld) (autelis : option AutelisInterface)
  (self : node) (command_value : option string) : trace * result node :=
  match int_of_value command_value with
  | Raise e => ([], Raise e)
  | Ok value =>
      match setpoint_element (address self) with
      | None =>
          ([Log WARNING "No setpoint for node %s - SET_TEMP command ignored."], Ok self)
      | Some name =>
          match autelis with
          | None => ([], Raise AttributeError)
          | Some a =>
              match set_temp w a name value with
              | (t, Raise e) => (t, Raise e)
              | (t, Ok true) => (t, Ok (setDriver self "CLISPH" value true))
              | (t, Ok false) =>
                  ((t ++ [Log WARNING
                            "Call to Pool Controller in SET_TEMP command handler failed for node %s."])%list,
                   Ok self)
              end
          end
      end
  end.



(** *** The status document *)

Module XML.

Definition children (x : Element) : list Element :=
  match x with Elem _ _ c => c end.

Definition text (x : Element) : option string :=
  match x with Elem _ t _ => t end.

(** [x.find(name)] for a plain tag name: the first child of that tag. *)
Definition find (x : Element) (name : string) : option Element :=
  List.find (fun c => String.eqb (tag c) name) (children x).

End XML.

(** [parent.find(name).text], where [parent] is itself the result of a
    [find]: AttributeError when either element is missing. *)
Definition find_text (parent : option Element) (name : string)
  : result (option string) :=
  match parent with
  | None => Raise AttributeError
  | Some p =>
      match XML.find p name with
      | None => Raise AttributeError
      | Some c => Ok (XML.text c)
      end
  end.

Definition find_int (parent : option Element) (name : string) : result Z :=
  let* t := find_text parent name in int_of_value t.

(** *** Controller (lines 172-412) *)

Inductive nodeobj : Type :=
  | ControllerObj (n : node)                  (* id "CONTROLLER" *)
  | TempControlObj (id : string) (n : node)   (* id set by set_temp_unit *)
  | EquipmentObj (n : node).                  (* id "EQUIPMENT" *)

Definition obj_node (o : nodeobj) : node :=
  match o with
  | ControllerObj n | TempControlObj _ n | EquipmentObj n => n
  end.


Definition obj_with (f : node -> node) (o : nodeobj) : nodeobj :=
  match o with
  | ControllerObj n => ControllerObj (f n)
  | TempControlObj id n => TempControlObj id (f n)
  | EquipmentObj n => EquipmentObj (f n)
  end.

Record Controller : Type := mkController {
  self_ref : nat;                    (* the controller's own node object *)
  objects : list nodeobj;            (* the store of node objects *)
  nodes : list (string * nat);       (* self.nodes: address -> object *)
  autelis : option AutelisInterface;
  pollingInterval : Z;
  ignoresolar : bool;
  currentTempUnit : option string
}.

Definition Controller_drivers : list driver :=
  [ mkDriver "ST" 0 _ISY_BOOL_UOM;
    mkDriver "GV0" 1 _ISY_INDEX_UOM;
    mkDriver "GV1" 0 _ISY_INDEX_UOM;
    mkDriver "GV2" 0 _ISY_INDEX_UOM;
    mkDriver "GV3" 0 _ISY_INDEX_UOM;
    mkDriver "GV4" 0 _ISY_INDEX_UOM;
    mkDriver "GV5" 0 _ISY_INDEX_UOM;
    mkDriver "CLITEMP" 0 _ISY_TEMP_F_UOM;
    mkDriver "GV9" 0 _ISY_TEMP_F_UOM ].

(** A Python dictionary with string keys, in insertion order. *)
Fixpoint dict_get {V : Type} (key : string) (d : list (string * V)) : option V :=
  match d with
  | [] => None
  | (k, v) :: d' => if String.eqb k key then Some v else dict_get key d'
  end.

Fixpoint update_nth {A : Type} (i : nat) (f : A -> A) (l : list A) : list A :=
  match l, i with
  | [], _ => []
  | x :: l', O => f x :: l'
  | x :: l', S i' => x :: update_nth i' f l'
  end.

Definition with_objects (c : Controller) (os : list nodeobj) : Controller :=
  mkController (self_ref c) os (nodes c) (autelis c) (pollingInterval c)
               (ignoresolar c) (currentTempUnit c).

Definition with_unit (c : Controller) (u : option string) : Controller :=
  mkController (self_ref c) (objects c) (nodes c) (autelis c) (pollingInterval c)
               (ignoresolar c) u.

Definition update_object (ref : nat) (f : nodeobj -> nodeobj) (c : Controller)
  : Controller :=
  with_objects c (update_nth ref f (objects c)).

(** What the node server does besides talking to the pool controller. *)
Inductive hub_effect : Type :=
  | Net (e : effect)
  | LogInfo (template : string)
  | UpdateNode (address : string)
  | AddNode (class primary address name : string) (tempUnit : option string)
  | ReportDrivers (address : string).

(** A method of the controller: it reads and changes the controller,
    leaves effects, and returns or raises.  After an exception the
    controller is as the method left it. *)
Definition Hub (A : Type) : Type :=
  Controller -> list hub_effect * Controller * result A.

Definition ret {A : Type} (a : A) : Hub A := fun c => ([], c, Ok a).

Definition bindH {A B : Type} (m : Hub A) (k : A -> Hub B) : Hub B :=
  fun c =>
    match m c with
    | (t, c', Ok a) =>
        match k a c' with
        | (t', c'', r) => ((t ++ t')%list, c'', r)
        end
    | (t, c', Raise e) => (t, c', Raise e)
    end.

Notation "x <- m ;; k" := (bindH m (fun x => k))
  (at level 61, m at next level, right associativity).
Notation "m ;;; k" := (bindH m (fun _ => k))
  (at level 61, right associativity).

Definition lift {A : Type} (r : result A) : Hub A := fun c => ([], c, r).

Definition emit (e : hub_effect) : Hub unit := fun c => ([e], c, Ok tt).

Definition net {A : Type} (p : trace * result A) : Hub A :=
  fun c => (map Net (fst p), c, snd p).

Definition gets {A : Type} (f : Controller -> A) : Hub A :=
  fun c => ([], c, Ok (f c)).

Definition modify (f : Controller -> Controller) : Hub unit :=
  fun c => ([], f c, Ok tt).

(** [node.setDriver(name, value, report)] for the object [ref]. *)
Definition obj_setDriver (ref : nat) (name : string) (value : Z) (report : bool)
  : Hub unit :=
  modify (update_object ref (obj_with (fun n => setDriver n name value report))).

Definition self_setDriver (name : string) (value : Z) (report : bool) : Hub unit :=
  fun c => obj_setDriver (self_ref c) name value report c.

Definition obj_address (c : Controller) (ref : nat) : string :=
  match nth_error (objects c) ref with
  | Some o => address (obj_node o)
  | None => EmptyString
  end.

Definition option_string_eqb (a b : option string) : bool :=
  match a, b with
  | Some x, Some y => String.eqb x y
  | None, None => true
  | _, _ => false
  end.

(** [Controller.set_temp_unit] (lines 187-197). *)
Definition Controller_set_temp_unit (tempUnit : option string) : Hub unit :=
  fun c =>
    (modify (update_object (self_ref c)
               (obj_with (fun n => mkNode (address n)
                                     (relabel ["CLITEMP"; "GV9"] tempUnit (drivers n))))) ;;;
     emit (UpdateNode (obj_address c (self_ref c))) ;;;
     modify (fun c' => with_unit c' tempUnit)) c.

(** One turn of the loop of [change_temp_units] (lines 203-207). *)
Definition set_unit_of (newTempUnit : option string) (o : nodeobj) : nodeobj :=
  match o with
  | TempControlObj _ n =>
      TempControlObj (fst (TempControl_set_temp_unit n newTempUnit))
                     (snd (TempControl_set_temp_unit n newTempUnit))
  | _ => o
  end.

Definition change_node_unit (newTempUnit : option string) (addr : string)
  : Hub unit :=
  fun c =>
    match dict_get addr (nodes c) with
    | None => ([], c, Raise KeyError)
    | Some ref =>
        match nth_error (objects c) ref with
        | Some (TempControlObj id n) =>
            if name_in ["TEMP_CONTROL"; "TEMP_CONTROL_C"] id then
              (modify (update_object ref (set_unit_of newTempUnit)) ;;;
               emit (UpdateNode (address n))) c
            else ret tt c
        | _ => ret tt c
        end
    end.

Fixpoint for_each {A : Type} (body : A -> Hub unit) (l : list A) : Hub unit :=
  match l with
  | [] => ret tt
  | x :: l' => body x ;;; for_each body l'
  end.

(** [change_temp_units] (lines 200-210). *)
Definition change_temp_units (newTempUnit : option string) : Hub unit :=
  fun c =>
    (for_each (change_node_unit newTempUnit) (map fst (nodes c)) ;;;
     Controller_set_temp_unit newTempUnit) c.

Definition get_autelis : Hub AutelisInterface :=
  fun c =>
    match autelis c with
    | Some a => ([], c, Ok a)
    | None => ([], c, Raise AttributeError)
    end.

(** [self.nodes[addr]] *)
Definition node_ref (addr : string) : Hub nat :=
  fun c =>
    match dict_get addr (nodes c) with
    | Some ref => ([], c, Ok ref)
    | None => ([], c, Raise KeyError)
    end.

(** [node.update_thermo_drivers(...)]: a method of TempControl only. *)
Definition obj_update_thermo_drivers (ref : nat) (setting htstatus : Z)
  (report : bool) : Hub unit :=
  fun c =>
    match nth_error (objects c) ref with
    | Some (TempControlObj _ _) =>
        modify (update_object ref
                  (obj_with (fun n => update_thermo_drivers n setting htstatus report))) c
    | _ => ([], c, Raise AttributeError)
    end.

(** Lines 364-374 and 376-386: one thermostat. *)
Definition update_thermostat (temp : option Element)
  (addr setting_name setpoint_name temp_name : string) (report : bool) : Hub unit :=
  node <- node_ref addr ;;
  htstatus <- lift (find_int temp "htstatus") ;;
  setting <- lift (find_int temp setting_name) ;;
  setPoint <- lift (find_int temp setpoint_name) ;;
  currentTemp <- lift (find_int temp temp_name) ;;
  obj_setDriver node "ST" currentTemp report ;;;
  obj_setDriver node "CLISPH" setPoint report ;;;
  obj_update_thermo_drivers node setting htstatus report.

(** Lines 390-399: one element of the equipment. *)
Definition update_equipment (report : bool) (element : Element) : Hub unit :=
  fun c =>
    match dict_get (tag element) (nodes c) with
    | Some node =>
        (state <- lift (int_of_value (XML.text element)) ;;
         obj_setDriver node "ST" state report) c
    | None => ret tt c
    end.

(** [list(equipment)]: TypeError when the element is missing. *)
Definition element_list (x : option Element) : result (list Element) :=
  match x with
  | Some e => Ok (XML.children e)
  | None => Raise TypeError
  end.

(** [update_node_states] (lines 319-399). *)
Definition update_node_states (w : HttpWorld) (report : bool) : Hub unit :=
  a <- get_autelis ;;
  statusXML <- net (get_status w a) ;;
  match statusXML with
  | None =>
      emit (Net (Log WARNING "No XML returned from get_status().")) ;;;
      self_setDriver "GV0" 0 report
  | Some statusXML =>
      let system := XML.find statusXML "system" in
      let equipment := XML.find statusXML "equipment" in
      let temp := XML.find statusXML "temp" in
      tempUnit <- lift (find_text temp "tempunits") ;;
      current <- gets currentTempUnit ;;
      (if option_string_eqb tempUnit current then ret tt
       else change_temp_units tempUnit) ;;;
      runstate <- lift (find_int system "runstate") ;;
      opmode <- lift (find_int system "opmode") ;;
      freeze <- lift (find_int system "freeze") ;;
      waterSensor <- lift (find_int system "sensor1") ;;
      solarSensor <- lift (find_int system "sensor2") ;;
      airSensor <- lift (find_int system "sensor3") ;;
      airTemp <- lift (find_int temp "airtemp") ;;
      solarTemp <- lift (find_int temp "soltemp") ;;
      self_setDriver "GV0" runstate report ;;;
      self_setDriver "GV1" opmode report ;;;
      self_setDriver "GV2" freeze report ;;;
      self_setDriver "GV3" waterSensor report ;;;
      self_setDriver "GV4" solarSensor report ;;;
      self_setDriver "GV5" airSensor report ;;;
      self_setDriver "CLITEMP" airTemp report ;;;
      self_setDriver "GV9" solarTemp report ;;;
      update_thermostat temp "poolht" "poolht" "poolsp" "pooltemp" report ;;;
      update_thermostat temp "spaht" "spaht" "spasp" "spatemp" report ;;;
      elements <- lift (element_list equipment) ;;
      for_each (update_equipment report) elements
  end.

(** One turn of the equipment loop of [discover_nodes] (lines 306-316). *)
Definition discover_equipment (element : Element) : Hub unit :=
  fun c =>
    match XML.text element with
    | Some _ =>
        emit (AddNode "Equipment" (obj_address c (self_ref c))
                      (tag element) (tag element) None) c
    | None => ret tt c
    end.

Definition add_temp_control (tempUnit : option string) (addr : string) : Hub unit :=
  fun c =>
    emit (AddNode "TempControl" (obj_address c (self_ref c)) addr addr tempUnit) c.

(** [discover_nodes] (lines 279-316). *)
Definition discover_nodes (w : HttpWorld) : Hub unit :=
  a <- get_autelis ;;
  statusXML <- net (get_status w a) ;;
  match statusXML with
  | None =>
      emit (Net (Log ERROR "No status XML returned from Autelis device on startup.")) ;;;
      lift (Raise SystemExit)
  | Some statusXML =>
      emit (Net (Log DEBUG "Status XML: %s")) ;;;
      let temp := XML.find statusXML "temp" in
      tempUnit <- lift (find_text temp "tempunits") ;;
      current <- gets currentTempUnit ;;
      (if option_string_eqb tempUnit current then ret tt
       else Controller_set_temp_unit tempUnit) ;;;
      for_each (add_temp_control tempUnit) ["poolht"; "spaht"] ;;;
      let equipment := XML.find statusXML "equipment" in
      elements <- lift (element_list equipment) ;;
      for_each discover_equipment elements
  end.

(** The configuration the framework hands to [start]:
    [self.poly.config["customParams"]], when the key is there. *)
Definition custom_params : Type := option (list (string * string)).

Definition config_get (params : list (string * string)) (key : string)
  : result string :=
  match dict_get key params with
  | Some v => Ok v
  | None => Raise KeyError
  end.

(** Lines 228-235: the two settings with a default. *)
Definition polling_interval_of (params : list (string * string)) : Z :=
  match (let* v := config_get params "pollinginterval" in Py.int v) with
  | Ok n => n
  | Raise _ => 60
  end.

Definition ignore_solar_of (params : list (string * string)) : bool :=
  match config_get params "ignoresolar" with
  | Ok v => negb (String.eqb v EmptyString)
  | Raise _ => false
  end.

(** [start] (lines 213-244). *)
Definition start (w : HttpWorld) (config : custom_params) : Hub unit :=
  emit (LogInfo "Started Autelis Nodeserver...") ;;;
  match (let* customParams :=
           match config with Some p => Ok p | None => Raise KeyError end in
         let* ip := config_get customParams "ipaddress" in
         let* username := config_get customParams "username" in
         let* password := config_get customParams "password" in
         Ok (customParams, mkAutelisInterface ip username password)) with
  | Raise e =>
      emit (Net (Log ERROR "Missing controller settings in configuration.")) ;;;
      lift (Raise e)
  | Ok (customParams, interface) =>
      modify (fun c =>
                mkController (self_ref c) (objects c) (nodes c) (Some interface)
                  (polling_interval_of customParams)
                  (ignore_solar_of customParams) (currentTempUnit c)) ;;;
      discover_nodes w
  end.

(** [Controller.query] (lines 269-276). *)
Definition Controller_query (w : HttpWorld) : Hub unit :=
  update_node_states w false ;;;
  (fun c => for_each (fun addr => emit (ReportDrivers addr)) (map fst (nodes c)) c).

(** [Equipment.query] and [TempControl.query] (lines 39-42 and 155-157),
    for the node of this address. *)
Definition Node_query (w : HttpWorld) (addr : string) : Hub unit :=
  update_node_states w false ;;;
  emit (ReportDrivers addr).

(** ** Vocabulary of the statements *)

Definition CRLF : string := String Py.CR (String Py.LF EmptyString).

(** The named tokens of the two translators. *)
Definition command_table : list (string * string) :=
  [ ("AIRTMP", "airtemp"); ("SPATMP", "spatemp"); ("SOLHT", "solarht");
    ("SOLTMP", "solartemp"); ("WFALL", "waterfall"); ("CLEAN", "cleaner");
    ("OPTIONS", "dip"); ("UNITS", "tempunits"); ("POOLTMP", "pooltemp");
    ("POOLTMP2", "pooltemp") ].

Definition value_table : list (string * string) :=
  [ ("AUTO", "0"); ("SERVICE", "1"); ("TIMEOUT", "2"); ("TRUE", "1");
    ("FALSE", "0"); ("T", "1"); ("F", "0"); ("ON", "1"); ("OFF", "0");
    ("HEATER", "1"); ("SOLPREF", "2"); ("SOLAR", "3") ].

Fixpoint all_chars (p : ascii -> bool) (s : string) : bool :=
  match s with
  | EmptyString => true
  | String c s' => (p c && all_chars p s')%bool
  end.

(** The value of a string of decimal digits read after [acc]. *)
Fixpoint dec_value (acc : Z) (ds : string) : Z :=
  match ds with
  | EmptyString => acc
  | String c ds' => dec_value (10 * acc + Py.digit_val c) ds'
  end.

(** A non-empty string of decimal digits. *)
Definition is_number (ds : string) : bool :=
  (negb (String.eqb ds EmptyString) && all_chars Py.is_digit ds)%bool.

(** A token of the status pattern: [A-Z0-9]+ *)
Definition token_ascii (c : ascii) : bool := (Py.is_upper c || Py.is_digit c)%bool.

Definition is_token (s : string) : bool :=
  (negb (String.eqb s EmptyString) && all_chars token_ascii s)%bool.

(** A status line: [!00 <cmd>=<val><suffix>\r\n], the suffix being the
    optional blank and unit letter. *)
Definition status_line (cmd val suffix : string) : string :=
  "!00 " ++ cmd ++ "=" ++ val ++ suffix ++ CRLF.

Definition unit_suffixes : list string := [ EmptyString; " "; " F"; " C" ].

(** The end of the status pattern, after the second group. *)
Definition status_tail : Re.regex :=
  Re.seqs [ Re.Opt (Re.lit " "); Re.Opt (Re.Class unit_char);
            Re.lit Py.CR; Re.lit Py.LF ].


(** The events handed to the callback, and the closings of the socket. *)
Fixpoint callbacks (t : trace) : list (string * string) :=
  match t with
  | [] => []
  | Callback e v :: t' => (e, v) :: callbacks t'
  | _ :: t' => callbacks t'
  end.

Fixpoint closes (t : trace) : nat :=
  match t with
  | [] => O
  | Close :: t' => S (closes t')
  | _ :: t' => closes t'
  end.

Fixpoint http_gets (t : trace) : list request :=
  match t with
  | [] => []
  | HttpGet r :: t' => r :: http_gets t'
  | _ :: t' => http_gets t'
  end.

Definition http_error_status (r : response) : Prop :=
  400 <= status_code r < 600.

Definition node_with (addr : string) (st clisph climd clihcs clispc : Z) : node :=
  mkNode addr
    [ mkDriver "ST" st _ISY_TEMP_F_UOM;
      mkDriver "CLISPH" clisph _ISY_TEMP_F_UOM;
      mkDriver "CLIMD" climd _ISY_THERMO_MODE_UOM;
      mkDriver "CLIHCS" clihcs _ISY_THERMO_HCS_UOM;
      mkDriver "CLISPC" clispc _ISY_TEMP_F_UOM ].

(** A node that carries the two thermostat drivers. *)
Definition thermostat (n : node) : Prop :=
  getDriver n "CLIMD" <> None /\ getDriver n "CLIHCS" <> None.

(** Sample environments for the HTTP client. *)
Definition sample_interface : AutelisInterface :=
  mkAutelisInterface "192.168.1.20" "admin" "secret".

Definition failing_world (e : exn) : HttpWorld :=
  mkHttpWorld (fun _ => Raise e) (fun _ => Raise XMLParseError).

Definition answering_world (code : Z) (parsed : result Element) : HttpWorld :=
  mkHttpWorld (fun rq => Ok (mkResponse code "<body/>" (req_url rq)))
              (fun _ => parsed).

(** The code stored in CLIMD for a heater setting. *)
Definition climd_of (setting : Z) : Z :=
  if setting =? 1 then 1 else if setting =? 2 then 3
  else if setting =? 3 then 4 else 0.

Definition with_mode (n : node) (setting : Z) (report : bool) : node :=
  setDriver n "CLIMD" (climd_of setting) report.

(** The code points of an ASCII text. *)
Definition cps (s : string) : list N :=
  map Utf8.byte_val (list_ascii_of_string s).

Definition ascii_char (c : ascii) : bool := N.ltb (N_of_ascii c) 128.

Definition ascii_only (s : string) : bool := all_chars ascii_char s.

Definition debug_update : effect :=
  Log DEBUG "Status update message received from Pool Controller: Command %s, Value %s".

Definition warn_unhandled : effect :=
  Log WARNING "Unhandled status update from Pool Controller - %s".


(** What one delivered update leaves in the trace. *)
Definition delivery (callback : handler) (element text : string) : trace :=
  debug_update :: Callback element text ::
  (if callback element text then [] else [warn_unhandled]).

Definition accept_all : handler := fun _ _ => true.

Definition always_sent : nat -> result unit := fun _ => Ok tt.

(** The byte 0xFF, which no UTF-8 text contains. *)
Definition byte_ff : string := String (ascii_of_nat 255) EmptyString.

(** Sample thermostat nodes. *)
Definition sample_spa : node := node_with "spaht" 101 104 0 0 0.

Definition sample_pool : node := node_with "poolht" 82 84 0 0 0.

(** Two status lines in the payload of one read. *)
Definition two_lines : string :=
  status_line "CIR1" "1" EmptyString ++ status_line "CIR2" "0" EmptyString.

(** Sample sockets: a status line that arrives in two reads; an idle
    timeout whose test message is answered by no bytes at all; an idle
    timeout whose test message is answered by a byte that is not UTF-8. *)
Definition split_line_socket : Socket :=
  mkSocket (Ok tt) [Ok "!00 POOL"; Ok ("TMP=78 F" ++ CRLF)] always_sent.

Definition empty_reply_socket : Socket :=
  mkSocket (Ok tt) [Raise SocketTimeout; Ok EmptyString] always_sent.

Definition garbled_reply_socket : Socket :=
  mkSocket (Ok tt) [Raise SocketTimeout; Ok byte_ff] always_sent.


(** The payloads written to the socket, and the idle timeouts of a script. *)
Fixpoint sends (t : trace) : list string :=
  match t with
  | [] => []
  | Send d :: t' => d :: sends t'
  | _ :: t' => sends t'
  end.

Fixpoint timeouts (rs : list (result string)) : nat :=
  match rs with
  | [] => O
  | Raise SocketTimeout :: rs' => S (timeouts rs')
  | _ :: rs' => timeouts rs'
  end.

Definition is_lower (c : ascii) : bool :=
  let n := nat_of_ascii c in (Nat.leb 97 n && Nat.leb n 122)%bool.

(** Lower-case letters and digits only. *)
Definition lower_alnum (s : string) : bool :=
  all_chars (fun c => (is_lower c || Py.is_digit c)%bool) s.

(** A pattern without groups. *)
Fixpoint group_free (r : Re.regex) : bool :=
  match r with
  | Re.Group _ => false
  | Re.Opt r' => group_free r'
  | Re.Seq r1 r2 => (group_free r1 && group_free r2)%bool
  | _ => true
  end.

(** The event a status line stands for, and the lines the callback
    receives whole. *)
Definition line_parts : Type := (string * string * string)%type.

Definition line_bytes (l : line_parts) : string :=
  match l with (c, v, sfx) => status_line c v sfx end.

Definition line_event (l : line_parts) : string * string :=
  match l with
  | (c, v, _) =>
      (match cmd_to_element c with Ok e => e | Raise _ => EmptyString end,
       val_to_text v)
  end.

Definition deliverable (l : line_parts) : Prop :=
  match l with
  | (c, v, sfx) =>
      is_token c = true /\ is_token v = true /\ In sfx unit_suffixes /\
      exists e, cmd_to_element c = Ok e
  end.

(** An event the translators produce from two tokens of the pattern. *)
Definition translated (ev : string * string) : Prop :=
  exists c v, is_token c = true /\ is_token v = true /\
              cmd_to_element c = Ok (fst ev) /\ snd ev = val_to_text v.

Definition is_warning (e : effect) : bool :=
  match e with Log WARNING _ => true | _ => false end.

(** What a run of the listener leaves behind: either the socket was never
    closed and the listener is still in its loop or has raised, or closing
    the socket was the last thing it did before it returned False or
    raised. *)
Definition settled (r : trace * outcome) : Prop :=
  (closes (fst r) = O /\ (snd r = Listening \/ exists e, snd r = Raised e)) \/
  (exists t', fst r = (t' ++ [Close])%list /\ closes t' = O /\
              (snd r = Returned false \/ exists e, snd r = Raised e)).

(** The exceptions the listener lets escape with the socket still open:
    those of its own decoding and translating, and those of the callback. *)
Definition escapes_open (cb : option raising_handler) (r : trace * outcome) : Prop :=
  forall e, snd r = Raised e -> closes (fst r) = O ->
    e = UnicodeDecodeError \/
    (cb <> None /\ e = ValueError) \/
    (exists callback element value,
        cb = Some callback /\ callback element value = Raise e).

(** A callback that returns, as one that may raise. *)
Definition returning (callback : handler) : raising_handler :=
  fun element value => Ok (callback element value).

(** A callback that fails on every event, and a socket with one update. *)
Definition failing_callback : raising_handler := fun _ _ => Raise KeyError.

Definition one_line_socket : Socket :=
  mkSocket (Ok tt) [Ok ("!00 OPMODE=AUTO" ++ CRLF)] always_sent.

(** Only test messages are written, at most one for each idle timeout. *)
Definition probes_only (rs : list (result string)) (r : trace * outcome) : Prop :=
  Forall (eq _TEST_TCP_MSG) (sends (fst r)) /\
  (length (sends (fst r)) <= timeouts rs)%nat.


(** A command handler of a node, and what it may do to the node. *)
Definition node_handler : Type :=
  HttpWorld -> option AutelisInterface -> node -> trace * result node.

Definition sample_equipment : node := mkNode "circuit3" Equipment_drivers.

(** What a method of the controller leaves alone. *)
Definition same_class (o o' : nodeobj) : Prop :=
  match o, o' with
  | ControllerObj _, ControllerObj _ => True
  | TempControlObj _ _, TempControlObj _ _ => True
  | EquipmentObj _, EquipmentObj _ => True
  | _, _ => False
  end.

(** The same object with the same drivers, whatever their values. *)
Definition obj_shape (o o' : nodeobj) : Prop :=
  same_class o o' /\
  address (obj_node o') = address (obj_node o) /\
  map d_name (drivers (obj_node o')) = map d_name (drivers (obj_node o)).

(** ... and with the same values, whatever their units. *)
Definition obj_values (o o' : nodeobj) : Prop :=
  obj_shape o o' /\
  map d_value (drivers (obj_node o')) = map d_value (drivers (obj_node o)).

Definition same_frame (c c' : Controller) : Prop :=
  self_ref c' = self_ref c /\ nodes c' = nodes c /\ autelis c' = autelis c /\
  pollingInterval c' = pollingInterval c /\ ignoresolar c' = ignoresolar c.

Definition same_shape (c c' : Controller) : Prop :=
  same_frame c c' /\ Forall2 obj_shape (objects c) (objects c').

Definition same_values (c c' : Controller) : Prop :=
  same_frame c c' /\ Forall2 obj_values (objects c) (objects c').

(** A method that relates the controller before and after, however it ends. *)
Definition keeps {A : Type} (R : Controller -> Controller -> Prop) (m : Hub A) : Prop :=
  forall c, R c (snd (fst (m c))).

(** The value of a driver of an object of the store. *)
Definition obj_driver (c : Controller) (ref : nat) (name : string) : option Z :=
  match nth_error (objects c) ref with
  | Some o => getDriver (obj_node o) name
  | None => None
  end.

Definition self_driver (c : Controller) (name : string) : option Z :=
  obj_driver c (self_ref c) name.

(** The nodes a method asks the framework to add. *)
Fixpoint added_nodes (t : list hub_effect) : list (string * string) :=
  match t with
  | [] => []
  | AddNode class _ addr _ _ :: t' => (class, addr) :: added_nodes t'
  | _ :: t' => added_nodes t'
  end.

Fixpoint hub_gets (t : list hub_effect) : list request :=
  match t with
  | [] => []
  | Net (HttpGet r) :: t' => r :: hub_gets t'
  | _ :: t' => hub_gets t'
  end.

(** Where [update_node_states] takes the drivers of the controller from. *)
Definition controller_fields : list (string * string * string) :=
  [ ("GV0", "system", "runstate"); ("GV1", "system", "opmode");
    ("GV2", "system", "freeze"); ("GV3", "system", "sensor1");
    ("GV4", "system", "sensor2"); ("GV5", "system", "sensor3");
    ("CLITEMP", "temp", "airtemp"); ("GV9", "temp", "soltemp") ].

(** A sample controller: itself, the two thermostats and one circuit. *)
Definition sample_controller : Controller :=
  mkController 0
    [ ControllerObj (mkNode "controller" Controller_drivers);
      TempControlObj "TEMP_CONTROL" (mkNode "poolht" TempControl_drivers);
      TempControlObj "TEMP_CONTROL" (mkNode "spaht" TempControl_drivers);
      EquipmentObj (mkNode "circuit1" Equipment_drivers) ]
    [ ("controller", 0%nat); ("poolht", 1%nat); ("spaht", 2%nat); ("circuit1", 3%nat) ]
    (Some sample_interface) 60 false (Some "F").

Definition leaf (name value : string) : Element := Elem name (Some value) [].

Definition sample_status : Element :=
  Elem "response" None
    [ Elem "system" None
        [ leaf "runstate" "50"; leaf "opmode" "0"; leaf "freeze" "0";
          leaf "sensor1" "0"; leaf "sensor2" "0"; leaf "sensor3" "0" ];
      Elem "equipment" None
        [ leaf "circuit1" "1"; leaf "circuit2" "0"; Elem "circuit3" None [] ];
      Elem "temp" None
        [ leaf "poolht" "2"; leaf "spaht" "1"; leaf "htstatus" "6";
          leaf "poolsp" "84"; leaf "spasp" "102"; leaf "pooltemp" "80";
          leaf "spatemp" "99"; leaf "airtemp" "75"; leaf "soltemp" "110";
          leaf "tempunits" "F" ] ].

Definition sample_world : HttpWorld :=
  mkHttpWorld (fun rq => Ok (mkResponse 200 "<response/>" (req_url rq)))
              (fun _ => Ok sample_status).

(** The method ends normally, with this controller and this result. *)
Definition runs {A : Type} (m : Hub A) (c c' : Controller) (a : A) : Prop :=
  exists t, m c = (t, c', Ok a).

(** A method that leaves the driver [name] of every object as it is. *)
Definition keeps_driver (name : string) (c c' : Controller) : Prop :=
  self_ref c' = self_ref c /\ nodes c' = nodes c /\
  forall ref, obj_driver c' ref name = obj_driver c ref name.

(** The fields of the status document a thermostat is updated from. *)
Definition thermostat_fields (addr : string) : string * string :=
  if String.eqb addr "poolht" then ("poolht", "poolsp") else ("spaht", "spasp").

(** The heat/cool status a thermostat of this address derives. *)
Definition hcs_of (addr : string) (htstatus : Z) : heat_cool_status :=
  if String.eqb addr "spaht"
  then (if Z.testbit htstatus 1 then Heating
        else if Z.testbit htstatus 3 then AuxHeating else Idle)
  else (if Z.testbit htstatus 0 then Heating
        else if Z.testbit htstatus 2 then AuxHeating else Idle).

(** Every driver of every other object is as before. *)
Definition keeps_others (ref : nat) (c c' : Controller) : Prop :=
  forall ref' name, ref' <> ref -> obj_driver c' ref' name = obj_driver c ref' name.

Definition keeps_addresses (c c' : Controller) : Prop :=
  forall ref, obj_address c' ref = obj_address c ref.

(** What the parts of a status update that do not concern a thermostat
    leave alone: the objects, their addresses, and the three drivers a
    thermostat derives. *)
Definition keeps_thermostats (c c' : Controller) : Prop :=
  same_shape c c' /\
  keeps_driver "CLISPH" c c' /\ keeps_driver "CLIMD" c c' /\
  keeps_driver "CLIHCS" c c'.

Definition has_text (e : Element) : bool :=
  match XML.text e with Some _ => true | None => false end.

(** The nodes [discover_nodes] asks for, for this equipment. *)
Definition expected_nodes (equipment : Element) : list (string * string) :=
  ([("TempControl", "poolht"); ("TempControl", "spaht")]
   ++ map (fun e => ("Equipment", tag e))
          (filter has_text (XML.children equipment)))%list.

Definition sample_params : list (string * string) :=
  [ ("ipaddress", "10.0.0.2"); ("username", "u"); ("password", "p");
    ("ignoresolar", "false"); ("pollinginterval", "30s") ].

(** The interface [start] builds from the configuration, when the three
    settings it needs are there. *)
Definition configured_interface (config : custom_params)
  : option AutelisInterface :=
  match config with
  | Some p =>
      match dict_get "ipaddress" p, dict_get "username" p, dict_get "password" p with
      | Some ip, Some username, Some password =>
          Some (mkAutelisInterface ip username password)
      | _, _, _ => None
      end
  | None => None
  end.

(** The addresses a method asks the framework to report the drivers of. *)
Fixpoint reported (t : list hub_effect) : list string :=
  match t with
  | [] => []
  | ReportDrivers addr :: t' => addr :: reported t'
  | _ :: t' => reported t'
  end.

(** A thermostat the loop of [change_temp_units] relabels. *)
Definition managed (o : nodeobj) : bool :=
  match o with
  | TempControlObj id _ => name_in ["TEMP_CONTROL"; "TEMP_CONTROL_C"] id
  | _ => false
  end.

(** The object [ref] is the value of one of these keys of [self.nodes]. *)
Definition touched (c : Controller) (l : list string) (ref : nat) : bool :=
  existsb (fun addr => match dict_get addr (nodes c) with
                       | Some r => Nat.eqb r ref
                       | None => false
                       end) l.





(** The nodes a method asks the framework to update, in order. *)
Fixpoint updated (t : list hub_effect) : list string :=
  match t with
  | [] => []
  | UpdateNode addr :: t' => addr :: updated t'
  | _ :: t' => updated t'
  end.

(** Effects that are neither a request nor a call for a new node or a
    report of drivers ... *)
Definition calm (e : hub_effect) : Prop :=
  match e with
  | Net (HttpGet _) | AddNode _ _ _ _ _ | ReportDrivers _ => False
  | _ => True
  end.

(** ... nor a call for the update of a node. *)
Definition quiet (e : hub_effect) : Prop :=
  match e with
  | UpdateNode _ => False
  | _ => calm e
  end.

(** Every effect of the method is of this kind, however it ends. *)
Definition says {A : Type} (P : hub_effect -> Prop) (m : Hub A) : Prop :=
  forall c, Forall P (fst (fst (m c))).

(** The sources of the ST drivers in a status document, in the order in
    which [update_node_states] goes through them: the key of [self.nodes]
    and the integer read for it. *)
Definition st_writes (x : Element) : list (string * result Z) :=
  ([ ("poolht", find_int (XML.find x "temp") "pooltemp");
     ("spaht", find_int (XML.find x "temp") "spatemp") ]
   ++ match XML.find x "equipment" with
      | Some equipment =>
          map (fun e => (tag e, int_of_value (XML.text e))) (XML.children equipment)
      | None => []
      end)%list.

(** The ST drivers of the store after one source has been written. *)
Definition st_write (d : list (string * nat)) (st : nat -> option Z)
  (source : string * result Z) : nat -> option Z :=
  match dict_get (fst source) d, snd source with
  | Some ref', Ok v =>
      fun ref => if Nat.eqb ref' ref then option_map (fun _ => v) (st ref)
                 else st ref
  | _, _ => st
  end.

(** A source that names a node holds an integer. *)
Definition source_ok (d : list (string * nat)) (source : string * result Z) : Prop :=
  dict_get (fst source) d <> None -> exists v, snd source = Ok v.

(** ** Proof tactics *)

Ltac eqb_cases v :=
  repeat match goal with
  | |- context [String.eqb v ?s] =>
      destruct (String.eqb_spec v s) as [->|?]
  end.

Ltac http_cases :=
  repeat match goal with
  | H : requests_get _ _ = _ |- _ => rewrite H; clear H
  | H : fromstring _ _ = _ |- _ => rewrite H; clear H
  end; simpl.

(** * Properties *)

(** ** The translators *)

Example cmd_cir41 : cmd_to_element "CIR41" = Ok "feature1".
Proof. reflexivity. Qed.
Example cmd_cir50 : cmd_to_element "CIR50" = Ok "feature10".
Proof. reflexivity. Qed.
Example cmd_cir7 : cmd_to_element "CIR7" = Ok "circuit7".
Proof. reflexivity. Qed.
Example cmd_pump : cmd_to_element "PUMPLO" = Ok "pumplo".
Proof. reflexivity. Qed.

Lemma val_to_text_in_table :
  forall k t, In (k, t) value_table -> val_to_text k = t.
Proof.
  intros k t H. simpl in H.
  repeat (destruct H as [H|H]; [inversion H; subst; reflexivity|]).
  contradiction.
Qed.

Lemma val_to_text_other :
  forall v, ~ In v (map fst value_table) -> val_to_text v = v.
Proof.
  intros v H. unfold val_to_text.
  eqb_cases v; try reflexivity; exfalso; apply H; simpl; tauto.
Qed.

(** C7: [val_to_text] is a total function of the token.  It sends AUTO to
    "0", SERVICE to "1", TIMEOUT to "2", each of TRUE, T, ON and HEATER to
    "1", each of FALSE, F and OFF to "0", SOLPREF to "2" and SOLAR to "3";
    every token that is none of these twelve is returned unchanged. *)
Theorem val_to_text_total_table :
  val_to_text "AUTO" = "0" /\ val_to_text "SERVICE" = "1" /\
  val_to_text "TIMEOUT" = "2" /\
  val_to_text "TRUE" = "1" /\ val_to_text "T" = "1" /\
  val_to_text "ON" = "1" /\ val_to_text "HEATER" = "1" /\
  val_to_text "FALSE" = "0" /\ val_to_text "F" = "0" /\
  val_to_text "OFF" = "0" /\
  val_to_text "SOLPREF" = "2" /\ val_to_text "SOLAR" = "3" /\
  (forall v : string,
      ~ In v ["AUTO"; "SERVICE"; "TIMEOUT"; "TRUE"; "FALSE"; "T"; "F";
              "ON"; "OFF"; "HEATER"; "SOLPREF"; "SOLAR"] ->
      val_to_text v = v).
Proof.
  repeat (split; [reflexivity|]).
  exact val_to_text_other.
Qed.

Lemma val_to_text_total_table_witness :
  val_to_text "78" = "78" /\ val_to_text "PARTY" = "PARTY".
Proof.
  destruct val_to_text_total_table as
    (_ & _ & _ & _ & _ & _ & _ & _ & _ & _ & _ & _ & H).
  split; apply H; simpl; intuition discriminate.
Defined.

Lemma cmd_to_element_in_table :
  forall k e, In (k, e) command_table -> cmd_to_element k = Ok e.
Proof.
  intros k e H. simpl in H.
  repeat (destruct H as [H|H]; [inversion H; subst; reflexivity|]).
  contradiction.
Qed.

Lemma cmd_to_element_other :
  forall cmd,
    Py.take 3 cmd <> "CIR" ->
    ~ In cmd (map fst command_table) ->
    cmd_to_element cmd = Ok (Py.lower cmd).
Proof.
  intros cmd Hcir Htab. unfold cmd_to_element.
  destruct (String.eqb_spec (Py.take 3 cmd) "CIR") as [E|_]; [contradiction|].
  eqb_cases cmd; try reflexivity; exfalso; apply Htab; simpl; tauto.
Qed.

Lemma int_digits_number :
  forall ds acc,
    all_chars Py.is_digit ds = true ->
    Py.int_digits acc ds = Some (dec_value acc ds).
Proof.
  induction ds as [|c ds IH]; intros acc H; simpl in *.
  - reflexivity.
  - apply andb_true_iff in H. destruct H as [Hc Hds].
    rewrite Hc. apply IH. exact Hds.
Qed.

Lemma int_number :
  forall ds, is_number ds = true -> Py.int ds = Ok (dec_value 0 ds).
Proof.
  intros [|c ds] H; [discriminate|].
  unfold is_number in H. simpl in H.
  apply andb_true_iff in H. destruct H as [Hc Hds].
  unfold Py.int.
  destruct c as [[] [] [] [] [] [] [] []]; try discriminate Hc;
    simpl; rewrite (int_digits_number _ _ Hds); reflexivity.
Qed.

(** A circuit token with a plain decimal number: CIR41..CIR50 are the
    features 1..10, every other number keeps its digits. *)
Lemma cmd_to_element_circuit :
  forall ds,
    is_number ds = true ->
    cmd_to_element ("CIR" ++ ds) =
      Ok (if (41 <=? dec_value 0 ds) && (dec_value 0 ds <=? 50)
          then "feature" ++ Py.str (dec_value 0 ds - 40)
          else "circuit" ++ ds).
Proof.
  intros ds H. unfold cmd_to_element.
  change (Py.take 3 ("CIR" ++ ds)) with "CIR".
  change (Py.drop 3 ("CIR" ++ ds)) with ds.
  rewrite String.eqb_refl, (int_number _ H). simpl.
  destruct ((41 <=? dec_value 0 ds) && (dec_value 0 ds <=? 50)); reflexivity.
Qed.

Lemma cmd_to_element_features :
  map cmd_to_element
      ["CIR41"; "CIR42"; "CIR43"; "CIR44"; "CIR45";
       "CIR46"; "CIR47"; "CIR48"; "CIR49"; "CIR50"]
  = map Ok
      ["feature1"; "feature2"; "feature3"; "feature4"; "feature5";
       "feature6"; "feature7"; "feature8"; "feature9"; "feature10"].
Proof. reflexivity. Qed.

Example int_literals :
  map Py.int [" 41 "; "4_1"; "+41"; "-5"; "007"]
    = [Ok 41; Ok 41; Ok 41; Ok (-5); Ok 7] /\
  map Py.int [EmptyString; "X"; "1__2"; "_1"; "1_"; "+ 1"]
    = [Raise ValueError; Raise ValueError; Raise ValueError;
       Raise ValueError; Raise ValueError; Raise ValueError].
Proof. split; reflexivity. Qed.

(** C2: [cmd_to_element] is not total.  A token that starts with CIR and
    does not go on with an integer literal (CIRX, or CIR alone) makes
    [int(cmd[3:])] raise ValueError; the token is not mapped to its
    lower-cased copy. *)
Theorem cmd_to_element_raises_on_malformed_circuit :
  cmd_to_element "CIRX" = Raise ValueError /\
  cmd_to_element "CIR" = Raise ValueError /\
  (forall e, cmd_to_element "CIRX" <> Ok e).
Proof.
  repeat split; try reflexivity. intros e H. discriminate H.
Qed.

(** ** The HTTP client *)

Lemma raise_for_status_error :
  forall r, http_error_status r -> raise_for_status r = Raise RequestsHTTPError.
Proof.
  intros r [H1 H2]. unfold raise_for_status.
  apply Z.leb_le in H1. apply Z.ltb_lt in H2. rewrite H1, H2. reflexivity.
Qed.

Lemma raise_for_status_ok :
  forall r, ~ http_error_status r -> raise_for_status r = Ok tt.
Proof.
  intros r H. unfold raise_for_status, http_error_status in *.
  destruct (400 <=? status_code r) eqn:E1; [|reflexivity].
  destruct (status_code r <? 600) eqn:E2; [|reflexivity].
  apply Z.leb_le in E1. apply Z.ltb_lt in E2. exfalso. apply H. lia.
Qed.

Lemma not_transient :
  forall e,
    e <> RequestsTimeout -> e <> RequestsConnectionError ->
    e <> RequestsHTTPError -> is_transient e = false.
Proof. intros [] ? ? ?; simpl; congruence. Qed.

(** C3: [get_status] returns None, and does not raise, when the GET times
    out, cannot connect or comes back with an HTTP error status, and also
    when the body parses to a root element whose tag is not "response".
    Every other exception, of the request or of the parser, is raised again
    to the caller. *)
Theorem get_status_absent_or_propagates :
  forall (w : HttpWorld) (self : AutelisInterface),
    let rq := status_request self in
    let out := snd (get_status w self) in
    (forall e, requests_get w rq = Raise e ->
       e = RequestsTimeout \/ e = RequestsConnectionError \/ e = RequestsHTTPError ->
       out = Ok None) /\
    (forall r, requests_get w rq = Ok r -> http_error_status r -> out = Ok None) /\
    (forall r x, requests_get w rq = Ok r -> ~ http_error_status r ->
       fromstring w (resp_text r) = Ok x -> tag x <> "response" ->
       out = Ok None) /\
    (forall e, requests_get w rq = Raise e ->
       e <> RequestsTimeout -> e <> RequestsConnectionError ->
       e <> RequestsHTTPError ->
       out = Raise e) /\
    (forall r e, requests_get w rq = Ok r -> ~ http_error_status r ->
       fromstring w (resp_text r) = Raise e ->
       out = Raise e).
Proof.
  intros w self rq out. subst out. unfold get_status. fold rq.
  repeat split.
  - intros e H [->| [->| ->]]; http_cases; reflexivity.
  - intros r H He. http_cases. rewrite (raise_for_status_error _ He). reflexivity.
  - intros r x H He Hx Ht. http_cases. rewrite (raise_for_status_ok _ He). simpl.
    rewrite Hx. destruct (String.eqb_spec (tag x) "response"); [contradiction|reflexivity].
  - intros e H H1 H2 H3. http_cases. rewrite (not_transient e H1 H2 H3). reflexivity.
  - intros r e H He Hx. http_cases. rewrite (raise_for_status_ok _ He). simpl.
    rewrite Hx. reflexivity.
Qed.

Lemma get_status_absent_or_propagates_witness :
  snd (get_status (failing_world RequestsTimeout) sample_interface) = Ok None /\
  snd (get_status (answering_world 503 (Raise XMLParseError)) sample_interface) = Ok None /\
  snd (get_status (answering_world 200 (Ok (Elem "html" None []))) sample_interface) = Ok None /\
  snd (get_status (failing_world (OtherError "MemoryError")) sample_interface)
    = Raise (OtherError "MemoryError") /\
  snd (get_status (answering_world 200 (Raise XMLParseError)) sample_interface)
    = Raise XMLParseError.
Proof.
  split; [|split; [|split; [|split]]].
  - apply (proj1 (get_status_absent_or_propagates
                    (failing_world RequestsTimeout) sample_interface)
             RequestsTimeout); [reflexivity | left; reflexivity].
  - destruct (get_status_absent_or_propagates
                (answering_world 503 (Raise XMLParseError)) sample_interface)
      as (_ & H & _).
    eapply H; [reflexivity | unfold http_error_status; simpl; lia].
  - destruct (get_status_absent_or_propagates
                (answering_world 200 (Ok (Elem "html" None []))) sample_interface)
      as (_ & _ & H & _).
    eapply H; [reflexivity | unfold http_error_status; simpl; lia
              | reflexivity | simpl; discriminate].
  - destruct (get_status_absent_or_propagates
                (failing_world (OtherError "MemoryError")) sample_interface)
      as (_ & _ & _ & H & _).
    apply H; [reflexivity | discriminate | discriminate | discriminate].
  - destruct (get_status_absent_or_propagates
                (answering_world 200 (Raise XMLParseError)) sample_interface)
      as (_ & _ & _ & _ & H).
    eapply H; [reflexivity | unfold http_error_status; simpl; lia | reflexivity].
Defined.

Lemma get_status_success :
  forall w self r x,
    requests_get w (status_request self) = Ok r ->
    ~ http_error_status r ->
    fromstring w (resp_text r) = Ok x ->
    tag x = "response" ->
    get_status w self =
      ([Log DEBUG "In get_status()..."; HttpGet (status_request self)], Ok (Some x)).
Proof.
  intros w self r x H He Hx Ht. unfold get_status.
  rewrite H. simpl. rewrite (raise_for_status_ok _ He). simpl.
  rewrite Hx, Ht. reflexivity.
Qed.

Lemma send_command_one_get :
  forall w self element label value,
    http_gets (fst (send_command w self element label value))
    = [command_request self element label value].
Proof.
  intros. unfold send_command.
  destruct (requests_get w _) as [r|e]; simpl.
  - destruct (raise_for_status r) as [u|e]; simpl; [reflexivity|].
    destruct (is_transient e); reflexivity.
  - destruct (is_transient e); reflexivity.
Qed.

(** C6: [send_command] issues one GET, with the credentials of the
    interface, to [http://<host>/set.cgi?name=<element>&<label>=<value>],
    the value written as a decimal integer; it returns True when the
    request succeeds, False when it times out, cannot connect or comes back
    with an HTTP error status, and raises every other exception again.  The
    wrappers: [on] and [off] use the label "value" with 1 and 0, [set_temp]
    the label "temp", [set_heat_setting] the label "hval". *)
Theorem send_command_result_and_wrappers :
  forall (w : HttpWorld) (self : AutelisInterface)
         (element label : string) (value : Z),
    let rq := mkRequest ("http://" ++ controllerAddr self ++ "/set.cgi?name="
                         ++ element ++ "&" ++ label ++ "=" ++ Py.str value)
                        (_userName self, _password self) 3050 in
    let run := send_command w self element label value in
    http_gets (fst run) = [rq] /\
    (forall r, requests_get w rq = Ok r -> ~ http_error_status r ->
       snd run = Ok true) /\
    (forall e, requests_get w rq = Raise e ->
       e = RequestsTimeout \/ e = RequestsConnectionError \/ e = RequestsHTTPError ->
       snd run = Ok false) /\
    (forall r, requests_get w rq = Ok r -> http_error_status r ->
       snd run = Ok false) /\
    (forall e, requests_get w rq = Raise e ->
       e <> RequestsTimeout -> e <> RequestsConnectionError ->
       e <> RequestsHTTPError ->
       snd run = Raise e) /\
    on w self element = send_command w self element "value" 1 /\
    off w self element = send_command w self element "value" 0 /\
    set_temp w self element value = send_command w self element "temp" value /\
    set_heat_setting w self element value
      = send_command w self element "hval" value.
Proof.
  intros w self element label value rq run.
  assert (Hrq : command_request self element label value = rq) by reflexivity.
  split; [apply send_command_one_get|].
  subst run. unfold send_command. rewrite Hrq.
  repeat split.
  - intros r H He. http_cases. rewrite (raise_for_status_ok _ He). reflexivity.
  - intros e H [->| [->| ->]]; http_cases; reflexivity.
  - intros r H He. http_cases. rewrite (raise_for_status_error _ He). reflexivity.
  - intros e H H1 H2 H3. http_cases. rewrite (not_transient e H1 H2 H3). reflexivity.
Qed.

Lemma send_command_result_and_wrappers_witness :
  snd (send_command (answering_world 200 (Raise XMLParseError))
         sample_interface "circuit1" "value" 1) = Ok true /\
  snd (send_command (failing_world RequestsConnectionError)
         sample_interface "poolsp" "temp" 84) = Ok false /\
  snd (send_command (answering_world 401 (Raise XMLParseError))
         sample_interface "spaht" "hval" 2) = Ok false /\
  snd (send_command (failing_world (OtherError "KeyboardInterrupt"))
         sample_interface "circuit1" "value" 0)
    = Raise (OtherError "KeyboardInterrupt").
Proof.
  split; [|split; [|split]].
  - destruct (send_command_result_and_wrappers
                (answering_world 200 (Raise XMLParseError))
                sample_interface "circuit1" "value" 1) as (_ & H & _).
    eapply H; [reflexivity | unfold http_error_status; simpl; lia].
  - destruct (send_command_result_and_wrappers
                (failing_world RequestsConnectionError)
                sample_interface "poolsp" "temp" 84) as (_ & _ & H & _).
    eapply H; [reflexivity | right; left; reflexivity].
  - destruct (send_command_result_and_wrappers
                (answering_world 401 (Raise XMLParseError))
                sample_interface "spaht" "hval" 2) as (_ & _ & _ & H & _).
    eapply H; [reflexivity | unfold http_error_status; simpl; lia].
  - destruct (send_command_result_and_wrappers
                (failing_world (OtherError "KeyboardInterrupt"))
                sample_interface "circuit1" "value" 0) as (_ & _ & _ & _ & H & _).
    apply H; [reflexivity | discriminate | discriminate | discriminate].
Defined.

Example command_url :
  req_url (command_request sample_interface "poolsp" "temp" 84)
  = "http://192.168.1.20/set.cgi?name=poolsp&temp=84".
Proof. reflexivity. Qed.

(** ** The thermostat drivers *)

Lemma find_set_first_same :
  forall name v ds,
    find_driver name ds <> None ->
    find_driver name (set_first name v ds) = Some v.
Proof.
  induction ds as [|d ds IH]; simpl; intros H.
  - contradiction.
  - destruct (String.eqb_spec (d_name d) name) as [E|E]; simpl.
    + rewrite E, String.eqb_refl. reflexivity.
    + destruct (String.eqb_spec (d_name d) name); [contradiction|].
      apply IH. exact H.
Qed.

Lemma find_set_first_other :
  forall name name' v ds,
    name <> name' ->
    find_driver name' (set_first name v ds) = find_driver name' ds.
Proof.
  induction ds as [|d ds IH]; simpl; intros H.
  - reflexivity.
  - destruct (String.eqb_spec (d_name d) name) as [E|E]; simpl.
    + destruct (String.eqb_spec (d_name d) name') as [E'|E']; [congruence|reflexivity].
    + rewrite IH by assumption. reflexivity.
Qed.

Lemma getDriver_setDriver_same :
  forall n name v r,
    getDriver n name <> None -> getDriver (setDriver n name v r) name = Some v.
Proof. intros. apply find_set_first_same. assumption. Qed.

Lemma getDriver_setDriver_other :
  forall n name name' v r,
    name <> name' -> getDriver (setDriver n name v r) name' = getDriver n name'.
Proof. intros. apply find_set_first_other. assumption. Qed.

(** [x & 2^k] is non-zero exactly when bit [k] of [x] is set. *)
Lemma truthy_land_pow2 :
  forall x k, 0 <= k -> truthy (Z.land x (2 ^ k)) = Z.testbit x k.
Proof.
  intros x k Hk. unfold truthy.
  assert (E : Z.land x (2 ^ k) = if Z.testbit x k then 2 ^ k else 0).
  { apply Z.bits_inj'. intros i Hi.
    rewrite Z.land_spec, Z.pow2_bits_eqb by assumption.
    destruct (Z.eqb_spec k i) as [->|Hne].
    - destruct (Z.testbit x i); simpl.
      + rewrite Z.pow2_bits_eqb by assumption. symmetry. apply Z.eqb_refl.
      + rewrite Z.bits_0. reflexivity.
    - rewrite andb_false_r. destruct (Z.testbit x k).
      + rewrite Z.pow2_bits_eqb by assumption. symmetry. apply Z.eqb_neq. exact Hne.
      + rewrite Z.bits_0. reflexivity. }
  rewrite E. destruct (Z.testbit x k).
  - assert (0 < 2 ^ k) by (apply Z.pow_pos_nonneg; lia).
    destruct (Z.eqb_spec (2 ^ k) 0); [lia|reflexivity].
  - reflexivity.
Qed.

Lemma truthy_land_bits :
  forall x,
    truthy (Z.land x 1) = Z.testbit x 0 /\ truthy (Z.land x 2) = Z.testbit x 1 /\
    truthy (Z.land x 4) = Z.testbit x 2 /\ truthy (Z.land x 8) = Z.testbit x 3.
Proof.
  intros x. repeat split.
  - apply (truthy_land_pow2 x 0). lia.
  - apply (truthy_land_pow2 x 1). lia.
  - apply (truthy_land_pow2 x 2). lia.
  - apply (truthy_land_pow2 x 3). lia.
Qed.

Lemma update_thermo_drivers_unfold :
  forall n setting htstatus report,
    update_thermo_drivers n setting htstatus report =
    let m := with_mode n setting report in
    if String.eqb (address n) "spaht" then
      if Z.testbit htstatus 1 then setDriver m "CLIHCS" 1 report
      else if Z.testbit htstatus 3 then setDriver m "CLIHCS" 7 report
      else setDriver m "CLIHCS" 0 report
    else if String.eqb (address n) "poolht" then
      if Z.testbit htstatus 0 then setDriver m "CLIHCS" 1 report
      else if Z.testbit htstatus 2 then setDriver m "CLIHCS" 7 report
      else setDriver m "CLIHCS" 0 report
    else m.
Proof.
  intros n setting htstatus report.
  unfold update_thermo_drivers, with_mode, climd_of.
  destruct (truthy_land_bits htstatus) as (-> & -> & -> & ->).
  destruct (setting =? 1); [reflexivity|].
  destruct (setting =? 2); [reflexivity|].
  destruct (setting =? 3); reflexivity.
Qed.

Lemma climd_after_update :
  forall n setting htstatus report,
    thermostat n ->
    getDriver (update_thermo_drivers n setting htstatus report) "CLIMD"
    = Some (climd_of setting).
Proof.
  intros n setting htstatus report [Hmd _].
  rewrite update_thermo_drivers_unfold. cbv zeta.
  assert (Hm : getDriver (with_mode n setting report) "CLIMD" = Some (climd_of setting))
    by (apply getDriver_setDriver_same; exact Hmd).
  repeat match goal with
  | |- context [if ?b then _ else _] => destruct b
  end; try exact Hm;
  (rewrite getDriver_setDriver_other by discriminate; exact Hm).
Qed.

Lemma clihcs_after_update_spa :
  forall n setting htstatus report,
    thermostat n -> address n = "spaht" ->
    getDriver (update_thermo_drivers n setting htstatus report) "CLIHCS"
    = Some (hcs_code (if Z.testbit htstatus 1 then Heating
                      else if Z.testbit htstatus 3 then AuxHeating else Idle)).
Proof.
  intros n setting htstatus report [_ Hhcs] Ha.
  rewrite update_thermo_drivers_unfold. cbv zeta. rewrite Ha. simpl String.eqb.
  assert (Hm : getDriver (with_mode n setting report) "CLIHCS" <> None).
  { unfold with_mode. rewrite getDriver_setDriver_other by discriminate. exact Hhcs. }
  destruct (Z.testbit htstatus 1); [|destruct (Z.testbit htstatus 3)];
    apply getDriver_setDriver_same; exact Hm.
Qed.

Lemma clihcs_after_update_pool :
  forall n setting htstatus report,
    thermostat n -> address n = "poolht" ->
    getDriver (update_thermo_drivers n setting htstatus report) "CLIHCS"
    = Some (hcs_code (if Z.testbit htstatus 0 then Heating
                      else if Z.testbit htstatus 2 then AuxHeating else Idle)).
Proof.
  intros n setting htstatus report [_ Hhcs] Ha.
  rewrite update_thermo_drivers_unfold. cbv zeta. rewrite Ha. simpl String.eqb.
  assert (Hm : getDriver (with_mode n setting report) "CLIHCS" <> None).
  { unfold with_mode. rewrite getDriver_setDriver_other by discriminate. exact Hhcs. }
  destruct (Z.testbit htstatus 0); [|destruct (Z.testbit htstatus 2)];
    apply getDriver_setDriver_same; exact Hm.
Qed.

(** A thermostat node of another address keeps its heat/cool status. *)
Lemma clihcs_untouched_elsewhere :
  forall n setting htstatus report,
    address n <> "spaht" -> address n <> "poolht" ->
    getDriver (update_thermo_drivers n setting htstatus report) "CLIHCS"
    = getDriver n "CLIHCS".
Proof.
  intros n setting htstatus report H1 H2.
  rewrite update_thermo_drivers_unfold. cbv zeta.
  destruct (String.eqb_spec (address n) "spaht"); [contradiction|].
  destruct (String.eqb_spec (address n) "poolht"); [contradiction|].
  unfold with_mode. apply getDriver_setDriver_other. discriminate.
Qed.

Lemma climd_of_range :
  forall s, 0 <= s <= 3 ->
    (s = 0 /\ climd_of s = 0) \/ (s = 1 /\ climd_of s = 1) \/
    (s = 2 /\ climd_of s = 3) \/ (s = 3 /\ climd_of s = 4).
Proof.
  intros s H.
  assert (C : s = 0 \/ s = 1 \/ s = 2 \/ s = 3) by lia.
  destruct C as [->| [->| [->| ->]]]; cbv; tauto.
Qed.

(** C5: the thermostat mode stored for a heater setting is Off for 0, Heat
    for 1, Auto for 2 and AuxHeat for 3, a one-to-one map of the four
    settings onto the four modes.  The heat/cool status depends on the
    address of the node: for the spa heater, bit 0x02 of the heating status
    gives Heating, otherwise bit 0x08 gives AuxHeat, otherwise Idle; for the
    pool heater the bits are 0x01 and 0x04.  A heating status of 0 gives
    Idle for both, whatever the heater setting. *)
Theorem thermostat_mode_and_status :
  forall (n : node) (report : bool),
    thermostat n ->
    let mode s h := getDriver (update_thermo_drivers n s h report) "CLIMD" in
    let status s h := getDriver (update_thermo_drivers n s h report) "CLIHCS" in
    (forall h, mode 0 h = Some (mode_code Off) /\ mode 1 h = Some (mode_code Heat) /\
               mode 2 h = Some (mode_code Auto) /\ mode 3 h = Some (mode_code AuxHeat)) /\
    (forall h s1 s2, 0 <= s1 <= 3 -> 0 <= s2 <= 3 -> mode s1 h = mode s2 h -> s1 = s2) /\
    (forall h m, exists s, 0 <= s <= 3 /\ mode s h = Some (mode_code m)) /\
    (address n = "spaht" ->
       forall s h, status s h =
         Some (hcs_code (if Z.testbit h 1 then Heating
                         else if Z.testbit h 3 then AuxHeating else Idle))) /\
    (address n = "poolht" ->
       forall s h, status s h =
         Some (hcs_code (if Z.testbit h 0 then Heating
                         else if Z.testbit h 2 then AuxHeating else Idle))) /\
    (address n = "spaht" \/ address n = "poolht" ->
       forall s, status s 0 = Some (hcs_code Idle)).
Proof.
  intros n report Hn mode status. subst mode status. cbv beta.
  split; [|split; [|split; [|split; [|split]]]].
  - intros h. rewrite !climd_after_update by assumption. repeat split.
  - intros h s1 s2 H1 H2. rewrite !climd_after_update by assumption.
    intros E. injection E as E.
    destruct (climd_of_range s1 H1) as [[-> E1]| [[-> E1]| [[-> E1]| [-> E1]]]];
    destruct (climd_of_range s2 H2) as [[-> E2]| [[-> E2]| [[-> E2]| [-> E2]]]];
    rewrite ?E1, ?E2 in E; (reflexivity || discriminate E).
  - intros h m.
    exists (match m with Off => 0 | Heat => 1 | Auto => 2 | AuxHeat => 3 end).
    rewrite climd_after_update by assumption.
    destruct m; (split; [lia | reflexivity]).
  - intros Ha s h. apply clihcs_after_update_spa; assumption.
  - intros Ha s h. apply clihcs_after_update_pool; assumption.
  - intros [Ha|Ha] s.
    + rewrite clihcs_after_update_spa by assumption. reflexivity.
    + rewrite clihcs_after_update_pool by assumption. reflexivity.
Qed.

Lemma thermostat_mode_and_status_witness :
  getDriver (update_thermo_drivers sample_spa 2 8 true) "CLIMD"
    = Some (mode_code Auto) /\
  getDriver (update_thermo_drivers sample_spa 2 8 true) "CLIHCS"
    = Some (hcs_code AuxHeating) /\
  getDriver (update_thermo_drivers sample_pool 1 5 true) "CLIHCS"
    = Some (hcs_code Heating) /\
  getDriver (update_thermo_drivers sample_pool 3 0 true) "CLIHCS"
    = Some (hcs_code Idle).
Proof.
  assert (Hs : thermostat sample_spa) by (split; discriminate).
  assert (Hp : thermostat sample_pool) by (split; discriminate).
  destruct (thermostat_mode_and_status sample_spa true Hs) as (M & _ & _ & S & _ & _).
  destruct (thermostat_mode_and_status sample_pool true Hp) as (_ & _ & _ & _ & P & Z0).
  split; [|split; [|split]].
  - apply (M 8).
  - apply (S eq_refl 2 8).
  - apply (P eq_refl 1 5).
  - apply (Z0 (or_intror eq_refl) 3).
Defined.

(** ** Decoding and matching a status line *)

Lemma all_chars_app :
  forall p a b, all_chars p (a ++ b) = (all_chars p a && all_chars p b)%bool.
Proof.
  induction a as [|c a IH]; intros b; simpl.
  - reflexivity.
  - rewrite IH, andb_assoc. reflexivity.
Qed.

Lemma all_chars_impl :
  forall (p q : ascii -> bool) s,
    (forall c, p c = true -> q c = true) ->
    all_chars p s = true -> all_chars q s = true.
Proof.
  intros p q s Hpq. induction s as [|c s IH]; simpl; intros H.
  - reflexivity.
  - apply andb_true_iff in H. destruct H as [Hc Hs].
    rewrite (Hpq _ Hc), (IH Hs). reflexivity.
Qed.

Lemma cps_app : forall a b, cps (a ++ b) = (cps a ++ cps b)%list.
Proof.
  induction a as [|c a IH]; intros b; simpl.
  - reflexivity.
  - unfold cps in *. simpl. rewrite IH. reflexivity.
Qed.

Lemma to_string_cps : forall s, Utf8.to_string (cps s) = s.
Proof.
  intros s. unfold Utf8.to_string, cps, Utf8.byte_val.
  rewrite map_map.
  rewrite (map_ext _ (fun a => a)) by (intros a; apply ascii_N_embedding).
  rewrite map_id. apply string_of_list_ascii_of_string.
Qed.

Lemma token_ascii_char : forall c, token_ascii c = token_char (Utf8.byte_val c).
Proof. intros c. destruct c as [[] [] [] [] [] [] [] []]; reflexivity. Qed.

Lemma token_ascii_is_ascii : forall c, token_ascii c = true -> ascii_char c = true.
Proof.
  intros c. destruct c as [[] [] [] [] [] [] [] []]; intros H;
    solve [reflexivity | discriminate H].
Qed.

Lemma is_token_parts :
  forall s, is_token s = true ->
    cps s <> [] /\ forallb token_char (cps s) = true /\ ascii_only s = true.
Proof.
  intros s H. unfold is_token in H. apply andb_true_iff in H.
  destruct H as [Hne Hall]. repeat split.
  - destruct s; [discriminate Hne | discriminate].
  - clear Hne. induction s as [|c s IH]; simpl in *; [reflexivity|].
    apply andb_true_iff in Hall. destruct Hall as [Hc Hs].
    unfold cps in *. simpl. rewrite <- token_ascii_char, Hc. simpl.
    apply IH. exact Hs.
  - apply (all_chars_impl token_ascii); [exact token_ascii_is_ascii | exact Hall].
Qed.

(** An ASCII prefix decodes to its own bytes. *)
Lemma decode_bytes_ascii_prefix :
  forall s bs,
    ascii_only s = true ->
    Utf8.decode_bytes (cps s ++ bs)
    = option_map (app (cps s)) (Utf8.decode_bytes bs).
Proof.
  induction s as [|c s IH]; intros bs H.
  - simpl. destruct (Utf8.decode_bytes bs); reflexivity.
  - simpl in H. apply andb_true_iff in H. destruct H as [Hc Hs].
    unfold cps in *. cbn [list_ascii_of_string map app Utf8.decode_bytes].
    unfold ascii_char in Hc. unfold Utf8.byte_val at 1. rewrite Hc.
    rewrite (IH bs Hs). destruct (Utf8.decode_bytes bs); reflexivity.
Qed.

Lemma decode_ascii_then :
  forall s extra ecps,
    ascii_only s = true ->
    Utf8.decode extra = Ok ecps ->
    Utf8.decode (s ++ extra) = Ok (cps s ++ ecps)%list.
Proof.
  intros s extra ecps Hs He. unfold Utf8.decode in *.
  fold (cps (s ++ extra)). rewrite cps_app.
  rewrite decode_bytes_ascii_prefix by exact Hs.
  fold (cps extra) in He.
  destruct (Utf8.decode_bytes (cps extra)); [|discriminate He].
  injection He as ->. reflexivity.
Qed.


Section Greedy.
Variable R : Type.
Variable p : N -> bool.

(** The greedy [+] takes the whole run of class characters when what
    follows matches behind it. *)
Lemma plus_class_whole :
  forall (t rest : list N) (k : list N -> option R) (r : R),
    t <> [] ->
    forallb p t = true ->
    Re.plus_class R p rest k = None ->
    k rest = Some r ->
    Re.plus_class R p (t ++ rest) k = Some r.
Proof.
  induction t as [|c t IH]; intros rest k r Hne Hall Hstop Hk.
  - contradiction.
  - simpl in Hall. apply andb_true_iff in Hall. destruct Hall as [Hc Ht].
    simpl. rewrite Hc.
    destruct t as [|c' t'].
    + simpl. rewrite Hstop. exact Hk.
    + rewrite (IH rest k r); [reflexivity | discriminate | exact Ht
                              | exact Hstop | exact Hk].
Qed.

Lemma plus_class_stops :
  forall (x : N) (rest : list N) (k : list N -> option R),
    p x = false -> Re.plus_class R p (x :: rest) k = None.
Proof. intros x rest k H. simpl. rewrite H. reflexivity. Qed.
End Greedy.

Lemma firstn_app_minus :
  forall (A : Type) (t rest : list A),
    firstn (length (t ++ rest) - length rest) (t ++ rest) = t.
Proof.
  intros A t rest. rewrite length_app.
  replace (length t + length rest - length rest)%nat with (length t + 0)%nat by lia.
  rewrite firstn_app_2. simpl. apply app_nil_r.
Qed.

Lemma pattern_shape :
  _STATUS_UPDATE_MATCH_PATTERN =
  Re.Seq (Re.lit "!") (Re.Seq (Re.lit "0") (Re.Seq (Re.lit "0") (Re.Seq (Re.lit " ")
    (Re.Seq (Re.Group (Re.PlusClass token_char))
       (Re.Seq (Re.lit "=")
          (Re.Seq (Re.Group (Re.PlusClass token_char)) status_tail)))))).
Proof. reflexivity. Qed.

Lemma run_status_tail :
  forall (R : Type) sfx extra caps (k : list N -> list (list N) -> option R),
    In sfx unit_suffixes ->
    Re.run R status_tail (cps sfx ++ cps CRLF ++ extra) caps k = k extra caps.
Proof.
  intros R sfx extra caps k H. simpl in H.
  destruct H as [<-| [<-| [<-| [<-|[]]]]];
    cbn; destruct (k extra caps); reflexivity.
Qed.

Lemma suffix_stops_token :
  forall (R : Type) sfx extra (k : list N -> option R),
    In sfx unit_suffixes ->
    Re.plus_class R token_char (cps sfx ++ cps CRLF ++ extra) k = None.
Proof.
  intros R sfx extra k H. simpl in H.
  destruct H as [<-| [<-| [<-| [<-|[]]]]]; reflexivity.
Qed.

Lemma match_status_line :
  forall c v sfx extra,
    is_token c = true -> is_token v = true -> In sfx unit_suffixes ->
    Re.match_ _STATUS_UPDATE_MATCH_PATTERN (cps (status_line c v sfx) ++ extra)
    = Some [cps c; cps v].
Proof.
  intros c v sfx extra Hc Hv Hs.
  destruct (is_token_parts c Hc) as (Hc1 & Hc2 & _).
  destruct (is_token_parts v Hv) as (Hv1 & Hv2 & _).
  unfold status_line. rewrite !cps_app, <- !app_assoc.
  unfold Re.match_. rewrite pattern_shape.
  change (cps "!00 ") with [N_of_ascii "!"; N_of_ascii "0"; N_of_ascii "0"; N_of_ascii " "].
  change (cps "=") with [N_of_ascii "="].
  cbn [Re.run Re.lit app]. rewrite !N.eqb_refl.
  apply plus_class_whole; [exact Hc1 | exact Hc2 | reflexivity |].
  rewrite N.eqb_refl.
  apply plus_class_whole; [exact Hv1 | exact Hv2 | apply suffix_stops_token; exact Hs |].
  rewrite run_status_tail by exact Hs.
  rewrite (firstn_app_minus _ (cps c)), (firstn_app_minus _ (cps v)).
  reflexivity.
Qed.

(** ** The listener *)

Lemma status_line_ascii :
  forall c v sfx,
    is_token c = true -> is_token v = true -> In sfx unit_suffixes ->
    ascii_only (status_line c v sfx) = true.
Proof.
  intros c v sfx Hc Hv Hs.
  destruct (is_token_parts c Hc) as (_ & _ & Ac).
  destruct (is_token_parts v Hv) as (_ & _ & Av).
  unfold status_line, ascii_only in *.
  rewrite !all_chars_app, Ac, Av.
  simpl in Hs. destruct Hs as [<-| [<-| [<-| [<-|[]]]]]; reflexivity.
Qed.

(** A read that starts with a whole status line hands that one update to
    the callback. *)
Lemma process_status_line :
  forall callback c v sfx extra ecps element,
    is_token c = true -> is_token v = true -> In sfx unit_suffixes ->
    Utf8.decode extra = Ok ecps ->
    cmd_to_element c = Ok element ->
    process_msg (Some callback) (status_line c v sfx ++ extra)
    = (delivery callback element (val_to_text v), Ok tt).
Proof.
  intros callback c v sfx extra ecps element Hc Hv Hs He Hel.
  unfold process_msg.
  assert (Hlen : Nat.ltb 0 (String.length (status_line c v sfx ++ extra)) = true)
    by reflexivity.
  rewrite Hlen.
  rewrite (decode_ascii_then _ _ ecps (status_line_ascii c v sfx Hc Hv Hs) He).
  rewrite (match_status_line c v sfx ecps Hc Hv Hs).
  cbn [nth]. rewrite !to_string_cps, Hel.
  unfold delivery, debug_update, warn_unhandled.
  destruct (callback element (val_to_text v)); reflexivity.
Qed.

Lemma process_empty :
  forall callback, process_msg callback EmptyString = ([], Ok tt).
Proof. reflexivity. Qed.

Lemma listen_data :
  forall callback sr n msg rest,
    listen callback sr n (Ok msg :: rest)
    = prepend [SetTimeout 600]
        (and_then (process_msg callback msg) (listen callback sr n rest)).
Proof. reflexivity. Qed.

Lemma listen_probe_reply :
  forall callback sr n msg rest u,
    sr n = Ok u ->
    contains _TEST_RTN_SUCCESS msg = true ->
    listen callback sr n (Raise SocketTimeout :: Ok msg :: rest)
    = prepend [SetTimeout 600; SetTimeout 2; Send _TEST_TCP_MSG]
        (and_then (process_msg callback msg) (listen callback sr (S n) rest)).
Proof.
  intros callback sr n msg rest u Hs Hc.
  cbn [listen is_socket_timeout]. rewrite Hs, Hc. cbn [negb].
  unfold prepend. cbn [fst snd app]. reflexivity.
Qed.

Lemma prepend_app :
  forall t1 t2 r, prepend t1 (prepend t2 r) = prepend (t1 ++ t2)%list r.
Proof. intros t1 t2 [t o]. unfold prepend. simpl. rewrite app_assoc. reflexivity. Qed.

Lemma and_then_ok :
  forall t rest, and_then (t, Ok tt) rest = prepend t rest.
Proof. reflexivity. Qed.

Lemma callbacks_app :
  forall t1 t2, callbacks (t1 ++ t2)%list = (callbacks t1 ++ callbacks t2)%list.
Proof.
  induction t1 as [|e t1 IH]; intros t2; simpl.
  - reflexivity.
  - destruct e; simpl; rewrite ?IH; reflexivity.
Qed.

Lemma closes_app :
  forall t1 t2, closes (t1 ++ t2)%list = (closes t1 + closes t2)%nat.
Proof.
  induction t1 as [|e t1 IH]; intros t2; simpl.
  - reflexivity.
  - destruct e; simpl; rewrite ?IH; reflexivity.
Qed.

Lemma delivery_events :
  forall callback element text,
    callbacks (delivery callback element text) = [(element, text)] /\
    closes (delivery callback element text) = O.
Proof.
  intros callback element text. unfold delivery.
  destruct (callback element text); split; reflexivity.
Qed.

Lemma append_empty_r : forall s : string, s ++ EmptyString = s.
Proof.
  induction s as [|c s IH]; simpl.
  - reflexivity.
  - rewrite IH. reflexivity.
Qed.

Lemma process_status_line_alone :
  forall callback c v sfx element,
    is_token c = true -> is_token v = true -> In sfx unit_suffixes ->
    cmd_to_element c = Ok element ->
    process_msg (Some callback) (status_line c v sfx)
    = (delivery callback element (val_to_text v), Ok tt).
Proof.
  intros callback c v sfx element Hc Hv Hs Hel.
  rewrite <- (append_empty_r (status_line c v sfx)).
  apply (process_status_line callback c v sfx EmptyString [] element);
    (assumption || reflexivity).
Qed.




(** Of two lines that one read returns, the first alone is delivered. *)
Lemma second_line_of_a_read_is_dropped :
  (String.length two_lines <= _BUFFER_SIZE)%nat /\
  process_msg (Some accept_all) two_lines
  = ([debug_update; Callback "circuit1" "1"], Ok tt).
Proof. split; [apply Nat.leb_le|]; reflexivity. Qed.

(** The push line of a malformed circuit token ends the listener with the
    ValueError of [cmd_to_element]; the socket is not closed. *)
Lemma malformed_circuit_line_raises :
  listen (Some accept_all) always_sent 0 [Ok (status_line "CIRX" "1" EmptyString)]
  = ([SetTimeout 600; debug_update], Raised ValueError).
Proof. reflexivity. Qed.




Lemma listen_empty_reads :
  forall callback sr n k,
    listen callback sr n (repeat (Ok EmptyString) k)
    = (repeat (SetTimeout 600) (S k), Listening).
Proof.
  intros callback sr n k. induction k as [|k IH].
  - reflexivity.
  - cbn [repeat]. rewrite listen_data, process_empty, and_then_ok, IH.
    reflexivity.
Qed.

(** C10, as the code has it: a read of the steady loop that returns no
    bytes is skipped.  The listener neither closes the socket nor returns
    for it and goes on with the next read, so that a peer whose every read
    returns no bytes keeps the listener in its loop.  (The read that
    follows the test message is treated otherwise: no bytes there is an
    invalid reply.) *)
Theorem empty_steady_read_is_skipped :
  forall (callback : option handler) (sr : nat -> result unit) (n : nat)
         (rest : list (result string)) (k : nat),
    listen callback sr n (Ok EmptyString :: rest)
    = prepend [SetTimeout 600] (listen callback sr n rest) /\
    listen callback sr n (repeat (Ok EmptyString) k)
    = (repeat (SetTimeout 600) (S k), Listening) /\
    closes (fst (listen callback sr n (repeat (Ok EmptyString) k))) = O.
Proof.
  intros callback sr n rest k. split; [|split].
  - rewrite listen_data, process_empty, and_then_ok, prepend_app. reflexivity.
  - apply listen_empty_reads.
  - rewrite listen_empty_reads. cbn [fst].
    induction (S k) as [|m IH]; [reflexivity | exact IH].
Qed.

(** C10, as stated, fails: when the read that follows the test message
    returns no bytes, the listener closes the socket and returns False. *)
Lemma empty_probe_reply_closes :
  recvs empty_reply_socket = [Raise SocketTimeout; Ok EmptyString] /\
  snd (status_listener empty_reply_socket "pool" None) = Returned false /\
  closes (fst (status_listener empty_reply_socket "pool" None)) = 1%nat.
Proof. repeat split. Qed.

(** ** The idle probe *)

Lemma probe_failed_closes_once :
  forall e,
    is_socket_error e = true ->
    exists t, probe_failed e = (t, Returned false) /\
              closes t = 1%nat /\ callbacks t = [].
Proof.
  intros e H. unfold probe_failed.
  destruct e; try discriminate H; simpl; eexists; repeat split.
Qed.

(** The test message is sent, with a timeout of two seconds, as soon as a
    read of the steady loop times out. *)
Lemma idle_timeout_sends_probe :
  forall callback sr n rest,
    exists r,
      listen callback sr n (Raise SocketTimeout :: rest)
      = prepend [SetTimeout 600; SetTimeout 2; Send _TEST_TCP_MSG] r.
Proof.
  intros callback sr n rest. cbn [listen is_socket_timeout].
  eexists. rewrite prepend_app. reflexivity.
Qed.

(** The probe fails when sending or reading the reply times out or meets a
    socket error, or when the reply is UTF-8 text without [!00 OPMODE=]:
    the socket is closed once and False is returned. *)
Lemma probe_failure_returns_false :
  forall callback sr n rest,
    (exists e, sr n = Raise e /\ is_socket_error e = true) \/
    (exists u e rest', sr n = Ok u /\ rest = Raise e :: rest' /\
                       is_socket_error e = true) \/
    (exists u msg text rest', sr n = Ok u /\ rest = Ok msg :: rest' /\
                       contains _TEST_RTN_SUCCESS msg = false /\
                       Utf8.decode msg = Ok text) ->
    exists t,
      listen callback sr n (Raise SocketTimeout :: rest) = (t, Returned false) /\
      closes t = 1%nat /\ callbacks t = [].
Proof.
  intros callback sr n rest H. cbn [listen is_socket_timeout].
  destruct H as [(e & Hs & He) | [(u & e & rest' & Hs & -> & He)
                                 | (u & msg & text & rest' & Hs & -> & Hc & Hd)]];
    rewrite Hs.
  - destruct (probe_failed_closes_once e He) as (t & -> & Ht & Hcb).
    eexists. split; [reflexivity|]. simpl. split; assumption.
  - destruct (probe_failed_closes_once e He) as (t & -> & Ht & Hcb).
    eexists. split; [reflexivity|]. simpl. split; assumption.
  - rewrite Hc. cbn [negb]. unfold invalid_reply. rewrite Hd.
    eexists. split; [reflexivity|]. split; reflexivity.
Qed.

(** The probe succeeds: the loop goes on, and nothing but the processing of
    the reply stands between the test message and the next read. *)
Lemma probe_success_resumes :
  forall callback sr n u msg rest,
    sr n = Ok u ->
    contains _TEST_RTN_SUCCESS msg = true ->
    process_msg callback msg = (fst (process_msg callback msg), Ok tt) ->
    listen callback sr n (Raise SocketTimeout :: Ok msg :: rest)
    = prepend ([SetTimeout 600; SetTimeout 2; Send _TEST_TCP_MSG]
               ++ fst (process_msg callback msg))%list
        (listen callback sr (S n) rest).
Proof.
  intros callback sr n u msg rest Hs Hc Hp.
  rewrite (listen_probe_reply callback sr n msg rest u Hs Hc).
  rewrite Hp, and_then_ok, prepend_app. reflexivity.
Qed.

(** C1: the claim fails on a reply that is not UTF-8 text.  After the idle
    timeout the test message is sent; the reply, the single byte 0xFF, does
    not contain [!00 OPMODE=]; building the error message decodes the reply
    and raises UnicodeDecodeError before the socket is closed: the listener
    raises instead of returning False, and the socket stays open. *)
Theorem garbled_probe_reply_raises :
  recvs garbled_reply_socket = [Raise SocketTimeout; Ok byte_ff] /\
  contains _TEST_RTN_SUCCESS byte_ff = false /\
  status_listener garbled_reply_socket "pool" None
  = ([Log DEBUG "In status_listener..."; Connect "pool" 6000;
      SetTimeout 600; SetTimeout 2; Send _TEST_TCP_MSG],
     Raised UnicodeDecodeError) /\
  closes (fst (status_listener garbled_reply_socket "pool" None)) = O.
Proof. repeat split. Qed.

(** * Further properties of the code *)

(** ** The listener: what every run keeps *)

Lemma two_step_ind :
  forall (A : Type) (P : list A -> Prop),
    P [] ->
    (forall a l, P l -> (forall b l', l = b :: l' -> P l') -> P (a :: l)) ->
    forall l, P l.
Proof.
  intros A P H0 Hstep l.
  assert (H : P l /\ (forall b l', l = b :: l' -> P l')).
  { induction l as [|a l [IH1 IH2]].
    - split; [exact H0 | discriminate].
    - split.
      + apply Hstep; assumption.
      + intros b l' E. injection E as _ <-. exact IH1. }
  exact (proj1 H).
Qed.

Lemma sends_app :
  forall t1 t2, sends (t1 ++ t2)%list = (sends t1 ++ sends t2)%list.
Proof.
  induction t1 as [|e t1 IH]; intros t2; simpl.
  - reflexivity.
  - destruct e; simpl; rewrite ?IH; reflexivity.
Qed.

Lemma process_msg_quiet :
  forall cb msg,
    closes (fst (process_msg cb msg)) = O /\ sends (fst (process_msg cb msg)) = [].
Proof.
  intros cb msg. unfold process_msg.
  destruct (Nat.ltb 0 (String.length msg)); [|split; reflexivity].
  destruct (Utf8.decode msg) as [text|e]; [|split; reflexivity].
  destruct (Re.match_ _ text) as [groups|]; [|split; reflexivity].
  destruct cb as [callback|]; [|split; reflexivity].
  destruct (cmd_to_element _) as [element|e]; [|split; reflexivity].
  destruct (callback element _); split; reflexivity.
Qed.

Lemma settled_prepend :
  forall t r, closes t = O -> settled r -> settled (prepend t r).
Proof.
  intros t [t0 o] Ht [[Hc Ho] | (t' & Hf & Hc & Ho)]; simpl in *.
  - left. simpl. rewrite closes_app, Ht, Hc. split; [reflexivity | exact Ho].
  - right. exists (t ++ t')%list. simpl. subst t0.
    rewrite app_assoc, closes_app, Ht, Hc. repeat split. exact Ho.
Qed.

Lemma settled_and_then :
  forall cb msg rest,
    settled rest -> settled (and_then (process_msg cb msg) rest).
Proof.
  intros cb msg rest H. unfold and_then.
  destruct (process_msg_quiet cb msg) as [Hc _].
  destruct (snd (process_msg cb msg)) as [u|e] eqn:E.
  - apply settled_prepend; assumption.
  - left. simpl. split; [exact Hc | right; exists e; reflexivity].
Qed.

Lemma settled_closed :
  forall t o, closes t = O ->
    (o = Returned false \/ exists e, o = Raised e) ->
    settled ((t ++ [Close])%list, o).
Proof. intros t o Ht Ho. right. exists t. repeat split; assumption. Qed.

Lemma settled_probe_failed : forall e, settled (probe_failed e).
Proof.
  intros e. unfold probe_failed.
  destruct (is_socket_timeout e); [|destruct (is_socket_error e)].
  - apply (settled_closed [_]); [reflexivity | left; reflexivity].
  - apply (settled_closed [_]); [reflexivity | left; reflexivity].
  - apply (settled_closed []); [reflexivity | right; exists e; reflexivity].
Qed.

Lemma settled_recv_failed : forall e, settled (recv_failed e).
Proof.
  intros e. unfold recv_failed. destruct (is_socket_error e).
  - apply (settled_closed [_]); [reflexivity | left; reflexivity].
  - apply (settled_closed []); [reflexivity | right; exists e; reflexivity].
Qed.

Lemma settled_invalid_reply : forall msg, settled (invalid_reply msg).
Proof.
  intros msg. unfold invalid_reply. destruct (Utf8.decode msg) as [text|e].
  - apply (settled_closed [_]); [reflexivity | left; reflexivity].
  - left. split; [reflexivity | right; exists e; reflexivity].
Qed.

Lemma listen_settled :
  forall cb sr recvs n, settled (listen cb sr n recvs).
Proof.
  intros cb sr recvs. induction recvs as [|r rest IH IH2] using two_step_ind;
    intros n.
  - left. split; [reflexivity | left; reflexivity].
  - cbn [listen]. apply settled_prepend; [reflexivity|].
    destruct r as [msg|e].
    + apply settled_and_then. apply IH.
    + destruct (is_socket_timeout e); [|apply settled_recv_failed].
      apply settled_prepend; [reflexivity|].
      destruct (sr n) as [u|e']; [|apply settled_probe_failed].
      destruct rest as [|[msg|e'] rest'].
      * left. split; [reflexivity | left; reflexivity].
      * destruct (negb (contains _TEST_RTN_SUCCESS msg)).
        -- apply settled_invalid_reply.
        -- apply settled_and_then. apply (IH2 _ _ eq_refl).
      * apply settled_probe_failed.
Qed.

Lemma status_listener_settled :
  forall sock addr cb, settled (status_listener sock addr cb).
Proof.
  intros sock addr cb. unfold status_listener.
  apply settled_prepend; [reflexivity|].
  destruct (connect_result sock) as [u|e].
  - apply listen_settled.
  - destruct (is_socket_error e).
    + apply (settled_closed [_]); [reflexivity | left; reflexivity].
    + apply (settled_closed []); [reflexivity | right; exists e; reflexivity].
Qed.

Lemma closes_snoc : forall t, closes (t ++ [Close])%list = S (closes t).
Proof. intros t. rewrite closes_app. simpl. lia. Qed.

(** X1: whatever the socket does, the listener never returns True; when it
    returns it has closed the socket exactly once, and closing was its last
    action; as long as it is in its loop the socket has not been closed;
    and the socket is never closed twice. *)
Theorem listener_returns_false_closed_once :
  forall (sock : Socket) (addr : string) (cb : option handler),
    let r := status_listener sock addr cb in
    (forall b, snd r = Returned b ->
       b = false /\ closes (fst r) = 1%nat /\
       exists t', fst r = (t' ++ [Close])%list) /\
    (snd r = Listening -> closes (fst r) = O) /\
    (closes (fst r) <= 1)%nat.
Proof.
  intros sock addr cb r.
  destruct (status_listener_settled sock addr cb)
    as [[Hc Ho] | (t' & Hf & Hc & Ho)]; fold r in Hc, Ho; try fold r in Hf.
  - repeat split.
    + destruct Ho as [Ho | [e Ho]]; rewrite Ho in H; discriminate H.
    + destruct Ho as [Ho | [e Ho]]; rewrite Ho in H; discriminate H.
    + destruct Ho as [Ho | [e Ho]]; rewrite Ho in H; discriminate H.
    + intros _. exact Hc.
    + rewrite Hc. lia.
  - assert (Hone : closes (fst r) = 1%nat)
      by (rewrite Hf, closes_snoc, Hc; reflexivity).
    repeat split.
    + destruct Ho as [Ho | [e Ho]]; rewrite Ho in H;
        [injection H as <-; reflexivity | discriminate H].
    + exact Hone.
    + exists t'. exact Hf.
    + intros H. destruct Ho as [Ho | [e Ho]]; rewrite Ho in H; discriminate H.
    + rewrite Hone. lia.
Qed.

Lemma listener_returns_false_closed_once_witness :
  closes (fst (status_listener empty_reply_socket "pool" None)) = 1%nat /\
  closes (fst (status_listener split_line_socket "pool" (Some accept_all))) = O.
Proof.
  destruct (listener_returns_false_closed_once empty_reply_socket "pool" None)
    as (H & _ & _).
  destruct (listener_returns_false_closed_once split_line_socket "pool"
              (Some accept_all)) as (_ & H' & _).
  split.
  - apply (H false). reflexivity.
  - apply H'. reflexivity.
Defined.

Lemma process_msg_returning :
  forall cb msg,
    process_msg_raising (option_map returning cb) msg = process_msg cb msg.
Proof.
  intros cb msg. unfold process_msg_raising, process_msg.
  destruct (Nat.ltb 0 (String.length msg)); [|reflexivity].
  destruct (Utf8.decode msg) as [text|e]; [|reflexivity].
  destruct (Re.match_ _ text) as [groups|]; [|reflexivity].
  destruct cb as [callback|]; [|reflexivity]. cbn [option_map].
  destruct (cmd_to_element _) as [element|e]; [|reflexivity].
  unfold returning. destruct (callback element _); reflexivity.
Qed.

Lemma listen_returning :
  forall cb sr recvs n,
    listen_raising (option_map returning cb) sr n recvs = listen cb sr n recvs.
Proof.
  intros cb sr recvs. induction recvs as [|r rest IH IH2] using two_step_ind;
    intros n; [reflexivity|].
  cbn [listen listen_raising]. f_equal.
  destruct r as [msg|e].
  - rewrite process_msg_returning, IH. reflexivity.
  - destruct (is_socket_timeout e); [|reflexivity]. f_equal.
    destruct (sr n) as [u|e']; [|reflexivity].
    destruct rest as [|[msg|e'] rest']; try reflexivity.
    destruct (negb (contains _TEST_RTN_SUCCESS msg)); [reflexivity|].
    rewrite process_msg_returning, (IH2 _ _ eq_refl). reflexivity.
Qed.

(** On a callback that returns, the listener for raising callbacks is the
    listener above. *)
Lemma status_listener_returning :
  forall sock addr cb,
    status_listener_raising sock addr (option_map returning cb)
    = status_listener sock addr cb.
Proof.
  intros sock addr cb. unfold status_listener_raising, status_listener.
  destruct (connect_result sock); [|reflexivity].
  rewrite listen_returning. reflexivity.
Qed.

Lemma process_msg_raises :
  forall cb msg e,
    snd (process_msg_raising cb msg) = Raise e ->
    e = UnicodeDecodeError \/
    (cb <> None /\ e = ValueError) \/
    (exists callback element value,
        cb = Some callback /\ callback element value = Raise e).
Proof.
  intros cb msg e. unfold process_msg_raising.
  destruct (Nat.ltb 0 (String.length msg)); [|discriminate].
  unfold Utf8.decode.
  destruct (Utf8.decode_bytes _) as [text|]; simpl.
  - destruct (Re.match_ _ text) as [groups|]; [|discriminate].
    destruct cb as [callback|]; [|discriminate].
    destruct (cmd_to_element _) as [element|e'] eqn:Ec.
    + destruct (callback element _) as [[|]|e'] eqn:Eb; try discriminate.
      intros H. injection H as <-. right. right.
      eexists. eexists. eexists. split; [reflexivity | exact Eb].
    + intros H. injection H as <-. right. left.
      split; [discriminate|].
      revert Ec. unfold cmd_to_element.
      destruct (String.eqb (Py.take 3 _) "CIR").
      * unfold Py.int.
        match goal with |- context [match ?r with Some _ => _ | None => _ end] =>
          destruct r end; simpl.
        -- destruct (_ && _); discriminate.
        -- intros H. injection H as <-. reflexivity.
      * repeat match goal with
               | |- context [if String.eqb ?a ?b then _ else _] =>
                   destruct (String.eqb a b)
               end; discriminate.
  - intros H. injection H as <-. left. reflexivity.
Qed.

Lemma escapes_prepend :
  forall cb t r, escapes_open cb r -> escapes_open cb (prepend t r).
Proof.
  intros cb t [t0 o] H e He Hc. simpl in *.
  rewrite closes_app in Hc. apply (H e He). simpl. lia.
Qed.

Lemma escapes_and_then :
  forall cb msg rest,
    escapes_open cb rest ->
    escapes_open cb (and_then (process_msg_raising cb msg) rest).
Proof.
  intros cb msg rest H. unfold and_then.
  destruct (snd (process_msg_raising cb msg)) as [u|e] eqn:E.
  - apply escapes_prepend. exact H.
  - intros e' He' _. simpl in He'. injection He' as <-.
    apply (process_msg_raises cb msg e E).
Qed.

Lemma escapes_closed :
  forall cb t o, (closes t > 0)%nat -> escapes_open cb (t, o).
Proof. intros cb t o Ht e _ Hc. simpl in Hc. lia. Qed.

Lemma escapes_not_raised :
  forall cb t o, (forall e, o <> Raised e) -> escapes_open cb (t, o).
Proof. intros cb t o Ho e He _. exfalso. exact (Ho e He). Qed.

Lemma escapes_probe_failed : forall cb e, escapes_open cb (probe_failed e).
Proof.
  intros cb e. unfold probe_failed.
  destruct (is_socket_timeout e); [|destruct (is_socket_error e)];
    apply escapes_closed; simpl; lia.
Qed.

Lemma escapes_recv_failed : forall cb e, escapes_open cb (recv_failed e).
Proof.
  intros cb e. unfold recv_failed.
  destruct (is_socket_error e); apply escapes_closed; simpl; lia.
Qed.

Lemma escapes_invalid_reply : forall cb msg, escapes_open cb (invalid_reply msg).
Proof.
  intros cb msg. unfold invalid_reply, Utf8.decode.
  destruct (Utf8.decode_bytes _).
  - apply escapes_closed. simpl. lia.
  - intros e He _. simpl in He. injection He as <-. left. reflexivity.
Qed.

Lemma listen_escapes :
  forall cb sr recvs n, escapes_open cb (listen_raising cb sr n recvs).
Proof.
  intros cb sr recvs. induction recvs as [|r rest IH IH2] using two_step_ind;
    intros n.
  - apply escapes_not_raised. discriminate.
  - cbn [listen_raising]. apply escapes_prepend.
    destruct r as [msg|e].
    + apply escapes_and_then. apply IH.
    + destruct (is_socket_timeout e); [|apply escapes_recv_failed].
      apply escapes_prepend.
      destruct (sr n) as [u|e']; [|apply escapes_probe_failed].
      destruct rest as [|[msg|e'] rest'].
      * apply escapes_not_raised. discriminate.
      * destruct (negb (contains _TEST_RTN_SUCCESS msg)).
        -- apply escapes_invalid_reply.
        -- apply escapes_and_then. apply (IH2 _ _ eq_refl).
      * apply escapes_probe_failed.
Qed.

(** X2: the listener leaves the socket open behind an exception only for a
    UnicodeDecodeError (bytes that are not UTF-8), for the ValueError of
    [cmd_to_element] when a callback is installed, or for an exception that
    the callback itself raised; every other exception it raises, it raises
    after closing the socket.  The callback may return or raise here. *)
Theorem listener_raises_with_open_socket :
  forall (sock : Socket) (addr : string) (cb : option raising_handler) (e : exn),
    snd (status_listener_raising sock addr cb) = Raised e ->
    closes (fst (status_listener_raising sock addr cb)) = O ->
    e = UnicodeDecodeError \/
    (cb <> None /\ e = ValueError) \/
    (exists callback element value,
        cb = Some callback /\ callback element value = Raise e).
Proof.
  intros sock addr cb. unfold status_listener_raising.
  apply escapes_prepend.
  destruct (connect_result sock) as [u|e].
  - apply listen_escapes.
  - destruct (is_socket_error e); apply escapes_closed; simpl; lia.
Qed.

Lemma listener_raises_with_open_socket_witness :
  snd (status_listener_raising one_line_socket "pool" (Some failing_callback))
  = Raised KeyError /\
  closes (fst (status_listener_raising one_line_socket "pool" (Some failing_callback)))
  = O /\
  (KeyError = UnicodeDecodeError \/
   (Some failing_callback <> None /\ KeyError = ValueError) \/
   (exists callback element value,
       Some failing_callback = Some callback /\
       callback element value = Raise KeyError)).
Proof.
  split; [reflexivity|]. split; [reflexivity|].
  apply (listener_raises_with_open_socket one_line_socket "pool"
           (Some failing_callback) KeyError); reflexivity.
Defined.

Lemma probes_prepend_quiet :
  forall rs t r, sends t = [] -> probes_only rs r -> probes_only rs (prepend t r).
Proof.
  intros rs t [t0 o] Ht [Hf Hl]. unfold probes_only in *. simpl in *.
  rewrite sends_app, Ht. simpl. split; assumption.
Qed.

Lemma probes_and_then :
  forall rs cb msg rest,
    probes_only rs rest -> probes_only rs (and_then (process_msg cb msg) rest).
Proof.
  intros rs cb msg rest H. unfold and_then.
  destruct (process_msg_quiet cb msg) as [_ Hs].
  destruct (snd (process_msg cb msg)) as [u|e].
  - apply probes_prepend_quiet; assumption.
  - unfold probes_only. simpl. rewrite Hs. simpl. split; [constructor | lia].
Qed.

Lemma probes_weaken :
  forall rs rs' r,
    (timeouts rs <= timeouts rs')%nat -> probes_only rs r -> probes_only rs' r.
Proof. intros rs rs' r H [Hf Hl]. split; [exact Hf | lia]. Qed.

Lemma probes_silent :
  forall rs t o, sends t = [] -> probes_only rs (t, o).
Proof.
  intros rs t o H. unfold probes_only. simpl. rewrite H. simpl.
  split; [constructor | lia].
Qed.

Lemma probes_after_probe :
  forall rs r,
    probes_only rs r ->
    probes_only (Raise SocketTimeout :: rs)
      (prepend [SetTimeout 2; Send _TEST_TCP_MSG] r).
Proof.
  intros rs [t o] [Hf Hl]. unfold probes_only in *. simpl in *.
  split; [constructor; [reflexivity | exact Hf] | lia].
Qed.

Lemma timeouts_tail :
  forall r rs, (timeouts rs <= timeouts (r :: rs))%nat.
Proof. intros [m|[]] rs; simpl; lia. Qed.

Lemma probe_failed_silent : forall e, sends (fst (probe_failed e)) = [].
Proof.
  intros e. unfold probe_failed.
  destruct (is_socket_timeout e); [|destruct (is_socket_error e)]; reflexivity.
Qed.

Lemma listen_probes_only :
  forall cb sr recvs n, probes_only recvs (listen cb sr n recvs).
Proof.
  intros cb sr recvs. induction recvs as [|r rest IH IH2] using two_step_ind;
    intros n.
  - apply probes_silent. reflexivity.
  - cbn [listen]. apply probes_prepend_quiet; [reflexivity|].
    destruct r as [msg|e].
    + apply probes_and_then. apply (probes_weaken rest); [apply timeouts_tail | apply IH].
    + destruct e; cbn [is_socket_timeout];
        try (unfold recv_failed;
             match goal with |- context [if ?b then _ else _] => destruct b end;
             apply probes_silent; reflexivity).
      apply probes_after_probe.
      destruct (sr n) as [u|e'].
      * destruct rest as [|[msg|e'] rest'].
        -- apply probes_silent. reflexivity.
        -- destruct (negb (contains _TEST_RTN_SUCCESS msg)).
           ++ unfold invalid_reply. destruct (Utf8.decode msg);
                apply probes_silent; reflexivity.
           ++ apply probes_and_then.
              apply (probes_weaken rest'); [apply timeouts_tail | apply (IH2 _ _ eq_refl)].
        -- destruct (probe_failed e') as [t o] eqn:E.
           apply probes_silent. change t with (fst (t, o)). rewrite <- E.
           apply probe_failed_silent.
      * destruct (probe_failed e') as [t o] eqn:E.
        apply probes_silent. change t with (fst (t, o)). rewrite <- E.
        apply probe_failed_silent.
Qed.

(** X3: the only bytes the listener ever writes to the socket are the test
    message [#OPMODE?\r], and it writes it at most once for each idle
    timeout of the steady loop; when connecting fails nothing is written. *)
Theorem listener_writes_only_probes :
  forall (sock : Socket) (addr : string) (cb : option handler),
    let t := fst (status_listener sock addr cb) in
    Forall (eq _TEST_TCP_MSG) (sends t) /\
    (length (sends t) <= timeouts (recvs sock))%nat /\
    (forall e, connect_result sock = Raise e -> sends t = []).
Proof.
  intros sock addr cb t. subst t. unfold status_listener.
  destruct (connect_result sock) as [u|e] eqn:Ec.
  - destruct (probes_prepend_quiet (recvs sock)
                [Log DEBUG "In status_listener..."; Connect addr _CONTROLLER_TCP_PORT]
                (listen cb (send_result sock) 0 (recvs sock)) eq_refl
                (listen_probes_only cb (send_result sock) (recvs sock) 0))
      as [Hf Hl].
    repeat split; try assumption. discriminate.
  - destruct (is_socket_error e); simpl; repeat split;
      try constructor; try lia; reflexivity.
Qed.

Lemma listener_writes_only_probes_witness :
  sends (fst (status_listener
                (mkSocket (Raise SocketError) [Raise SocketTimeout] always_sent)
                "pool" None)) = [].
Proof.
  apply (proj2 (proj2 (listener_writes_only_probes
                         (mkSocket (Raise SocketError) [Raise SocketTimeout] always_sent)
                         "pool" None)) SocketError).
  reflexivity.
Defined.

(** ** The translators on the tokens of the pattern *)

Lemma all_chars_drop :
  forall p n s, all_chars p s = true -> all_chars p (Py.drop n s) = true.
Proof.
  induction n as [|n IH]; intros s H.
  - destruct s; exact H.
  - destruct s as [|c s]; [reflexivity|].
    simpl in *. apply andb_true_iff in H. apply IH. exact (proj2 H).
Qed.

Lemma int_digits_rejects_letters :
  forall s acc,
    all_chars token_ascii s = true ->
    all_chars Py.is_digit s = false ->
    Py.int_digits acc s = None.
Proof.
  induction s as [|c s IH]; intros acc Ht Hd.
  - discriminate Hd.
  - simpl in Ht. apply andb_true_iff in Ht. destruct Ht as [Hc Hs].
    destruct c as [[] [] [] [] [] [] [] []]; try discriminate Hc;
      simpl in *; solve [reflexivity | apply IH; assumption].
Qed.

(** [int()] of a string over A-Z and 0-9 succeeds exactly on the non-empty
    strings of digits. *)
Lemma int_of_token_chars :
  forall t,
    all_chars token_ascii t = true ->
    Py.int t = if is_number t then Ok (dec_value 0 t) else Raise ValueError.
Proof.
  intros t Ht. destruct (is_number t) eqn:En.
  - apply int_number. exact En.
  - destruct t as [|c t]; [reflexivity|].
    unfold is_number in En. simpl in En, Ht.
    apply andb_true_iff in Ht. destruct Ht as [Hc Hs].
    unfold Py.int.
    destruct c as [[] [] [] [] [] [] [] []]; try discriminate Hc;
      simpl in *; try reflexivity;
      rewrite (int_digits_rejects_letters _ _ Hs En); reflexivity.
Qed.

Lemma is_token_chars : forall c, is_token c = true -> all_chars token_ascii c = true.
Proof.
  intros c H. unfold is_token in H. apply andb_true_iff in H. exact (proj2 H).
Qed.

Lemma lower_char_alnum :
  forall a, token_ascii a = true ->
    (is_lower (Py.lower_char a) || Py.is_digit (Py.lower_char a))%bool = true.
Proof.
  intros a H. destruct a as [[] [] [] [] [] [] [] []];
    solve [reflexivity | discriminate H].
Qed.

Lemma lower_token_alnum :
  forall c, all_chars token_ascii c = true -> lower_alnum (Py.lower c) = true.
Proof.
  induction c as [|a c IH]; simpl; intros H.
  - reflexivity.
  - apply andb_true_iff in H. destruct H as [Ha Hc].
    unfold lower_alnum in *. simpl.
    rewrite (lower_char_alnum _ Ha), (IH Hc). reflexivity.
Qed.

Lemma digits_alnum :
  forall t, all_chars Py.is_digit t = true -> lower_alnum t = true.
Proof.
  intros t. apply all_chars_impl. intros c H. rewrite H. apply orb_true_r.
Qed.

Lemma lower_nonempty : forall c, c <> EmptyString -> Py.lower c <> EmptyString.
Proof. intros [|a c] H; [contradiction | discriminate]. Qed.

Lemma cmd_to_element_alnum :
  forall c e : string,
    is_token c = true ->
    cmd_to_element c = Ok e ->
    lower_alnum e = true /\ e <> EmptyString.
Proof.
  intros c e Hc. unfold cmd_to_element.
  assert (Hd : all_chars token_ascii (Py.drop 3 c) = true)
    by (apply all_chars_drop, is_token_chars; exact Hc).
  destruct (String.eqb (Py.take 3 c) "CIR").
  - rewrite (int_of_token_chars _ Hd).
    set (t := Py.drop 3 c) in *.
    destruct (is_number t) eqn:En; cbn [bind]; [|discriminate].
    assert (Ht : lower_alnum t = true).
    { unfold is_number in En. apply andb_true_iff in En.
      apply (digits_alnum _ (proj2 En)). }
    destruct (41 <=? dec_value 0 t) eqn:E1;
      [destruct (dec_value 0 t <=? 50) eqn:E2|]; cbn [andb];
      intros H; injection H as <-.
    + apply Z.leb_le in E1, E2.
      assert (C : exists k, dec_value 0 t - 40 = Z.of_nat (S k) /\ (k < 10)%nat).
      { exists (Z.to_nat (dec_value 0 t - 41)). lia. }
      destruct C as (k & -> & Hk).
      do 10 (destruct k as [|k]; [split; [reflexivity | discriminate]|]). lia.
    + split; [exact Ht | discriminate].
    + split; [exact Ht | discriminate].
  - assert (Hl : lower_alnum (Py.lower c) = true /\ Py.lower c <> EmptyString).
    { split; [apply lower_token_alnum, is_token_chars; exact Hc|].
      apply lower_nonempty. intros ->. discriminate Hc. }
    repeat match goal with
           | |- context [if String.eqb ?a ?b then _ else _] =>
               destruct (String.eqb a b)
           end; intros H; injection H as <-;
      solve [exact Hl | split; [reflexivity | discriminate]].
Qed.

(** X5: on a token of the status pattern, [cmd_to_element] raises
    ValueError exactly when the token starts with CIR and does not go on
    with a non-empty string of decimal digits; on every other token it
    returns an element name, and every name it returns is a non-empty
    string of lower-case letters and digits. *)
Theorem cmd_to_element_fails_exactly_on_bad_circuits :
  forall c : string,
    is_token c = true ->
    (cmd_to_element c = Raise ValueError <->
       Py.take 3 c = "CIR" /\ is_number (Py.drop 3 c) = false) /\
    ((exists e, cmd_to_element c = Ok e) <->
       ~ (Py.take 3 c = "CIR" /\ is_number (Py.drop 3 c) = false)) /\
    (forall e, cmd_to_element c = Ok e ->
       lower_alnum e = true /\ e <> EmptyString).
Proof.
  intros c Hc.
  assert (Hname : forall e, cmd_to_element c = Ok e ->
                    lower_alnum e = true /\ e <> EmptyString)
    by (intros e; apply cmd_to_element_alnum; exact Hc).
  rewrite <- and_assoc. split; [|exact Hname]. clear Hname.
  assert (Hd : all_chars token_ascii (Py.drop 3 c) = true)
    by (apply all_chars_drop, is_token_chars; exact Hc).
  assert (Hcases :
    (Py.take 3 c = "CIR" /\ is_number (Py.drop 3 c) = false /\
     cmd_to_element c = Raise ValueError) \/
    (~ (Py.take 3 c = "CIR" /\ is_number (Py.drop 3 c) = false) /\
     exists e, cmd_to_element c = Ok e)).
  { unfold cmd_to_element.
    destruct (String.eqb_spec (Py.take 3 c) "CIR") as [E|E].
    - rewrite (int_of_token_chars _ Hd).
      destruct (is_number (Py.drop 3 c)) eqn:En; simpl.
      + right. split; [intros [_ H]; discriminate H|].
        destruct (_ && _); eexists; reflexivity.
      + left. repeat split. exact E.
    - right. split; [intros [H _]; contradiction|].
      repeat match goal with
             | |- context [if String.eqb ?a ?b then _ else _] =>
                 destruct (String.eqb a b)
             end; eexists; reflexivity. }
  destruct Hcases as [(H1 & H2 & H3) | (H1 & e & H2)]; split; split.
  - intros _. split; assumption.
  - intros _. exact H3.
  - intros [e He]. rewrite H3 in He. discriminate He.
  - intros H. exfalso. apply H. split; assumption.
  - intros H. rewrite H2 in H. discriminate H.
  - intros H. contradiction.
  - intros _. exact H1.
  - intros _. exists e. exact H2.
Qed.

Lemma cmd_to_element_fails_exactly_on_bad_circuits_witness :
  cmd_to_element "CIRCUIT9" = Raise ValueError /\
  lower_alnum "pumplo" = true.
Proof.
  split.
  - apply (proj1 (cmd_to_element_fails_exactly_on_bad_circuits "CIRCUIT9" eq_refl)).
    split; reflexivity.
  - apply (proj2 (proj2 (cmd_to_element_fails_exactly_on_bad_circuits
                           "PUMPLO" eq_refl)) "pumplo").
    reflexivity.
Defined.

Lemma val_to_text_token :
  forall v : string, is_token v = true -> is_token (val_to_text v) = true.
Proof.
  intros v H. unfold val_to_text.
  eqb_cases v; solve [reflexivity | exact H].
Qed.

(** X6: [val_to_text] is idempotent, and it sends a token of the status
    pattern to a token: translating a value a second time changes nothing. *)
Theorem val_to_text_idempotent :
  forall v : string,
    val_to_text (val_to_text v) = val_to_text v /\
    (is_token v = true -> is_token (val_to_text v) = true).
Proof.
  intros v.
  destruct (in_dec string_dec v (map fst value_table)) as [Hin|Hout].
  - simpl in Hin.
    repeat (destruct Hin as [<-|Hin]; [split; reflexivity|]). contradiction.
  - rewrite (val_to_text_other v Hout). split.
    + apply (val_to_text_other v Hout).
    + intros H. exact H.
Qed.

Lemma val_to_text_idempotent_witness :
  is_token (val_to_text "SOLPREF") = true.
Proof.
  apply (proj2 (val_to_text_idempotent "SOLPREF")). reflexivity.
Defined.

(** ** What the pattern lets through *)

Lemma plus_class_inv :
  forall (R : Type) (p : N -> bool) (s : list N) (k : list N -> option R) (r : R),
    Re.plus_class R p s k = Some r ->
    exists t rest,
      s = (t ++ rest)%list /\ t <> [] /\ forallb p t = true /\ k rest = Some r.
Proof.
  intros R p s k r. induction s as [|c s IH]; simpl; intros H.
  - discriminate H.
  - destruct (p c) eqn:Hc; [|discriminate H].
    destruct (Re.plus_class R p s k) as [r'|] eqn:E.
    + injection H as ->. destruct (IH eq_refl) as (t & rest & -> & _ & Ht & Hk).
      exists (c :: t), rest. simpl. rewrite Hc, Ht.
      repeat split; [discriminate | exact Hk].
    + exists [c], s. simpl. rewrite Hc.
      repeat split; [discriminate | exact H].
Qed.

(** A pattern without groups hands the captures on unchanged. *)
Lemma run_group_free :
  forall (R : Type) (r : Re.regex),
    group_free r = true ->
    forall s caps (k : list N -> list (list N) -> option R) g,
      Re.run R r s caps k = Some g -> exists s', k s' caps = Some g.
Proof.
  intros R r. induction r as [| c | p | p | r' IH | r1 IH1 r2 IH2 | r' IH];
    intros Hg s caps k g H; simpl in *.
  - exists s. exact H.
  - destruct s as [|x s']; [discriminate H|].
    destruct (N.eqb x c); [exists s'; exact H | discriminate H].
  - destruct s as [|x s']; [discriminate H|].
    destruct (p x); [exists s'; exact H | discriminate H].
  - destruct (plus_class_inv _ _ _ _ _ H) as (t & rest & _ & _ & _ & Hk).
    exists rest. exact Hk.
  - destruct (Re.run R r' s caps k) as [x|] eqn:E.
    + injection H as ->. apply (IH Hg _ _ _ _ E).
    + exists s. exact H.
  - apply andb_true_iff in Hg. destruct Hg as [Hg1 Hg2].
    destruct (IH1 Hg1 _ _ _ _ H) as (s' & H').
    apply (IH2 Hg2 _ _ _ _ H').
  - discriminate Hg.
Qed.

(** A match of the status pattern captures two non-empty runs of [A-Z0-9]. *)
Lemma match_status_inv :
  forall text groups,
    Re.match_ _STATUS_UPDATE_MATCH_PATTERN text = Some groups ->
    exists c v,
      groups = [c; v] /\
      c <> [] /\ forallb token_char c = true /\
      v <> [] /\ forallb token_char v = true.
Proof.
  intros text groups. unfold Re.match_. rewrite pattern_shape.
  cbn [Re.run Re.lit].
  destruct text as [|x0 text]; [discriminate|].
  destruct (N.eqb x0 _); [|discriminate].
  destruct text as [|x1 text]; [discriminate|].
  destruct (N.eqb x1 _); [|discriminate].
  destruct text as [|x2 text]; [discriminate|].
  destruct (N.eqb x2 _); [|discriminate].
  destruct text as [|x3 text]; [discriminate|].
  destruct (N.eqb x3 _); [|discriminate].
  intros H.
  destruct (plus_class_inv _ _ _ _ _ H) as (c & rest1 & -> & Hc1 & Hc2 & H1).
  destruct rest1 as [|x4 rest1]; [discriminate H1|].
  destruct (N.eqb x4 _); [|discriminate H1].
  destruct (plus_class_inv _ _ _ _ _ H1) as (v & rest2 & -> & Hv1 & Hv2 & H2).
  destruct (run_group_free _ status_tail eq_refl _ _ _ _ H2) as (s' & H3).
  injection H3 as <-.
  rewrite (firstn_app_minus _ c), (firstn_app_minus _ v).
  exists c, v. repeat split; assumption.
Qed.

Lemma token_char_small : forall x, token_char x = true -> (x < 256)%N.
Proof.
  intros x H. unfold token_char, Utf8.between in H.
  apply orb_true_iff in H. destruct H as [H|H];
    apply andb_true_iff in H; destruct H as [_ H]; apply N.leb_le in H; lia.
Qed.

Lemma to_string_token :
  forall t, t <> [] -> forallb token_char t = true ->
    is_token (Utf8.to_string t) = true.
Proof.
  intros t Hne Hall. unfold is_token. apply andb_true_iff. split.
  - destruct t; [contradiction | reflexivity].
  - clear Hne. unfold Utf8.to_string.
    induction t as [|x t IH]; simpl in *; [reflexivity|].
    apply andb_true_iff in Hall. destruct Hall as [Hx Ht].
    rewrite token_ascii_char. unfold Utf8.byte_val.
    rewrite (N_ascii_embedding _ (token_char_small _ Hx)), Hx. simpl.
    apply IH. exact Ht.
Qed.

Lemma process_msg_translated :
  forall cb msg, Forall translated (callbacks (fst (process_msg cb msg))).
Proof.
  intros cb msg. unfold process_msg.
  destruct (Nat.ltb 0 (String.length msg)); [|constructor].
  destruct (Utf8.decode msg) as [text|e]; [|constructor].
  destruct (Re.match_ _ text) as [groups|] eqn:Em; [|constructor].
  destruct (match_status_inv _ _ Em) as (c & v & -> & Hc1 & Hc2 & Hv1 & Hv2).
  cbn [nth].
  destruct cb as [callback|]; [|constructor].
  destruct (cmd_to_element (Utf8.to_string c)) as [element|e] eqn:Ee; [|constructor].
  assert (T : translated (element, val_to_text (Utf8.to_string v))).
  { exists (Utf8.to_string c), (Utf8.to_string v).
    repeat split; [apply to_string_token | apply to_string_token | exact Ee];
      assumption. }
  destruct (callback element _); simpl; constructor; (exact T || constructor).
Qed.

Lemma callbacks_prepend :
  forall (P : string * string -> Prop) t r,
    callbacks t = [] ->
    Forall P (callbacks (fst r)) -> Forall P (callbacks (fst (prepend t r))).
Proof.
  intros P t [t0 o] Ht H. simpl in *. rewrite callbacks_app, Ht. exact H.
Qed.

Lemma callbacks_and_then :
  forall (P : string * string -> Prop) p rest,
    Forall P (callbacks (fst p)) ->
    Forall P (callbacks (fst rest)) ->
    Forall P (callbacks (fst (and_then p rest))).
Proof.
  intros P [t r] [t0 o] Hp Hr. unfold and_then. simpl in *.
  destruct r; simpl; [|exact Hp].
  rewrite callbacks_app. apply Forall_app. split; assumption.
Qed.

Lemma callbacks_probe_failed : forall e, callbacks (fst (probe_failed e)) = [].
Proof.
  intros e. unfold probe_failed.
  destruct (is_socket_timeout e); [|destruct (is_socket_error e)]; reflexivity.
Qed.

Lemma listen_callbacks :
  forall (P : string * string -> Prop) cb sr,
    (forall msg, Forall P (callbacks (fst (process_msg cb msg)))) ->
    forall recvs n, Forall P (callbacks (fst (listen cb sr n recvs))).
Proof.
  intros P cb sr HP recvs.
  induction recvs as [|r rest IH IH2] using two_step_ind; intros n.
  - constructor.
  - cbn [listen]. apply callbacks_prepend; [reflexivity|].
    destruct r as [msg|e].
    + apply callbacks_and_then; [apply HP | apply IH].
    + destruct (is_socket_timeout e).
      * apply callbacks_prepend; [reflexivity|].
        destruct (sr n) as [u|e'].
        -- destruct rest as [|[msg|e'] rest'].
           ++ constructor.
           ++ destruct (negb (contains _TEST_RTN_SUCCESS msg)).
              ** unfold invalid_reply. destruct (Utf8.decode msg); constructor.
              ** apply callbacks_and_then; [apply HP | apply (IH2 _ _ eq_refl)].
           ++ rewrite callbacks_probe_failed. constructor.
        -- rewrite callbacks_probe_failed. constructor.
      * unfold recv_failed. destruct (is_socket_error e); constructor.
Qed.

Lemma status_listener_callbacks :
  forall (P : string * string -> Prop) sock addr cb,
    (forall msg, Forall P (callbacks (fst (process_msg cb msg)))) ->
    Forall P (callbacks (fst (status_listener sock addr cb))).
Proof.
  intros P sock addr cb HP. unfold status_listener.
  apply callbacks_prepend; [reflexivity|].
  destruct (connect_result sock) as [u|e].
  - apply listen_callbacks. exact HP.
  - destruct (is_socket_error e); constructor.
Qed.

Lemma translated_canonical :
  forall ev, translated ev ->
    lower_alnum (fst ev) = true /\ is_token (snd ev) = true.
Proof.
  intros ev (c & v & Hc & Hv & He & Hs). split.
  - apply (cmd_to_element_alnum c (fst ev) Hc He).
  - rewrite Hs. apply (val_to_text_token v Hv).
Qed.

(** X4: every event the listener hands to the callback is the translation,
    by [cmd_to_element] and [val_to_text], of two tokens of the status
    pattern (non-empty strings over A-Z and 0-9): its element name is made
    of lower-case letters and digits, its value of upper-case letters and
    digits.  Without a callback no event is produced at all. *)
Theorem callback_events_are_translated_tokens :
  forall (sock : Socket) (addr : string) (cb : option handler),
    Forall (fun ev => translated ev /\
                      lower_alnum (fst ev) = true /\ is_token (snd ev) = true)
           (callbacks (fst (status_listener sock addr cb))) /\
    callbacks (fst (status_listener sock addr None)) = [].
Proof.
  intros sock addr cb. split.
  - apply status_listener_callbacks. intros msg.
    eapply Forall_impl; [|apply process_msg_translated].
    intros ev H. split; [exact H | apply translated_canonical; exact H].
  - assert (H : Forall (fun _ => False)
                  (callbacks (fst (status_listener sock addr None)))).
    { apply status_listener_callbacks. intros msg. unfold process_msg.
      destruct (Nat.ltb 0 (String.length msg)); [|constructor].
      destruct (Utf8.decode msg) as [text|e]; [|constructor].
      destruct (Re.match_ _ text); constructor. }
    destruct (callbacks _) as [|ev l]; [reflexivity|].
    inversion H as [|? ? F _]. contradiction.
Qed.

(** ** Order of delivery and tolerated noise *)

Lemma listen_whole_lines :
  forall cb sr n ls,
    Forall deliverable ls ->
    snd (listen (Some cb) sr n (map (fun l => Ok (line_bytes l)) ls)) = Listening /\
    callbacks (fst (listen (Some cb) sr n (map (fun l => Ok (line_bytes l)) ls)))
    = map line_event ls /\
    closes (fst (listen (Some cb) sr n (map (fun l => Ok (line_bytes l)) ls))) = O.
Proof.
  intros cb sr n ls H. induction H as [|[[c v] sfx] ls Hl _ IH].
  - repeat split.
  - destruct Hl as (Hc & Hv & Hs & e & He).
    cbn [map line_bytes]. rewrite listen_data.
    rewrite (process_status_line_alone cb c v sfx e Hc Hv Hs He).
    rewrite and_then_ok, prepend_app.
    destruct (listen (Some cb) sr n (map _ ls)) as [t o].
    destruct IH as (Io & Ic & Iz). simpl in Io, Ic, Iz.
    destruct (delivery_events cb e (val_to_text v)) as [Dc Dz].
    unfold prepend. cbn [fst snd]. repeat split.
    + exact Io.
    + rewrite callbacks_app. cbn [app callbacks]. rewrite Dc, Ic.
      unfold line_event. rewrite He. reflexivity.
    + rewrite closes_app. cbn [app closes]. rewrite Dz, Iz. reflexivity.
Qed.

(** X7: status lines that arrive one per read reach the callback in the
    order of the wire, one event for each line, none lost and none added,
    whatever the callback answers; the listener stays in its loop and
    leaves the socket open. *)
Theorem whole_lines_are_delivered_in_order :
  forall (cb : handler) (ls : list line_parts) (addr : string)
         (sr : nat -> result unit),
    Forall deliverable ls ->
    let r := status_listener
               (mkSocket (Ok tt) (map (fun l => Ok (line_bytes l)) ls) sr)
               addr (Some cb) in
    callbacks (fst r) = map line_event ls /\
    snd r = Listening /\
    closes (fst r) = O.
Proof.
  intros cb ls addr sr H r. subst r. unfold status_listener. cbn [connect_result recvs send_result].
  destruct (listen_whole_lines cb sr 0 ls H) as (Ho & Hc & Hz).
  destruct (listen (Some cb) sr 0 _) as [t o]. simpl in *.
  repeat split; assumption.
Qed.

Lemma whole_lines_are_delivered_in_order_witness :
  callbacks (fst (status_listener
     (mkSocket (Ok tt)
        (map (fun l => Ok (line_bytes l))
           [("CIR41", "ON", EmptyString); ("POOLTMP", "78", " F");
            ("OPMODE", "SERVICE", EmptyString)])
        always_sent)
     "pool" (Some (fun _ _ => false))))
  = [("feature1", "1"); ("pooltemp", "78"); ("opmode", "1")].
Proof.
  refine (proj1 (whole_lines_are_delivered_in_order (fun _ _ => false)
           [("CIR41", "ON", EmptyString); ("POOLTMP", "78", " F");
            ("OPMODE", "SERVICE", EmptyString)] "pool" always_sent _)).
  repeat constructor; simpl; try tauto; eexists; reflexivity.
Defined.






(** ** The status request *)

(** X9: [get_status] sends exactly one GET, to
    [http://<host>/status.xml] with the credentials of the interface and
    never a second one; a snapshot it returns always has the root tag
    "response"; and every time it returns None it has logged a warning. *)
Theorem get_status_one_request :
  forall (w : HttpWorld) (self : AutelisInterface),
    let run := get_status w self in
    http_gets (fst run)
      = [mkRequest ("http://" ++ controllerAddr self ++ "/status.xml")
                   (_userName self, _password self) 3050] /\
    (forall x, snd run = Ok (Some x) -> tag x = "response") /\
    (snd run = Ok None -> existsb is_warning (fst run) = true).
Proof.
  intros w self run. subst run. unfold get_status.
  change (status_request self) with
    (mkRequest ("http://" ++ controllerAddr self ++ "/status.xml")
               (_userName self, _password self) 3050).
  destruct (requests_get w _) as [r|e]; cbn [bind].
  - destruct (raise_for_status r) as [u|e]; cbn [bind].
    + destruct (fromstring w (resp_text r)) as [x|e].
      * destruct (String.eqb_spec (tag x) "response") as [E|E];
          repeat split; try discriminate.
        intros x' H. injection H as <-. exact E.
      * repeat split; discriminate.
    + destruct (is_transient e); repeat split; discriminate.
  - destruct (is_transient e); repeat split; discriminate.
Qed.

Lemma get_status_one_request_witness :
  existsb is_warning (fst (get_status (failing_world RequestsTimeout) sample_interface))
  = true.
Proof.
  apply (proj2 (proj2 (get_status_one_request
                         (failing_world RequestsTimeout) sample_interface))).
  reflexivity.
Defined.

(** ** The command handlers of the nodes *)

Lemma send_command_gets :
  forall w a element label value,
    http_gets (fst (send_command w a element label value))
    = [command_request a element label value].
Proof. exact send_command_one_get. Qed.

Lemma http_gets_app :
  forall t1 t2, http_gets (t1 ++ t2)%list = (http_gets t1 ++ http_gets t2)%list.
Proof.
  induction t1 as [|e t1 IH]; intros t2; simpl.
  - reflexivity.
  - destruct e; simpl; rewrite ?IH; reflexivity.
Qed.

(** What a handler built on one call of [send_command] does. *)
Lemma handler_shape :
  forall w a element label value (self changed : node) (warning : string),
    match send_command w a element label value with
    | (t, Raise e) => (t, Raise e)
    | (t, Ok true) => (t, Ok changed)
    | (t, Ok false) => ((t ++ [Log WARNING warning])%list, Ok self)
    end
    = ((fst (send_command w a element label value)
        ++ match snd (send_command w a element label value) with
           | Ok false => [Log WARNING warning]
           | _ => []
           end)%list,
       match snd (send_command w a element label value) with
       | Raise e => Raise e
       | Ok true => Ok changed
       | Ok false => Ok self
       end).
Proof.
  intros. destruct (send_command w a element label value) as [t [[|]|e]];
    simpl; rewrite ?app_nil_r; reflexivity.
Qed.



Lemma setpoint_element_table :
  forall addr name,
    setpoint_element addr = Some name <->
    In (addr, name) [("poolht", "poolsp"); ("poolht2", "poolsp2"); ("spaht", "spasp")].
Proof.
  intros addr name. unfold setpoint_element. simpl.
  destruct (String.eqb_spec addr "poolht") as [->|H1];
    [|destruct (String.eqb_spec addr "poolht2") as [->|H2];
      [|destruct (String.eqb_spec addr "spaht") as [->|H3]]];
    (split; [intros H; try discriminate H; injection H as <-; tauto|]);
    intros [H| [H| [H|[]]]]; congruence.
Qed.

Lemma existsb_warning_snoc :
  forall t s, existsb is_warning (t ++ [Log WARNING s])%list = true.
Proof.
  intros t s. rewrite existsb_app. simpl. apply orb_true_r.
Qed.

(** X11: SET_SPH on a thermostat.  A value that is no integer literal
    raises before anything is sent.  Only the nodes poolht, poolht2 and
    spaht have a set point, named poolsp, poolsp2 and spasp: for any other
    node nothing is sent and the node stays as it is.  Otherwise exactly
    one GET [name=<set point>&temp=<value>] is sent; CLISPH takes the value
    only if the pool controller accepts; if it refuses, the node is
    unchanged and a warning is logged. *)
Theorem set_temp_changes_node_only_when_accepted :
  forall (w : HttpWorld) (a : AutelisInterface) (n : node) (cv : option string),
    let run := cmd_set_temp w (Some a) n cv in
    (forall e, int_of_value cv = Raise e -> run = ([], Raise e)) /\
    (forall value, int_of_value cv = Ok value ->
       ~ In (address n) ["poolht"; "poolht2"; "spaht"] ->
       http_gets (fst run) = [] /\ snd run = Ok n) /\
    (forall value name, int_of_value cv = Ok value ->
       In (address n, name)
          [("poolht", "poolsp"); ("poolht2", "poolsp2"); ("spaht", "spasp")] ->
       let sent := send_command w a name "temp" value in
       http_gets (fst run) = [command_request a name "temp" value] /\
       (snd sent = Ok true -> snd run = Ok (setDriver n "CLISPH" value true)) /\
       (snd sent = Ok false ->
          snd run = Ok n /\ existsb is_warning (fst run) = true) /\
       (forall e, snd sent = Raise e -> snd run = Raise e)).
Proof.
  intros w a n cv run. subst run. unfold cmd_set_temp. split; [|split].
  - intros e ->. reflexivity.
  - intros value -> Hout.
    destruct (setpoint_element (address n)) as [name|] eqn:E.
    + exfalso. apply Hout. apply setpoint_element_table in E. simpl in *.
      destruct E as [E| [E| [E|[]]]]; injection E as <- _; tauto.
    + split; reflexivity.
  - intros value name -> Hin. cbv zeta.
    apply setpoint_element_table in Hin. rewrite Hin.
    unfold set_temp. rewrite handler_shape. cbn [fst snd].
    split; [|split; [|split]].
    + rewrite http_gets_app, send_command_gets.
      destruct (snd (send_command w a name "temp" value)) as [[|]|e]; reflexivity.
    + intros ->. reflexivity.
    + intros ->. split; [reflexivity | apply existsb_warning_snoc].
    + intros e ->. reflexivity.
Qed.

Lemma set_temp_changes_node_only_when_accepted_witness :
  cmd_set_temp (failing_world RequestsTimeout) (Some sample_interface)
    sample_pool (Some "8x") = ([], Raise ValueError) /\
  snd (cmd_set_temp (failing_world RequestsTimeout) (Some sample_interface)
         sample_equipment (Some "84")) = Ok sample_equipment /\
  snd (cmd_set_temp (answering_world 200 (Raise XMLParseError)) (Some sample_interface)
         sample_pool (Some "84")) = Ok (setDriver sample_pool "CLISPH" 84 true) /\
  snd (cmd_set_temp (failing_world RequestsTimeout) (Some sample_interface)
         sample_pool (Some "84")) = Ok sample_pool.
Proof.
  split; [|split; [|split]].
  - apply (proj1 (set_temp_changes_node_only_when_accepted
                    (failing_world RequestsTimeout) sample_interface
                    sample_pool (Some "8x")) ValueError).
    reflexivity.
  - refine (proj2 (proj1 (proj2 (set_temp_changes_node_only_when_accepted
                    (failing_world RequestsTimeout) sample_interface
                    sample_equipment (Some "84"))) 84 eq_refl _)).
    simpl. intuition discriminate.
  - refine (proj1 (proj2 (proj2 (proj2 (set_temp_changes_node_only_when_accepted
                    (answering_world 200 (Raise XMLParseError)) sample_interface
                    sample_pool (Some "84"))) 84 "poolsp" eq_refl _)) eq_refl).
    simpl. tauto.
  - refine (proj1 (proj1 (proj2 (proj2 (proj2 (proj2
              (set_temp_changes_node_only_when_accepted
                 (failing_world RequestsTimeout) sample_interface
                 sample_pool (Some "84"))) 84 "poolsp" eq_refl _))) eq_refl)).
    simpl. tauto.
Defined.

Lemma setDriver_twice :
  forall n name v v' r r',
    setDriver (setDriver n name v r) name v' r' = setDriver n name v' r'.
Proof.
  intros n name v v' r r'. unfold setDriver. simpl. f_equal.
  induction (drivers n) as [|d ds IH]; simpl; [reflexivity|].
  destruct (String.eqb_spec (d_name d) name) as [E|E]; simpl.
  - rewrite E, String.eqb_refl. reflexivity.
  - destruct (String.eqb_spec (d_name d) name); [contradiction|].
    rewrite IH. reflexivity.
Qed.

(** X12: DON and DOF on an equipment node send exactly one GET,
    [name=<address>&value=1] or [value=0].  When the pool controller
    accepts the command, the node comes back with ST set to 1 or 0; when it
    refuses, the node comes back unchanged and a warning is logged; an
    exception of the request is raised again.  A DOF that is accepted
    after a DON, accepted or not, leaves the node exactly as the DOF alone
    does, with ST 0 where the node has that driver: the last command
    wins. *)
Theorem equipment_switch_changes_node_only_when_accepted :
  forall (w : HttpWorld) (a : AutelisInterface) (n : node),
    let don := cmd_don w (Some a) n in
    let dof := cmd_dof w (Some a) n in
    let sent_on := snd (send_command w a (address n) "value" 1) in
    let sent_off := snd (send_command w a (address n) "value" 0) in
    http_gets (fst don) = [command_request a (address n) "value" 1] /\
    http_gets (fst dof) = [command_request a (address n) "value" 0] /\
    (sent_on = Ok true -> snd don = Ok (setDriver n "ST" 1 true)) /\
    (sent_on = Ok false ->
       snd don = Ok n /\ existsb is_warning (fst don) = true) /\
    (forall e, sent_on = Raise e -> snd don = Raise e) /\
    (sent_off = Ok true -> snd dof = Ok (setDriver n "ST" 0 true)) /\
    (sent_off = Ok false ->
       snd dof = Ok n /\ existsb is_warning (fst dof) = true) /\
    (forall e, sent_off = Raise e -> snd dof = Raise e) /\
    (forall n1, snd don = Ok n1 -> sent_off = Ok true ->
       snd (cmd_dof w (Some a) n1) = snd dof /\
       (getDriver n "ST" <> None ->
        exists n2, snd (cmd_dof w (Some a) n1) = Ok n2 /\
                   getDriver n2 "ST" = Some 0)).
Proof.
  intros w a n don dof sent_on sent_off. subst don dof sent_on sent_off.
  unfold cmd_don, cmd_dof, on, off, _AUTELIS_ON_VALUE, _AUTELIS_OFF_VALUE.
  rewrite !handler_shape.
  cbn [fst snd]. rewrite !http_gets_app, !send_command_gets.
  split; [|split; [|split; [|split; [|split; [|split; [|split; [|split]]]]]]].
  - destruct (snd (send_command w a (address n) "value" 1))
      as [[|]|e]; reflexivity.
  - destruct (snd (send_command w a (address n) "value" 0))
      as [[|]|e]; reflexivity.
  - intros ->. reflexivity.
  - intros ->. split; [reflexivity|]. apply existsb_warning_snoc.
  - intros e ->. reflexivity.
  - intros ->. reflexivity.
  - intros ->. split; [reflexivity|]. apply existsb_warning_snoc.
  - intros e ->. reflexivity.
  - intros n1 H1 H0.
    assert (Ha : address n1 = address n).
    { destruct (snd (send_command w a (address n) "value" 1))
        as [[|]|e]; try discriminate H1; injection H1 as <-; reflexivity. }
    assert (Hn1 : setDriver n1 "ST" 0 true = setDriver n "ST" 0 true).
    { destruct (snd (send_command w a (address n) "value" 1))
        as [[|]|e]; try discriminate H1; injection H1 as <-;
        [apply setDriver_twice | reflexivity]. }
    rewrite handler_shape. cbn [snd]. rewrite Ha, H0, Hn1.
    split; [reflexivity|].
    intros Hst. eexists. split; [reflexivity|].
    apply getDriver_setDriver_same. exact Hst.
Qed.

Lemma equipment_switch_changes_node_only_when_accepted_witness :
  let w := answering_world 200 (Raise XMLParseError) in
  exists n1 n2,
    snd (cmd_don w (Some sample_interface) sample_equipment) = Ok n1 /\
    getDriver n1 "ST" = Some 1 /\
    snd (cmd_dof w (Some sample_interface) n1) = Ok n2 /\
    getDriver n2 "ST" = Some 0.
Proof.
  intros w.
  destruct (equipment_switch_changes_node_only_when_accepted
              w sample_interface sample_equipment)
    as (_ & _ & Hon & _ & _ & _ & _ & _ & Hboth).
  specialize (Hon eq_refl).
  destruct (Hboth _ Hon eq_refl) as (_ & Hst).
  destruct Hst as (n2 & H2 & Hv); [discriminate|].
  exists (setDriver sample_equipment "ST" 1 true), n2.
  split; [exact Hon|]. split; [reflexivity|]. split; [exact H2 | exact Hv].
Defined.

(** ** The controller: what its methods leave alone *)

Section Keeps.
Variable R : Controller -> Controller -> Prop.
Hypothesis R_refl : forall c, R c c.
Hypothesis R_trans : forall c1 c2 c3, R c1 c2 -> R c2 c3 -> R c1 c3.

Lemma keeps_ret : forall (A : Type) (a : A), keeps R (ret a).
Proof. intros A a c. apply R_refl. Qed.

Lemma keeps_lift : forall (A : Type) (r : result A), keeps R (lift r).
Proof. intros A r c. apply R_refl. Qed.

Lemma keeps_emit : forall e, keeps R (emit e).
Proof. intros e c. apply R_refl. Qed.

Lemma keeps_net : forall (A : Type) (p : trace * result A), keeps R (net p).
Proof. intros A p c. apply R_refl. Qed.

Lemma keeps_gets : forall (A : Type) (f : Controller -> A), keeps R (gets f).
Proof. intros A f c. apply R_refl. Qed.

Lemma keeps_modify :
  forall f, (forall c, R c (f c)) -> keeps R (modify f).
Proof. intros f H c. apply H. Qed.

Lemma keeps_bind :
  forall (A B : Type) (m : Hub A) (k : A -> Hub B),
    keeps R m -> (forall a, keeps R (k a)) -> keeps R (bindH m k).
Proof.
  intros A B m k Hm Hk c. unfold bindH.
  specialize (Hm c). destruct (m c) as [[t c'] [a|e]]; simpl in *.
  - specialize (Hk a c'). destruct (k a c') as [[t' c''] r]. simpl in *.
    apply (R_trans _ _ _ Hm Hk).
  - exact Hm.
Qed.

Lemma keeps_for_each :
  forall (A : Type) (body : A -> Hub unit) (l : list A),
    (forall x, keeps R (body x)) -> keeps R (for_each body l).
Proof.
  intros A body l H. induction l as [|x l IH]; simpl.
  - apply keeps_ret.
  - apply keeps_bind; [apply H | intros _; exact IH].
Qed.

Lemma keeps_reader :
  forall (A B : Type) (f : Controller -> A) (m : A -> Hub B),
    (forall a, keeps R (m a)) -> keeps R (fun c => m (f c) c).
Proof. intros A B f m H c. apply (H (f c) c). Qed.
End Keeps.

Lemma Forall2_refl :
  forall (A : Type) (P : A -> A -> Prop),
    (forall x, P x x) -> forall l, Forall2 P l l.
Proof. intros A P H l. induction l; constructor; auto. Qed.

Lemma Forall2_trans :
  forall (A : Type) (P : A -> A -> Prop),
    (forall x y z, P x y -> P y z -> P x z) ->
    forall l1 l2 l3, Forall2 P l1 l2 -> Forall2 P l2 l3 -> Forall2 P l1 l3.
Proof.
  intros A P H l1 l2 l3 H12. revert l3.
  induction H12 as [|x y l1 l2 Hxy _ IH]; intros l3 H23; inversion H23; subst.
  - constructor.
  - constructor; [eapply H; eassumption | apply IH; assumption].
Qed.

Lemma Forall2_update_nth :
  forall (A : Type) (P : A -> A -> Prop) (f : A -> A),
    (forall x, P x x) -> (forall x, P x (f x)) ->
    forall i l, Forall2 P l (update_nth i f l).
Proof.
  intros A P f Hr Hf i l. revert i.
  induction l as [|x l IH]; intros [|i]; simpl; try constructor; auto.
  apply Forall2_refl. exact Hr.
Qed.

Lemma same_class_refl : forall o, same_class o o.
Proof. intros []; exact I. Qed.

Lemma same_class_trans :
  forall o1 o2 o3, same_class o1 o2 -> same_class o2 o3 -> same_class o1 o3.
Proof. intros [] [] []; simpl; tauto. Qed.

Lemma obj_shape_refl : forall o, obj_shape o o.
Proof. intros o. repeat split. apply same_class_refl. Qed.

Lemma obj_shape_trans :
  forall o1 o2 o3, obj_shape o1 o2 -> obj_shape o2 o3 -> obj_shape o1 o3.
Proof.
  intros o1 o2 o3 (C1 & A1 & N1) (C2 & A2 & N2). repeat split.
  - eapply same_class_trans; eassumption.
  - congruence.
  - congruence.
Qed.

Lemma obj_values_refl : forall o, obj_values o o.
Proof. intros o. split; [apply obj_shape_refl | reflexivity]. Qed.

Lemma obj_values_trans :
  forall o1 o2 o3, obj_values o1 o2 -> obj_values o2 o3 -> obj_values o1 o3.
Proof.
  intros o1 o2 o3 [S1 V1] [S2 V2]. split.
  - eapply obj_shape_trans; eassumption.
  - congruence.
Qed.

Lemma same_frame_refl : forall c, same_frame c c.
Proof. intros c. repeat split. Qed.

Lemma same_frame_trans :
  forall c1 c2 c3, same_frame c1 c2 -> same_frame c2 c3 -> same_frame c1 c3.
Proof.
  intros c1 c2 c3 (A1 & B1 & C1 & D1 & E1) (A2 & B2 & C2 & D2 & E2).
  repeat split; congruence.
Qed.

Lemma same_shape_refl : forall c, same_shape c c.
Proof.
  intros c. split; [apply same_frame_refl|].
  apply Forall2_refl. exact obj_shape_refl.
Qed.

Lemma same_shape_trans :
  forall c1 c2 c3, same_shape c1 c2 -> same_shape c2 c3 -> same_shape c1 c3.
Proof.
  intros c1 c2 c3 [F1 O1] [F2 O2]. split.
  - eapply same_frame_trans; eassumption.
  - eapply Forall2_trans; [exact obj_shape_trans | eassumption | eassumption].
Qed.

Lemma same_values_refl : forall c, same_values c c.
Proof.
  intros c. split; [apply same_frame_refl|].
  apply Forall2_refl. exact obj_values_refl.
Qed.

Lemma same_values_trans :
  forall c1 c2 c3, same_values c1 c2 -> same_values c2 c3 -> same_values c1 c3.
Proof.
  intros c1 c2 c3 [F1 O1] [F2 O2]. split.
  - eapply same_frame_trans; eassumption.
  - eapply Forall2_trans; [exact obj_values_trans | eassumption | eassumption].
Qed.

Lemma same_values_shape : forall c c', same_values c c' -> same_shape c c'.
Proof.
  intros c c' [F O]. split; [exact F|].
  eapply Forall2_impl; [|exact O]. intros o o' [H _]. exact H.
Qed.

Lemma set_first_names :
  forall name v ds, map d_name (set_first name v ds) = map d_name ds.
Proof.
  induction ds as [|d ds IH]; simpl; [reflexivity|].
  destruct (String.eqb (d_name d) name); simpl; [reflexivity|].
  rewrite IH. reflexivity.
Qed.

Lemma obj_with_shape :
  forall f o,
    address (f (obj_node o)) = address (obj_node o) ->
    map d_name (drivers (f (obj_node o))) = map d_name (drivers (obj_node o)) ->
    obj_shape o (obj_with f o).
Proof. intros f [n|id n|n] Ha Hn; repeat split; assumption. Qed.

Lemma setDriver_shape :
  forall n name v r,
    address (setDriver n name v r) = address n /\
    map d_name (drivers (setDriver n name v r)) = map d_name (drivers n).
Proof. intros. split; [reflexivity | apply set_first_names]. Qed.

Lemma update_thermo_drivers_shape :
  forall n s h r,
    address (update_thermo_drivers n s h r) = address n /\
    map d_name (drivers (update_thermo_drivers n s h r)) = map d_name (drivers n).
Proof.
  intros n s h r. rewrite update_thermo_drivers_unfold. cbv zeta.
  unfold with_mode.
  repeat match goal with
         | |- context [if ?b then _ else _] => destruct b
         end;
    split; simpl; rewrite ?set_first_names; reflexivity.
Qed.

Lemma relabel_names_values :
  forall names u ds,
    map d_name (relabel names u ds) = map d_name ds /\
    map d_value (relabel names u ds) = map d_value ds.
Proof.
  intros names u ds. unfold relabel.
  induction ds as [|d ds [IH1 IH2]]; simpl; [split; reflexivity|].
  rewrite IH1, IH2. destruct (name_in names (d_name d)); split; reflexivity.
Qed.

Lemma update_object_shape :
  forall ref f c,
    (forall o, obj_shape o (f o)) -> same_shape c (update_object ref f c).
Proof.
  intros ref f c H. split; [repeat split|]. simpl.
  apply Forall2_update_nth; [exact obj_shape_refl | exact H].
Qed.

Lemma update_object_values :
  forall ref f c,
    (forall o, obj_values o (f o)) -> same_values c (update_object ref f c).
Proof.
  intros ref f c H. split; [repeat split|]. simpl.
  apply Forall2_update_nth; [exact obj_values_refl | exact H].
Qed.

Lemma with_unit_values : forall c u, same_values c (with_unit c u).
Proof.
  intros c u. split; [repeat split|]. simpl.
  apply Forall2_refl. exact obj_values_refl.
Qed.

Lemma keeps_obj_setDriver :
  forall ref name v r, keeps same_shape (obj_setDriver ref name v r).
Proof.
  intros ref name v r. apply keeps_modify. intros c.
  apply update_object_shape. intros o.
  apply obj_with_shape; apply setDriver_shape.
Qed.

Lemma keeps_self_setDriver :
  forall name v r, keeps same_shape (self_setDriver name v r).
Proof.
  intros name v r c. apply (keeps_obj_setDriver (self_ref c) name v r c).
Qed.

Lemma keeps_obj_update_thermo :
  forall ref s h r, keeps same_shape (obj_update_thermo_drivers ref s h r).
Proof.
  intros ref s h r c. unfold obj_update_thermo_drivers.
  destruct (nth_error (objects c) ref) as [[n|id n|n]|];
    try apply same_shape_refl.
  apply update_object_shape. intros o.
  apply obj_with_shape; apply update_thermo_drivers_shape.
Qed.

Lemma relabel_obj_values :
  forall names u o,
    obj_values o (obj_with (fun n => mkNode (address n)
                                       (relabel names u (drivers n))) o).
Proof.
  intros names u o. destruct (relabel_names_values names u (drivers (obj_node o)))
    as [Hn Hv].
  destruct o as [n|id n|n]; repeat split; assumption.
Qed.

Lemma set_unit_of_values : forall u o, obj_values o (set_unit_of u o).
Proof.
  intros u [n|id n|n]; try apply obj_values_refl.
  destruct (relabel_names_values ["ST"; "CLISPH"; "CLISPC"] u (drivers n))
    as [Hn Hv].
  repeat split; assumption.
Qed.

Lemma keeps_Controller_set_temp_unit :
  forall u, keeps same_values (Controller_set_temp_unit u).
Proof.
  intros u c. unfold Controller_set_temp_unit.
  apply (keeps_bind same_values same_values_trans).
  - apply keeps_modify. intros c0. apply update_object_values.
    apply relabel_obj_values.
  - intros _. apply (keeps_bind same_values same_values_trans).
    + apply keeps_emit. exact same_values_refl.
    + intros _. apply keeps_modify. intros c0. apply with_unit_values.
Qed.

Lemma keeps_change_node_unit :
  forall u addr, keeps same_values (change_node_unit u addr).
Proof.
  intros u addr c. unfold change_node_unit.
  destruct (dict_get addr (nodes c)) as [ref|]; [|apply same_values_refl].
  destruct (nth_error (objects c) ref) as [[n|id n|n]|];
    try apply same_values_refl.
  destruct (name_in _ id); [|apply same_values_refl].
  apply (keeps_bind same_values same_values_trans).
  - apply keeps_modify. intros c0. apply update_object_values.
    apply set_unit_of_values.
  - intros _. apply keeps_emit. exact same_values_refl.
Qed.

Lemma keeps_change_temp_units :
  forall u, keeps same_values (change_temp_units u).
Proof.
  intros u c. unfold change_temp_units.
  apply (keeps_bind same_values same_values_trans).
  - apply (keeps_for_each same_values same_values_refl same_values_trans).
    apply keeps_change_node_unit.
  - intros _. apply keeps_Controller_set_temp_unit.
Qed.

Lemma keeps_weaken :
  forall (A : Type) (m : Hub A), keeps same_values m -> keeps same_shape m.
Proof. intros A m H c. apply same_values_shape. apply H. Qed.

Lemma keeps_node_ref : forall addr, keeps same_shape (node_ref addr).
Proof.
  intros addr c. unfold node_ref.
  destruct (dict_get addr (nodes c)); apply same_shape_refl.
Qed.

Ltac keeps_shape :=
  repeat first
    [ apply keeps_node_ref
    | apply (keeps_bind same_shape same_shape_trans); [|intros ?]
    | apply (keeps_lift same_shape same_shape_refl)
    | apply (keeps_emit same_shape same_shape_refl)
    | apply (keeps_net same_shape same_shape_refl)
    | apply (keeps_gets same_shape same_shape_refl)
    | apply (keeps_ret same_shape same_shape_refl)
    | apply keeps_obj_setDriver
    | apply keeps_self_setDriver
    | apply keeps_obj_update_thermo ].

Lemma keeps_update_thermostat :
  forall temp addr a b d r, keeps same_shape (update_thermostat temp addr a b d r).
Proof.
  intros temp addr a b d r. unfold update_thermostat. keeps_shape.
Qed.

Lemma keeps_update_equipment :
  forall r element, keeps same_shape (update_equipment r element).
Proof.
  intros r element c. unfold update_equipment.
  destruct (dict_get (tag element) (nodes c)) as [ref|].
  - revert c. keeps_shape.
  - apply same_shape_refl.
Qed.

Lemma keeps_get_autelis : keeps same_shape get_autelis.
Proof.
  intros c. unfold get_autelis. destruct (autelis c); apply same_shape_refl.
Qed.

Lemma keeps_update_node_states :
  forall w report, keeps same_shape (update_node_states w report).
Proof.
  intros w report. unfold update_node_states.
  apply (keeps_bind same_shape same_shape_trans); [apply keeps_get_autelis|].
  intros a. apply (keeps_bind same_shape same_shape_trans);
    [apply (keeps_net same_shape same_shape_refl)|].
  intros [x|].
  - keeps_shape.
    + destruct (option_string_eqb _ _).
      * apply (keeps_ret same_shape same_shape_refl).
      * apply keeps_weaken. apply keeps_change_temp_units.
    + apply (keeps_for_each same_shape same_shape_refl same_shape_trans).
      apply keeps_update_equipment.
  - keeps_shape.
Qed.

(** X13: [update_node_states] never adds, removes or replaces a node or a
    driver, however it ends (also when it raises half way): [self.nodes],
    the interface and the settings are as before, and every object of the
    store is still of the same class, with the same address and the same
    list of driver names.  Only values, units and node definition ids can
    change. *)
Theorem update_node_states_keeps_nodes_and_drivers :
  forall (w : HttpWorld) (report : bool) (c : Controller),
    let c' := snd (fst (update_node_states w report c)) in
    nodes c' = nodes c /\ self_ref c' = self_ref c /\
    autelis c' = autelis c /\ pollingInterval c' = pollingInterval c /\
    ignoresolar c' = ignoresolar c /\
    length (objects c') = length (objects c) /\
    Forall2 obj_shape (objects c) (objects c').
Proof.
  intros w report c c'. subst c'.
  destruct (keeps_update_node_states w report c) as [(A & B & C & D & E) O].
  repeat split; try assumption.
  symmetry. apply (Forall2_length O).
Qed.

(** ** The controller: a status update step by step *)

Lemma runs_bind :
  forall (A B : Type) (m : Hub A) (k : A -> Hub B) c c' b,
    runs (bindH m k) c c' b ->
    exists c1 a, runs m c c1 a /\ runs (k a) c1 c' b.
Proof.
  intros A B m k c c' b [t H]. unfold bindH in H.
  destruct (m c) as [[t1 c1] [a|e]] eqn:Em; [|discriminate H].
  destruct (k a c1) as [[t2 c2] r] eqn:E.
  injection H as _ <- ->.
  exists c1, a. split; [exists t1; exact Em | exists t2; exact E].
Qed.

Lemma bindH_ok_eq :
  forall (A B : Type) (m : Hub A) (k : A -> Hub B) c t c1 a,
    m c = (t, c1, Ok a) ->
    bindH m k c = match k a c1 with (t', c2, r) => ((t ++ t')%list, c2, r) end.
Proof. intros A B m k c t c1 a H. unfold bindH. rewrite H. reflexivity. Qed.

Lemma runs_lift :
  forall (A : Type) (r : result A) c c' a,
    runs (lift r) c c' a -> r = Ok a /\ c' = c.
Proof. intros A r c c' a [t H]. injection H as _ <- ->. split; reflexivity. Qed.

Lemma runs_gets :
  forall (A : Type) (f : Controller -> A) c c' a,
    runs (gets f) c c' a -> a = f c /\ c' = c.
Proof. intros A f c c' a [t H]. injection H as _ <- <-. split; reflexivity. Qed.

Lemma runs_modify :
  forall f c c' u, runs (modify f) c c' u -> c' = f c.
Proof. intros f c c' u [t H]. injection H as _ <-. reflexivity. Qed.

Lemma runs_net :
  forall (A : Type) (p : trace * result A) c c' a,
    runs (net p) c c' a -> snd p = Ok a /\ c' = c.
Proof. intros A p c c' a [t H]. injection H as _ <- ->. split; reflexivity. Qed.

Lemma runs_keeps :
  forall (A : Type) (R : Controller -> Controller -> Prop) (m : Hub A) c c' a,
    keeps R m -> runs m c c' a -> R c c'.
Proof.
  intros A R m c c' a H [t E]. specialize (H c). rewrite E in H. exact H.
Qed.

Lemma nth_error_update_nth :
  forall (A : Type) (f : A -> A) (l : list A) (i j : nat),
    nth_error (update_nth i f l) j
    = if Nat.eqb i j then option_map f (nth_error l j) else nth_error l j.
Proof.
  intros A f l. induction l as [|x l IH]; intros [|i] [|j]; simpl;
    try reflexivity.
  - destruct (Nat.eqb i j); reflexivity.
  - apply IH.
Qed.

Lemma obj_driver_update :
  forall c ref f ref' name,
    obj_driver (update_object ref (obj_with f) c) ref' name
    = if Nat.eqb ref ref'
      then match nth_error (objects c) ref' with
           | Some o => getDriver (f (obj_node o)) name
           | None => None
           end
      else obj_driver c ref' name.
Proof.
  intros c ref f ref' name. unfold obj_driver, update_object. simpl.
  rewrite nth_error_update_nth.
  destruct (Nat.eqb ref ref'); [|reflexivity].
  destruct (nth_error (objects c) ref') as [[n|id n|n]|]; reflexivity.
Qed.

Lemma obj_driver_set_same :
  forall c ref name v r,
    obj_driver c ref name <> None ->
    obj_driver (update_object ref (obj_with (fun n => setDriver n name v r)) c)
               ref name = Some v.
Proof.
  intros c ref name v r H. rewrite obj_driver_update, Nat.eqb_refl.
  unfold obj_driver in H. destruct (nth_error (objects c) ref) as [o|];
    [|contradiction].
  apply getDriver_setDriver_same. exact H.
Qed.

Lemma obj_driver_set_other :
  forall c ref name v r ref' name',
    name <> name' ->
    obj_driver (update_object ref (obj_with (fun n => setDriver n name v r)) c)
               ref' name' = obj_driver c ref' name'.
Proof.
  intros c ref name v r ref' name' H. rewrite obj_driver_update.
  destruct (Nat.eqb ref ref'); [|reflexivity].
  unfold obj_driver. destruct (nth_error (objects c) ref') as [o|]; [|reflexivity].
  apply getDriver_setDriver_other. exact H.
Qed.

Lemma keeps_driver_refl : forall name c, keeps_driver name c c.
Proof. intros name c. repeat split. Qed.

Lemma keeps_driver_trans :
  forall name c1 c2 c3,
    keeps_driver name c1 c2 -> keeps_driver name c2 c3 -> keeps_driver name c1 c3.
Proof.
  intros name c1 c2 c3 (S1 & N1 & D1) (S2 & N2 & D2).
  split; [congruence | split; [congruence | intros ref; rewrite D2; apply D1]].
Qed.

Lemma keeps_driver_setDriver :
  forall name ref name' v r,
    name' <> name -> keeps (keeps_driver name) (obj_setDriver ref name' v r).
Proof.
  intros name ref name' v r H. apply keeps_modify. intros c.
  repeat split. intros ref'. apply obj_driver_set_other. exact H.
Qed.

Lemma keeps_driver_self_setDriver :
  forall name name' v r,
    name' <> name -> keeps (keeps_driver name) (self_setDriver name' v r).
Proof.
  intros name name' v r H c.
  apply (keeps_driver_setDriver name (self_ref c) name' v r H c).
Qed.

Lemma getDriver_update_thermo_other :
  forall n s h r name,
    name <> "CLIMD" -> name <> "CLIHCS" ->
    getDriver (update_thermo_drivers n s h r) name = getDriver n name.
Proof.
  intros n s h r name H1 H2. rewrite update_thermo_drivers_unfold. cbv zeta.
  unfold with_mode.
  repeat match goal with
         | |- context [if ?b then _ else _] => destruct b
         end;
    rewrite ?getDriver_setDriver_other by congruence; reflexivity.
Qed.

Lemma keeps_driver_thermo :
  forall name ref s h r,
    name <> "CLIMD" -> name <> "CLIHCS" ->
    keeps (keeps_driver name) (obj_update_thermo_drivers ref s h r).
Proof.
  intros name ref s h r H1 H2 c. unfold obj_update_thermo_drivers.
  destruct (nth_error (objects c) ref) as [[n|id n|n]|] eqn:E;
    try apply keeps_driver_refl.
  repeat split. intros ref'. simpl. rewrite obj_driver_update.
  destruct (Nat.eqb_spec ref ref') as [<-|Hne]; [|reflexivity].
  unfold obj_driver. rewrite E. simpl.
  apply getDriver_update_thermo_other; assumption.
Qed.

Lemma find_driver_names_values :
  forall ds ds' name,
    map d_name ds' = map d_name ds -> map d_value ds' = map d_value ds ->
    find_driver name ds' = find_driver name ds.
Proof.
  induction ds as [|d ds IH]; intros [|d' ds'] name Hn Hv;
    try discriminate; [reflexivity|].
  simpl in *. injection Hn as En Hn. injection Hv as Ev Hv.
  rewrite En, Ev, (IH ds' name Hn Hv). reflexivity.
Qed.

Lemma same_values_driver :
  forall c c' name, same_values c c' -> keeps_driver name c c'.
Proof.
  intros c c' name [(S & N & _) O]. repeat split; try assumption.
  intros ref. unfold obj_driver.
  revert ref. induction O as [|o o' l l' [[_ [_ Hn]] Hv] _ IH]; intros [|ref];
    simpl; try reflexivity.
  - unfold getDriver. apply find_driver_names_values; assumption.
  - apply IH.
Qed.

Lemma keeps_node_ref_driver :
  forall name addr, keeps (keeps_driver name) (node_ref addr).
Proof.
  intros name addr c. unfold node_ref.
  destruct (dict_get addr (nodes c)); apply keeps_driver_refl.
Qed.

Ltac keeps_drv name :=
  repeat first
    [ apply keeps_node_ref_driver
    | apply (keeps_bind (keeps_driver name) (keeps_driver_trans name)); [|intros ?]
    | apply (keeps_lift (keeps_driver name) (keeps_driver_refl name))
    | apply (keeps_emit (keeps_driver name) (keeps_driver_refl name))
    | apply (keeps_net (keeps_driver name) (keeps_driver_refl name))
    | apply (keeps_gets (keeps_driver name) (keeps_driver_refl name))
    | apply (keeps_ret (keeps_driver name) (keeps_driver_refl name))
    | apply keeps_driver_setDriver; congruence
    | apply keeps_driver_self_setDriver; congruence
    | apply keeps_driver_thermo; congruence ].

Lemma keeps_driver_values :
  forall (A : Type) (m : Hub A) name,
    keeps same_values m -> keeps (keeps_driver name) m.
Proof. intros A m name H c. apply same_values_driver. apply H. Qed.

Lemma keeps_driver_update_thermostat :
  forall name temp addr a b d r,
    name <> "ST" -> name <> "CLISPH" -> name <> "CLIMD" -> name <> "CLIHCS" ->
    keeps (keeps_driver name) (update_thermostat temp addr a b d r).
Proof.
  intros name temp addr a b d r H1 H2 H3 H4.
  unfold update_thermostat. keeps_drv name.
Qed.

Lemma keeps_driver_update_equipment :
  forall name r element,
    name <> "ST" -> keeps (keeps_driver name) (update_equipment r element).
Proof.
  intros name r element H c. unfold update_equipment.
  destruct (dict_get (tag element) (nodes c)) as [ref|].
  - revert c. keeps_drv name.
  - apply keeps_driver_refl.
Qed.

Lemma runs_peel :
  forall (A B : Type) (K : Controller -> Controller -> Prop)
         (m : Hub A) (k : A -> Hub B) c c' b,
    keeps K m -> runs (bindH m k) c c' b ->
    exists c1 a, K c c1 /\ runs (k a) c1 c' b.
Proof.
  intros A B K m k c c' b Hk H.
  destruct (runs_bind _ _ _ _ _ _ _ H) as (c1 & a & H1 & H2).
  exists c1, a. split; [apply (runs_keeps _ K m c c1 a Hk H1) | exact H2].
Qed.

Lemma runs_hit :
  forall (B : Type) name v r (k : unit -> Hub B) c c' b,
    runs (bindH (self_setDriver name v r) k) c c' b ->
    self_driver c name <> None ->
    (forall u, keeps (keeps_driver name) (k u)) ->
    self_driver c' name = Some v.
Proof.
  intros B name v r k c c' b H Hpresent Hk.
  destruct (runs_bind _ _ _ _ _ _ _ H) as (c1 & u & H1 & H2).
  apply runs_modify in H1.
  destruct (runs_keeps _ _ _ _ _ _ (Hk u) H2) as (S & _ & D).
  unfold self_driver. rewrite S, D. subst c1. simpl.
  apply obj_driver_set_same. exact Hpresent.
Qed.

Lemma runs_get_autelis :
  forall c c' a a', autelis c = Some a -> runs get_autelis c c' a' -> a' = a /\ c' = c.
Proof.
  intros c c' a a' Ha [t H]. unfold get_autelis in H. rewrite Ha in H.
  injection H as _ <- <-. split; reflexivity.
Qed.

Lemma self_driver_kept :
  forall name c c',
    keeps_driver name c c' -> self_driver c name <> None ->
    self_driver c' name <> None.
Proof.
  intros name c c' (S & _ & D) H. unfold self_driver. rewrite S, D. exact H.
Qed.

Ltac peel name H P :=
  let c1 := fresh "c" in
  let u := fresh "u" in
  let K := fresh "K" in
  apply (runs_peel _ _ (keeps_driver name)) in H;
  [ destruct H as (c1 & u & K & H);
    apply (self_driver_kept name _ _ K) in P; clear K
  | solve [keeps_drv name] ].

Ltac suffix_keeps name :=
  intros;
  repeat first
    [ apply keeps_driver_update_thermostat; discriminate
    | apply (keeps_for_each (keeps_driver name)
               (keeps_driver_refl name) (keeps_driver_trans name));
      intros; apply keeps_driver_update_equipment; discriminate
    | apply (keeps_bind (keeps_driver name) (keeps_driver_trans name)); [|intros ?]
    | apply (keeps_lift (keeps_driver name) (keeps_driver_refl name))
    | apply keeps_driver_self_setDriver; discriminate ].

Ltac controller_case name H P :=
  repeat peel name H P;
  eapply (runs_hit _ name); [exact H | exact P | suffix_keeps name].

(** X14: the controller's own drivers after a status update.  When the
    status request fails in a tolerated way, GV0 is set to 0, nothing else
    changes and nothing is raised.  When the update runs to its end on a
    snapshot, each of GV0..GV5, CLITEMP and GV9 holds the integer read from
    its field of the snapshot (runstate, opmode, freeze, sensor1..3 of
    [system]; airtemp and soltemp of [temp]), whatever the thermostat and
    equipment part of the snapshot says. *)
Theorem update_node_states_controller_drivers :
  forall (w : HttpWorld) (report : bool) (c : Controller) (a : AutelisInterface),
    autelis c = Some a ->
    (snd (get_status w a) = Ok None ->
       snd (update_node_states w report c) = Ok tt /\
       snd (fst (update_node_states w report c))
       = update_object (self_ref c)
           (obj_with (fun n => setDriver n "GV0" 0 report)) c) /\
    (forall x t c' drv parent field,
       snd (get_status w a) = Ok (Some x) ->
       update_node_states w report c = (t, c', Ok tt) ->
       In (drv, parent, field) controller_fields ->
       self_driver c drv <> None ->
       exists v, find_int (XML.find x parent) field = Ok v /\
                 self_driver c' drv = Some v).
Proof.
  intros w report c a Ha. split.
  - intros Hs. unfold update_node_states.
    rewrite (bindH_ok_eq _ _ _ _ c [] c a)
      by (unfold get_autelis; rewrite Ha; reflexivity).
    rewrite (bindH_ok_eq _ _ _ _ c (map Net (fst (get_status w a))) c None)
      by (unfold net; rewrite Hs; reflexivity).
    split; reflexivity.
  - intros x t c' drv parent field Hs Hrun Hin Hpresent.
    assert (H : runs (update_node_states w report) c c' tt) by (exists t; exact Hrun).
    clear Hrun. unfold update_node_states in H.
    apply runs_bind in H. destruct H as (c0 & a' & H0 & H).
    destruct (runs_get_autelis _ _ _ _ Ha H0) as [-> ->]. clear H0.
    apply runs_bind in H. destruct H as (c0 & sx & H0 & H).
    apply runs_net in H0. destruct H0 as [H0 ->]. rewrite Hs in H0.
    injection H0 as <-.
    apply runs_bind in H. destruct H as (c0 & tempUnit & H0 & H).
    apply runs_lift in H0. destruct H0 as [_ ->].
    apply runs_bind in H. destruct H as (c0 & current & H0 & H).
    apply runs_gets in H0. destruct H0 as [_ ->].
    apply (runs_peel _ _ (keeps_driver drv)) in H;
      [|destruct (option_string_eqb tempUnit current);
        [apply (keeps_ret _ (keeps_driver_refl drv))
        |apply keeps_driver_values, keeps_change_temp_units]].
    destruct H as (c1 & u & (S1 & _ & D1) & H).
    assert (P1 : self_driver c1 drv <> None)
      by (unfold self_driver; rewrite S1, D1; exact Hpresent).
    clear Hpresent S1 D1 c Ha Hs.
    do 8 (apply runs_bind in H;
          let v := fresh "v" in
          let E := fresh "E" in
          destruct H as (? & v & E & H);
          apply runs_lift in E; destruct E as [E ->]).
    simpl in Hin.
    destruct Hin as [Hin| [Hin| [Hin| [Hin| [Hin| [Hin| [Hin| [Hin|[]]]]]]]]];
      injection Hin as <- <- <-;
      eexists; (split; [eassumption|]).
    + controller_case "GV0" H P1.
    + controller_case "GV1" H P1.
    + controller_case "GV2" H P1.
    + controller_case "GV3" H P1.
    + controller_case "GV4" H P1.
    + controller_case "GV5" H P1.
    + controller_case "CLITEMP" H P1.
    + controller_case "GV9" H P1.
Qed.

Lemma update_node_states_controller_drivers_witness :
  exists v,
    find_int (XML.find sample_status "temp") "soltemp" = Ok v /\
    self_driver (snd (fst (update_node_states sample_world true sample_controller)))
      "GV9" = Some v.
Proof.
  assert (E : snd (update_node_states sample_world true sample_controller) = Ok tt)
    by (vm_compute; reflexivity).
  destruct (update_node_states sample_world true sample_controller)
    as [[t c'] r] eqn:Hrun.
  simpl in E. subst r. cbn [fst snd].
  apply (proj2 (update_node_states_controller_drivers
                  sample_world true sample_controller sample_interface eq_refl)
           sample_status t c' "GV9" "temp" "soltemp").
  - vm_compute. reflexivity.
  - exact Hrun.
  - simpl. tauto.
  - vm_compute. discriminate.
Defined.

Lemma same_shape_addresses :
  forall c c', same_shape c c' -> keeps_addresses c c'.
Proof.
  intros c c' [_ O] ref. unfold obj_address.
  revert ref. induction O as [|o o' l l' (_ & Ha & _) _ IH]; intros [|ref];
    simpl; try reflexivity.
  - exact Ha.
  - apply IH.
Qed.

(** One thermostat of a status update: the set point and the derived mode
    and heat/cool status of the object [self.nodes[addr]]; no other object
    is touched. *)
Lemma thermostat_step :
  forall temp addr setting_name setpoint_name temp_name report c c' ref,
    runs (update_thermostat temp addr setting_name setpoint_name temp_name report)
         c c' tt ->
    dict_get addr (nodes c) = Some ref ->
    exists htstatus setting setPoint,
      find_int temp "htstatus" = Ok htstatus /\
      find_int temp setting_name = Ok setting /\
      find_int temp setpoint_name = Ok setPoint /\
      keeps_others ref c c' /\
      (obj_driver c ref "CLISPH" <> None ->
       obj_driver c ref "CLIMD" <> None ->
       obj_driver c ref "CLIHCS" <> None ->
       obj_driver c' ref "CLISPH" = Some setPoint /\
       obj_driver c' ref "CLIMD" = Some (climd_of setting) /\
       (obj_address c ref = "spaht" \/ obj_address c ref = "poolht" ->
        obj_driver c' ref "CLIHCS"
        = Some (hcs_code (hcs_of (obj_address c ref) htstatus)))).
Proof.
  intros temp addr sn spn tn report c c' ref H Href.
  unfold update_thermostat in H.
  apply runs_bind in H. destruct H as (c0 & node & H0 & H).
  destruct H0 as [t0 H0]. unfold node_ref in H0. rewrite Href in H0.
  injection H0 as _ <- <-.
  apply runs_bind in H. destruct H as (? & htstatus & E1 & H).
  apply runs_lift in E1. destruct E1 as [E1 ->].
  apply runs_bind in H. destruct H as (? & setting & E2 & H).
  apply runs_lift in E2. destruct E2 as [E2 ->].
  apply runs_bind in H. destruct H as (? & setPoint & E3 & H).
  apply runs_lift in E3. destruct E3 as [E3 ->].
  apply runs_bind in H. destruct H as (? & currentTemp & E4 & H).
  apply runs_lift in E4. destruct E4 as [E4 ->].
  apply runs_bind in H. destruct H as (c2 & u2 & H2 & H).
  apply runs_modify in H2.
  apply runs_bind in H. destruct H as (c3 & u3 & H3 & H).
  apply runs_modify in H3.
  destruct H as [t4 H4]. unfold obj_update_thermo_drivers in H4.
  destruct (nth_error (objects c3) ref) as [[n|id n|n]|] eqn:En;
    try discriminate H4.
  injection H4 as _ <-.
  exists htstatus, setting, setPoint.
  split; [exact E1|]. split; [exact E2|]. split; [exact E3|].
  assert (D3 : forall name, obj_driver c3 ref name
                            = getDriver n name).
  { intros name. unfold obj_driver. rewrite En. reflexivity. }
  split.
  - intros ref' name Hne. simpl. rewrite obj_driver_update.
    destruct (Nat.eqb_spec ref ref') as [->|_]; [contradiction|].
    subst c3. rewrite obj_driver_update.
    destruct (Nat.eqb_spec ref ref') as [->|_]; [contradiction|].
    subst c2. rewrite obj_driver_update.
    destruct (Nat.eqb_spec ref ref') as [->|_]; [contradiction|]. reflexivity.
  - intros Psp Pmd Phcs.
    assert (Q2 : forall name, name <> "ST" ->
                   obj_driver c2 ref name = obj_driver c ref name).
    { intros name Hn. subst c2. apply obj_driver_set_other. congruence. }
    assert (Qsp : obj_driver c3 ref "CLISPH" = Some setPoint).
    { subst c3. apply obj_driver_set_same. rewrite Q2 by discriminate. exact Psp. }
    assert (Q3 : forall name, name <> "ST" -> name <> "CLISPH" ->
                   obj_driver c3 ref name = obj_driver c ref name).
    { intros name Hn1 Hn2. subst c3. rewrite obj_driver_set_other by congruence.
      apply Q2. exact Hn1. }
    assert (Hn : thermostat n).
    { split; rewrite <- D3, Q3 by discriminate; assumption. }
    assert (Ha : address n = obj_address c ref).
    { assert (A3 : obj_address c3 ref = address n)
        by (unfold obj_address; rewrite En; reflexivity).
      rewrite <- A3. subst c3 c2. unfold obj_address, update_object. simpl.
      rewrite !nth_error_update_nth, Nat.eqb_refl.
      destruct (nth_error (objects c) ref) as [[m|i m|m]|]; reflexivity. }
    assert (F : forall name,
              obj_driver (update_object ref
                 (obj_with (fun n0 => update_thermo_drivers n0 setting htstatus report)) c3)
                 ref name
              = getDriver (update_thermo_drivers n setting htstatus report) name).
    { intros name. rewrite obj_driver_update, Nat.eqb_refl, En. reflexivity. }
    rewrite !F. split; [|split].
    + rewrite getDriver_update_thermo_other by discriminate.
      rewrite <- D3. exact Qsp.
    + apply climd_after_update. exact Hn.
    + intros [Hs|Hp]; unfold hcs_of; rewrite <- Ha in *.
      * rewrite Hs. simpl String.eqb. apply clihcs_after_update_spa; assumption.
      * rewrite Hp. simpl String.eqb. apply clihcs_after_update_pool; assumption.
Qed.

Lemma keeps_thermostats_refl : forall c, keeps_thermostats c c.
Proof.
  intros c.
  split; [apply same_shape_refl | split; [|split]; apply keeps_driver_refl].
Qed.

Lemma keeps_thermostats_trans :
  forall c1 c2 c3,
    keeps_thermostats c1 c2 -> keeps_thermostats c2 c3 -> keeps_thermostats c1 c3.
Proof.
  intros c1 c2 c3 (S1 & A1 & B1 & C1) (S2 & A2 & B2 & C2).
  split; [eapply same_shape_trans; eassumption|].
  split; [eapply keeps_driver_trans; eassumption|].
  split; eapply keeps_driver_trans; eassumption.
Qed.

Lemma keeps_thermostats_intro :
  forall (A : Type) (m : Hub A),
    keeps same_shape m ->
    keeps (keeps_driver "CLISPH") m -> keeps (keeps_driver "CLIMD") m ->
    keeps (keeps_driver "CLIHCS") m ->
    keeps keeps_thermostats m.
Proof.
  intros A m H1 H2 H3 H4 c.
  split; [apply H1 | split; [apply H2 | split; [apply H3 | apply H4]]].
Qed.

Lemma keeps_thermostats_self_setDriver :
  forall name v r,
    name <> "CLISPH" -> name <> "CLIMD" -> name <> "CLIHCS" ->
    keeps keeps_thermostats (self_setDriver name v r).
Proof.
  intros name v r H1 H2 H3. apply keeps_thermostats_intro.
  - apply keeps_self_setDriver.
  - apply keeps_driver_self_setDriver. exact H1.
  - apply keeps_driver_self_setDriver. exact H2.
  - apply keeps_driver_self_setDriver. exact H3.
Qed.

Lemma keeps_thermostats_values :
  forall (A : Type) (m : Hub A), keeps same_values m -> keeps keeps_thermostats m.
Proof.
  intros A m H. apply keeps_thermostats_intro.
  - apply keeps_weaken. exact H.
  - apply keeps_driver_values. exact H.
  - apply keeps_driver_values. exact H.
  - apply keeps_driver_values. exact H.
Qed.

Lemma keeps_thermostats_equipment :
  forall report equipment,
    keeps keeps_thermostats
      (elements <- lift (element_list equipment) ;;
       for_each (update_equipment report) elements).
Proof.
  intros report equipment. apply keeps_thermostats_intro.
  - keeps_shape.
    apply (keeps_for_each same_shape same_shape_refl same_shape_trans).
    apply keeps_update_equipment.
  - suffix_keeps "CLISPH".
  - suffix_keeps "CLIMD".
  - suffix_keeps "CLIHCS".
Qed.

(** What [keeps_thermostats] carries over for one object. *)
Lemma keeps_thermostats_object :
  forall c c' addr ref,
    keeps_thermostats c c' ->
    (dict_get addr (nodes c') = dict_get addr (nodes c)) /\
    obj_address c' ref = obj_address c ref /\
    obj_driver c' ref "CLISPH" = obj_driver c ref "CLISPH" /\
    obj_driver c' ref "CLIMD" = obj_driver c ref "CLIMD" /\
    obj_driver c' ref "CLIHCS" = obj_driver c ref "CLIHCS".
Proof.
  intros c c' addr ref (S & (_ & _ & A) & (_ & _ & B) & (_ & _ & C)).
  split; [|split; [|split; [|split]]].
  - destruct S as [(_ & N & _) _]. rewrite N. reflexivity.
  - apply (same_shape_addresses _ _ S).
  - apply A.
  - apply B.
  - apply C.
Qed.

(** X15: the thermostats after a status update.  When the update runs to
    its end on a snapshot, and [self.nodes] holds two different objects for
    poolht and spaht, each of the two has its set point CLISPH read from
    poolsp or spasp, its mode CLIMD derived from the heater setting poolht
    or spaht, and its heat/cool status CLIHCS derived from htstatus with
    the bits of its own address; the equipment part of the snapshot cannot
    change these three drivers. *)
Theorem update_node_states_thermostats :
  forall (w : HttpWorld) (report : bool) (c c' : Controller)
         (a : AutelisInterface) (x : Element) (t : list hub_effect)
         (rp rs : nat) (addr : string) (ref : nat),
    autelis c = Some a ->
    snd (get_status w a) = Ok (Some x) ->
    update_node_states w report c = (t, c', Ok tt) ->
    dict_get "poolht" (nodes c) = Some rp ->
    dict_get "spaht" (nodes c) = Some rs ->
    rp <> rs ->
    In (addr, ref) [("poolht", rp); ("spaht", rs)] ->
    obj_address c ref = addr ->
    obj_driver c ref "CLISPH" <> None ->
    obj_driver c ref "CLIMD" <> None ->
    obj_driver c ref "CLIHCS" <> None ->
    exists htstatus setting setPoint,
      find_int (XML.find x "temp") "htstatus" = Ok htstatus /\
      find_int (XML.find x "temp") addr = Ok setting /\
      find_int (XML.find x "temp") (snd (thermostat_fields addr)) = Ok setPoint /\
      obj_driver c' ref "CLISPH" = Some setPoint /\
      obj_driver c' ref "CLIMD" = Some (climd_of setting) /\
      obj_driver c' ref "CLIHCS" = Some (hcs_code (hcs_of addr htstatus)).
Proof.
  intros w report c c' a x t rp rs addr ref Ha Hs Hrun Hp Hsp Hne Hin
         Haddr Psp Pmd Phcs.
  assert (H : runs (update_node_states w report) c c' tt) by (exists t; exact Hrun).
  clear Hrun. unfold update_node_states in H.
  apply runs_bind in H. destruct H as (c0 & a' & H0 & H).
  destruct (runs_get_autelis _ _ _ _ Ha H0) as [-> ->]. clear H0.
  apply runs_bind in H. destruct H as (c0 & sx & H0 & H).
  apply runs_net in H0. destruct H0 as [H0 ->]. rewrite Hs in H0.
  injection H0 as <-.
  apply runs_bind in H. destruct H as (c0 & tempUnit & H0 & H).
  apply runs_lift in H0. destruct H0 as [_ ->].
  apply runs_bind in H. destruct H as (c0 & current & H0 & H).
  apply runs_gets in H0. destruct H0 as [_ ->].
  apply (runs_peel _ _ keeps_thermostats) in H;
    [|destruct (option_string_eqb tempUnit current);
      [apply (keeps_ret _ keeps_thermostats_refl)
      |apply keeps_thermostats_values, keeps_change_temp_units]].
  destruct H as (c1 & u & K & H).
  do 8 (apply runs_bind in H;
        let v := fresh "v" in
        let E := fresh "E" in
        destruct H as (? & v & E & H);
        apply runs_lift in E; destruct E as [_ ->]).
  do 8 (apply (runs_peel _ _ keeps_thermostats) in H;
        [|apply keeps_thermostats_self_setDriver; discriminate];
        let c2 := fresh "c" in
        let K2 := fresh "K" in
        destruct H as (c2 & ? & K2 & H);
        pose proof (keeps_thermostats_trans _ _ _ K K2) as K3;
        clear K K2; rename K3 into K).
  apply runs_bind in H. destruct H as (cp & up & Hpool & H). destruct up.
  apply runs_bind in H. destruct H as (csp & usp & Hspa & H). destruct usp.
  pose proof (runs_keeps _ _ _ _ _ _
                (keeps_thermostats_equipment report (XML.find x "equipment")) H)
    as Keq.
  pose proof (runs_keeps _ _ _ _ _ _
                (keeps_update_thermostat _ _ _ _ _ _) Hpool) as Spool.
  pose proof (runs_keeps _ _ _ _ _ _
                (keeps_update_thermostat _ _ _ _ _ _) Hspa) as Sspa.
  clear H.
  (* the state before the two thermostats *)
  destruct (keeps_thermostats_object _ _ "poolht" ref K) as (Np & Ar & D1 & D2 & D3).
  destruct (keeps_thermostats_object _ _ "spaht" ref K) as (Ns & _).
  rewrite Hp in Np. rewrite Hsp in Ns.
  destruct (thermostat_step _ _ _ _ _ _ _ _ _ Hpool Np)
    as (hp & sp_ & spp & Ep1 & Ep2 & Ep3 & Op & Vp).
  assert (Ns' : dict_get "spaht" (nodes cp) = Some rs).
  { destruct Spool as [(_ & N & _) _]. rewrite N. exact Ns. }
  destruct (thermostat_step _ _ _ _ _ _ _ _ _ Hspa Ns')
    as (hs & ss & sps & Es1 & Es2 & Es3 & Os & Vs).
  destruct (keeps_thermostats_object _ _ addr ref Keq) as (_ & _ & F1 & F2 & F3).
  rewrite F1, F2, F3.
  simpl in Hin. destruct Hin as [Hin| [Hin|[]]]; injection Hin as <- <-.
  - (* the pool thermostat: set by its own step, kept by the spa's *)
    exists hp, sp_, spp. 
    split; [exact Ep1|]. split; [exact Ep2|]. split; [exact Ep3|].
    rewrite !(Os rp _ Hne).
    rewrite <- D1, <- D2, <- D3 in *.
    destruct (Vp Psp Pmd Phcs) as (V1 & V2 & V3).
    split; [exact V1|]. split; [exact V2|].
    rewrite <- Ar in Haddr. rewrite Haddr in V3. apply V3. right. reflexivity.
  - (* the spa thermostat: kept by the pool's step, set by its own *)
    exists hs, ss, sps.
    split; [exact Es1|]. split; [exact Es2|]. split; [exact Es3|].
    assert (Hne' : rs <> rp) by congruence.
    assert (As : obj_address cp rs = "spaht").
    { rewrite (same_shape_addresses _ _ Spool rs), Ar. exact Haddr. }
    destruct Vs as (V1 & V2 & V3).
    + rewrite (Op rs _ Hne'), D1. exact Psp.
    + rewrite (Op rs _ Hne'), D2. exact Pmd.
    + rewrite (Op rs _ Hne'), D3. exact Phcs.
    + split; [exact V1|]. split; [exact V2|].
      rewrite As in V3. apply V3. left. reflexivity.
Qed.

Lemma update_node_states_thermostats_witness :
  exists htstatus setting setPoint,
    find_int (XML.find sample_status "temp") "htstatus" = Ok htstatus /\
    find_int (XML.find sample_status "temp") "poolht" = Ok setting /\
    find_int (XML.find sample_status "temp") (snd (thermostat_fields "poolht"))
      = Ok setPoint /\
    obj_driver (snd (fst (update_node_states sample_world true sample_controller)))
      1 "CLISPH" = Some setPoint /\
    obj_driver (snd (fst (update_node_states sample_world true sample_controller)))
      1 "CLIMD" = Some (climd_of setting) /\
    obj_driver (snd (fst (update_node_states sample_world true sample_controller)))
      1 "CLIHCS" = Some (hcs_code (hcs_of "poolht" htstatus)).
Proof.
  assert (E : snd (update_node_states sample_world true sample_controller) = Ok tt)
    by (vm_compute; reflexivity).
  destruct (update_node_states sample_world true sample_controller)
    as [[t c'] r] eqn:Hrun.
  simpl in E. subst r. cbn [fst snd].
  apply (update_node_states_thermostats sample_world true sample_controller c'
           sample_interface sample_status t 1%nat 2%nat "poolht" 1%nat).
  - reflexivity.
  - vm_compute. reflexivity.
  - exact Hrun.
  - reflexivity.
  - reflexivity.
  - discriminate.
  - simpl. tauto.
  - reflexivity.
  - vm_compute. discriminate.
  - vm_compute. discriminate.
  - vm_compute. discriminate.
Defined.

(** ** Starting the node server *)

Lemma added_nodes_app :
  forall t1 t2, added_nodes (t1 ++ t2)%list = (added_nodes t1 ++ added_nodes t2)%list.
Proof.
  induction t1 as [|e t1 IH]; intros t2; simpl.
  - reflexivity.
  - destruct e; simpl; rewrite ?IH; reflexivity.
Qed.

Lemma hub_gets_app :
  forall t1 t2, hub_gets (t1 ++ t2)%list = (hub_gets t1 ++ hub_gets t2)%list.
Proof.
  induction t1 as [|e t1 IH]; intros t2; simpl.
  - reflexivity.
  - destruct e as [[]| | | |]; simpl; rewrite ?IH; reflexivity.
Qed.

Lemma hub_gets_net : forall t, hub_gets (map Net t) = http_gets t.
Proof.
  induction t as [|e t IH]; simpl; [reflexivity|].
  destruct e; simpl; rewrite ?IH; reflexivity.
Qed.

Lemma added_nodes_net : forall t, added_nodes (map Net t) = [].
Proof. induction t as [|e t IH]; simpl; [reflexivity | exact IH]. Qed.

Lemma discover_equipment_loop :
  forall c l,
    exists t,
      for_each discover_equipment l c = (t, c, Ok tt) /\
      added_nodes t = map (fun e => ("Equipment", tag e)) (filter has_text l) /\
      hub_gets t = [].
Proof.
  intros c l. induction l as [|e l (t & Hl & Ha & Hg)].
  - exists []. repeat split.
  - cbn [for_each filter].
    destruct (XML.text e) as [s|] eqn:Et.
    + rewrite (bindH_ok_eq _ _ _ _ c
                 [AddNode "Equipment" (obj_address c (self_ref c)) (tag e) (tag e) None]
                 c tt)
        by (unfold discover_equipment, emit; rewrite Et; reflexivity).
      rewrite Hl. eexists. split; [reflexivity|].
      rewrite added_nodes_app, hub_gets_app, Ha, Hg.
      unfold has_text. rewrite Et. split; reflexivity.
    + rewrite (bindH_ok_eq _ _ _ _ c [] c tt)
        by (unfold discover_equipment, ret; rewrite Et; reflexivity).
      rewrite Hl. eexists. split; [reflexivity|].
      rewrite added_nodes_app, hub_gets_app, Ha, Hg.
      unfold has_text. rewrite Et. split; reflexivity.
Qed.

Lemma get_status_gets :
  forall w a, http_gets (fst (get_status w a)) = [status_request a].
Proof.
  intros w a. unfold get_status.
  destruct (requests_get w _) as [r|e]; cbn [bind].
  - destruct (raise_for_status r) as [u|e]; cbn [bind].
    + destruct (fromstring w (resp_text r)) as [x|e]; [|reflexivity].
      destruct (String.eqb (tag x) "response"); reflexivity.
    + destruct (is_transient e); reflexivity.
  - destruct (is_transient e); reflexivity.
Qed.

Lemma keeps_add_temp_control :
  forall u addr, keeps same_values (add_temp_control u addr).
Proof. intros u addr c. apply same_values_refl. Qed.

Lemma keeps_discover_equipment :
  forall l, keeps same_values (for_each discover_equipment l).
Proof.
  intros l. apply (keeps_for_each same_values same_values_refl same_values_trans).
  intros e c. unfold discover_equipment.
  destruct (XML.text e); apply same_values_refl.
Qed.

Lemma keeps_discover_nodes : forall w, keeps same_values (discover_nodes w).
Proof.
  intros w. unfold discover_nodes.
  apply (keeps_bind same_values same_values_trans).
  { intros c. unfold get_autelis. destruct (autelis c); apply same_values_refl. }
  intros a. apply (keeps_bind same_values same_values_trans).
  { apply (keeps_net same_values same_values_refl). }
  intros [x|].
  - repeat first
      [ apply keeps_add_temp_control
      | apply keeps_discover_equipment
      | apply (keeps_bind same_values same_values_trans); [|intros ?]
      | apply (keeps_lift same_values same_values_refl)
      | apply (keeps_emit same_values same_values_refl)
      | apply (keeps_gets same_values same_values_refl)
      | apply (keeps_ret same_values same_values_refl) ].
    destruct (option_string_eqb _ _).
    + apply (keeps_ret same_values same_values_refl).
    + apply keeps_Controller_set_temp_unit.
  - apply (keeps_bind same_values same_values_trans).
    + apply (keeps_emit same_values same_values_refl).
    + intros _. apply (keeps_lift same_values same_values_refl).
Qed.

Lemma option_string_eqb_eq :
  forall a b, option_string_eqb a b = true -> a = b.
Proof.
  intros [a|] [b|]; simpl; intros H; try discriminate H; [|reflexivity].
  apply String.eqb_eq in H. rewrite H. reflexivity.
Qed.

Lemma discover_unit_step :
  forall u c,
    exists t1 c1,
      (if option_string_eqb u (currentTempUnit c) then ret tt
       else Controller_set_temp_unit u) c = (t1, c1, Ok tt) /\
      added_nodes t1 = [] /\ hub_gets t1 = [] /\ currentTempUnit c1 = u.
Proof.
  intros u c. destruct (option_string_eqb u (currentTempUnit c)) eqn:E.
  - exists [], c. repeat split. symmetry. apply option_string_eqb_eq. exact E.
  - eexists. eexists. split; [reflexivity|]. repeat split.
Qed.

(** X16: [discover_nodes].  On a snapshot it asks the framework for the two
    thermostats poolht and spaht first, then for one equipment node for
    each child of [equipment] that has a text, in the order of the
    document; children without text are skipped; it sends one GET and
    leaves the unit of the snapshot as the current unit.  When [get_status]
    returns None it raises SystemExit and adds no node.  When the snapshot
    has no [equipment] element it raises TypeError after the two
    thermostats have been added. *)
Theorem discover_nodes_adds_thermostats_then_equipment :
  forall (w : HttpWorld) (c : Controller) (a : AutelisInterface),
    autelis c = Some a ->
    let t := fst (fst (discover_nodes w c)) in
    let c' := snd (fst (discover_nodes w c)) in
    let r := snd (discover_nodes w c) in
    hub_gets t = [status_request a] /\
    (snd (get_status w a) = Ok None ->
       r = Raise SystemExit /\ added_nodes t = [] /\ c' = c) /\
    (forall x u, snd (get_status w a) = Ok (Some x) ->
       find_text (XML.find x "temp") "tempunits" = Ok u ->
       currentTempUnit c' = u /\
       match XML.find x "equipment" with
       | Some equipment => r = Ok tt /\ added_nodes t = expected_nodes equipment
       | None =>
           r = Raise TypeError /\
           added_nodes t = [("TempControl", "poolht"); ("TempControl", "spaht")]
       end).
Proof.
  intros w c a Ha t c' r. subst t c' r. unfold discover_nodes.
  rewrite (bindH_ok_eq _ _ _ _ c [] c a)
    by (unfold get_autelis; rewrite Ha; reflexivity).
  pose proof (get_status_gets w a) as G.
  destruct (get_status w a) as [ts [[x|]|e]] eqn:Es; cbn [fst] in G.
  - (* a snapshot *)
    rewrite (bindH_ok_eq _ _ _ _ c (map Net ts) c (Some x)) by reflexivity.
    rewrite (bindH_ok_eq _ _ _ _ c [Net (Log DEBUG "Status XML: %s")] c tt)
      by reflexivity.
    destruct (find_text (XML.find x "temp") "tempunits") as [u|e] eqn:Eu.
    + rewrite (bindH_ok_eq _ _ _ _ c [] c u) by reflexivity.
      rewrite (bindH_ok_eq _ _ _ _ c [] c (currentTempUnit c)) by reflexivity.
      destruct (discover_unit_step u c) as (t1 & c1 & E1 & A1 & G1 & U1).
      rewrite (bindH_ok_eq _ _ _ _ c t1 c1 tt) by exact E1.
      rewrite (bindH_ok_eq _ _ _ _ c1
                 [AddNode "TempControl" (obj_address c1 (self_ref c1))
                    "poolht" "poolht" u;
                  AddNode "TempControl" (obj_address c1 (self_ref c1))
                    "spaht" "spaht" u] c1 tt) by reflexivity.
      destruct (XML.find x "equipment") as [equipment|] eqn:Ee.
      * rewrite (bindH_ok_eq _ _ _ _ c1 [] c1 (XML.children equipment))
          by reflexivity.
        destruct (discover_equipment_loop c1 (XML.children equipment))
          as (t2 & E2 & A2 & G2).
        rewrite E2. cbn [fst snd app].
        repeat (rewrite ?hub_gets_app, ?added_nodes_app;
                cbn [hub_gets added_nodes]).
        rewrite hub_gets_net, added_nodes_net, G, G1, G2, A1, A2.
        split; [reflexivity|]. split; [discriminate|].
        intros x' u' Hx Hu. injection Hx as <-.
        rewrite Eu in Hu. injection Hu as <-. rewrite Ee.
        split; [exact U1|]. split; reflexivity.
      * cbn [fst snd app lift element_list bindH].
        repeat (rewrite ?hub_gets_app, ?added_nodes_app;
                cbn [hub_gets added_nodes]).
        rewrite hub_gets_net, added_nodes_net, G, G1, A1.
        split; [reflexivity|]. split; [discriminate|].
        intros x' u' Hx Hu. injection Hx as <-.
        rewrite Eu in Hu. injection Hu as <-. rewrite Ee.
        split; [exact U1|]. split; reflexivity.
    + cbn [fst snd app lift bindH].
      repeat (rewrite ?hub_gets_app, ?added_nodes_app;
              cbn [hub_gets added_nodes]).
      rewrite hub_gets_net, G.
      split; [reflexivity|]. split; [discriminate|].
      intros x' u' Hx Hu. injection Hx as <-.
      rewrite Eu in Hu. discriminate Hu.
  - (* no snapshot *)
    rewrite (bindH_ok_eq _ _ _ _ c (map Net ts) c None) by reflexivity.
    cbn [fst snd app lift emit bindH].
    repeat (rewrite ?hub_gets_app, ?added_nodes_app;
            cbn [hub_gets added_nodes]).
    rewrite hub_gets_net, added_nodes_net, G.
    split; [reflexivity|]. split; [intros _; repeat split | discriminate].
  - (* the request raised *)
    unfold bindH, net. cbn [fst snd app].
    rewrite hub_gets_net, G.
    split; [reflexivity|]. split; discriminate.
Qed.

Lemma discover_nodes_adds_thermostats_then_equipment_witness :
  autelis sample_controller = Some sample_interface /\
  snd (discover_nodes sample_world sample_controller) = Ok tt /\
  added_nodes (fst (fst (discover_nodes sample_world sample_controller)))
  = [ ("TempControl", "poolht"); ("TempControl", "spaht");
      ("Equipment", "circuit1"); ("Equipment", "circuit2") ].
Proof.
  split; [reflexivity|].
  assert (Es : snd (get_status sample_world sample_interface) = Ok (Some sample_status))
    by (vm_compute; reflexivity).
  assert (Eu : find_text (XML.find sample_status "temp") "tempunits" = Ok (Some "F"))
    by (vm_compute; reflexivity).
  destruct (discover_nodes_adds_thermostats_then_equipment
              sample_world sample_controller sample_interface eq_refl)
    as (_ & _ & H).
  destruct (H sample_status (Some "F") Es Eu) as (_ & H2).
  exact H2.
Defined.

(** [discover_nodes] sends the one request of [get_status]. *)
Lemma discover_nodes_gets :
  forall w c a,
    autelis c = Some a ->
    hub_gets (fst (fst (discover_nodes w c))) = [status_request a].
Proof.
  intros w c a Ha. unfold discover_nodes.
  rewrite (bindH_ok_eq _ _ _ _ c [] c a)
    by (unfold get_autelis; rewrite Ha; reflexivity).
  pose proof (get_status_gets w a) as G.
  destruct (get_status w a) as [ts [[x|]|e]] eqn:Es; cbn [fst] in G.
  - rewrite (bindH_ok_eq _ _ _ _ c (map Net ts) c (Some x)) by reflexivity.
    rewrite (bindH_ok_eq _ _ _ _ c [Net (Log DEBUG "Status XML: %s")] c tt)
      by reflexivity.
    destruct (find_text (XML.find x "temp") "tempunits") as [u|e] eqn:Eu.
    + rewrite (bindH_ok_eq _ _ _ _ c [] c u) by reflexivity.
      rewrite (bindH_ok_eq _ _ _ _ c [] c (currentTempUnit c)) by reflexivity.
      destruct (discover_unit_step u c) as (t1 & c1 & E1 & A1 & G1 & U1).
      rewrite (bindH_ok_eq _ _ _ _ c t1 c1 tt) by exact E1.
      rewrite (bindH_ok_eq _ _ _ _ c1
                 [AddNode "TempControl" (obj_address c1 (self_ref c1))
                    "poolht" "poolht" u;
                  AddNode "TempControl" (obj_address c1 (self_ref c1))
                    "spaht" "spaht" u] c1 tt) by reflexivity.
      destruct (XML.find x "equipment") as [equipment|] eqn:Ee.
      * rewrite (bindH_ok_eq _ _ _ _ c1 [] c1 (XML.children equipment))
          by reflexivity.
        destruct (discover_equipment_loop c1 (XML.children equipment))
          as (t2 & E2 & A2 & G2).
        rewrite E2. cbn [fst snd app].
        repeat (rewrite ?hub_gets_app; cbn [hub_gets]).
        rewrite hub_gets_net, G, G1, G2. reflexivity.
      * cbn [fst snd app lift element_list bindH].
        repeat (rewrite ?hub_gets_app; cbn [hub_gets]).
        rewrite hub_gets_net, G, G1. reflexivity.
    + cbn [fst snd app lift bindH].
      repeat (rewrite ?hub_gets_app; cbn [hub_gets]).
      rewrite hub_gets_net, G. reflexivity.
  - rewrite (bindH_ok_eq _ _ _ _ c (map Net ts) c None) by reflexivity.
    cbn [fst snd app lift emit bindH].
    repeat (rewrite ?hub_gets_app; cbn [hub_gets]).
    rewrite hub_gets_net, G. reflexivity.
  - unfold bindH, net. cbn [fst snd app].
    rewrite hub_gets_net, G. reflexivity.
Qed.

Lemma ignore_solar_of_true :
  forall p,
    ignore_solar_of p = true <->
    exists v, dict_get "ignoresolar" p = Some v /\ v <> EmptyString.
Proof.
  intros p. unfold ignore_solar_of, config_get.
  destruct (dict_get "ignoresolar" p) as [v|]; split.
  - intros H. exists v. split; [reflexivity|].
    intros ->. discriminate H.
  - intros (v' & Hv & Hne). injection Hv as <-.
    destruct (String.eqb_spec v EmptyString) as [->|_]; [|reflexivity].
    exfalso. apply Hne. reflexivity.
  - discriminate.
  - intros (v' & Hv & _). discriminate Hv.
Qed.

(** X17: [start].  The three settings ipaddress, username and password are
    read before anything else is done: when the configuration has no
    custom parameters or one of the three is missing, KeyError is raised
    with the controller untouched, no request sent and no node added.
    Otherwise the interface is built from the three settings and stays in
    place however the discovery ends; the discovery sends its one request
    with these credentials; [ignoresolar] is true exactly when the
    parameter is there with a non-empty text (so also for the text
    false); the polling interval is the integer of the parameter and 60
    when the parameter is missing or is no integer literal. *)
Theorem start_reads_settings_before_discovery :
  forall (w : HttpWorld) (config : custom_params) (c : Controller),
    let t := fst (fst (start w config c)) in
    let c' := snd (fst (start w config c)) in
    let r := snd (start w config c) in
    (configured_interface config = None ->
       r = Raise KeyError /\ c' = c /\ hub_gets t = [] /\ added_nodes t = []) /\
    (forall p a,
       config = Some p -> configured_interface config = Some a ->
       autelis c' = Some a /\
       hub_gets t = [status_request a] /\
       (ignoresolar c' = true <->
          exists v, dict_get "ignoresolar" p = Some v /\ v <> EmptyString) /\
       (dict_get "pollinginterval" p = None -> pollingInterval c' = 60) /\
       (forall v, dict_get "pollinginterval" p = Some v ->
          match Py.int v with
          | Ok n => pollingInterval c' = n
          | Raise _ => ascii_only v = true -> pollingInterval c' = 60
          end)).
Proof.
  intros w config c t c' r. subst t c' r. unfold start.
  rewrite (bindH_ok_eq _ _ _ _ c [LogInfo "Started Autelis Nodeserver..."] c tt)
    by reflexivity.
  destruct config as [p|]; [|split; [intros _; repeat split | discriminate]].
  unfold configured_interface, config_get. cbn [bind].
  destruct (dict_get "ipaddress" p) as [ip|];
    [|split; [intros _; repeat split | discriminate]].
  destruct (dict_get "username" p) as [username|];
    [|split; [intros _; repeat split | discriminate]].
  destruct (dict_get "password" p) as [password|];
    [|split; [intros _; repeat split | discriminate]].
  cbn [bind]. split; [discriminate|].
  intros p' a Hp Ha. injection Hp as <-. injection Ha as <-.
  set (a := mkAutelisInterface ip username password).
  set (c1 := mkController (self_ref c) (objects c) (nodes c) (Some a)
               (polling_interval_of p) (ignore_solar_of p) (currentTempUnit c)).
  rewrite (bindH_ok_eq _ _ _ _ c [] c1 tt) by reflexivity.
  pose proof (discover_nodes_gets w c1 a eq_refl) as G.
  destruct (keeps_discover_nodes w c1) as [(_ & _ & Ka & Kp & Ki) _].
  destruct (discover_nodes w c1) as [[t2 c2] r2].
  cbn [fst snd app hub_gets] in *.
  split; [exact Ka|]. split; [exact G|].
  split; [rewrite Ki; apply ignore_solar_of_true|].
  rewrite Kp. unfold c1, polling_interval_of, config_get. cbn [pollingInterval].
  split.
  - intros ->. reflexivity.
  - intros v ->. cbn [bind]. destruct (Py.int v); [reflexivity|].
    intros _. reflexivity.
Qed.

Lemma start_reads_settings_before_discovery_witness :
  let c' := snd (fst (start sample_world (Some sample_params) sample_controller)) in
  autelis c' = Some (mkAutelisInterface "10.0.0.2" "u" "p") /\
  ignoresolar c' = true /\ pollingInterval c' = 60.
Proof.
  destruct (proj2 (start_reads_settings_before_discovery
                     sample_world (Some sample_params) sample_controller)
              sample_params (mkAutelisInterface "10.0.0.2" "u" "p")
              eq_refl eq_refl)
    as (Ha & _ & Hi & _ & Hp).
  split; [exact Ha|]. split.
  - apply Hi. exists "false". split; [reflexivity | discriminate].
  - specialize (Hp "30s" eq_refl). apply Hp. reflexivity.
Defined.

(** ** Changing the temperature unit *)

Lemma updated_app :
  forall t1 t2, updated (t1 ++ t2)%list = (updated t1 ++ updated t2)%list.
Proof.
  induction t1 as [|e t1 IH]; intros t2; simpl.
  - reflexivity.
  - destruct e; simpl; rewrite ?IH; reflexivity.
Qed.


Lemma relabel_relabel :
  forall names u1 u2 ds,
    relabel names u2 (relabel names u1 ds) = relabel names u2 ds.
Proof.
  intros names u1 u2 ds. unfold relabel. rewrite map_map.
  apply map_ext. intros d.
  destruct (name_in names (d_name d)) eqn:Ed; simpl; rewrite Ed; reflexivity.
Qed.

Lemma managed_TempControl_id :
  forall u, name_in ["TEMP_CONTROL"; "TEMP_CONTROL_C"] (TempControl_id u) = true.
Proof. intros u. unfold TempControl_id. destruct (unit_is_C u); reflexivity. Qed.

Lemma set_unit_of_managed :
  forall u o, managed o = true -> managed (set_unit_of u o) = true.
Proof.
  intros u [n|id n|n] H; try discriminate H. apply managed_TempControl_id.
Qed.

Lemma set_unit_of_twice :
  forall u1 u2 o, set_unit_of u2 (set_unit_of u1 o) = set_unit_of u2 o.
Proof.
  intros u1 u2 [n|id n|n]; try reflexivity.
  simpl. rewrite relabel_relabel. reflexivity.
Qed.

Lemma set_unit_of_address :
  forall u o, address (obj_node (set_unit_of u o)) = address (obj_node o).
Proof. intros u [n|id n|n]; reflexivity. Qed.

Lemma with_objects_same : forall c, with_objects c (objects c) = c.
Proof. intros []. reflexivity. Qed.

(** One turn of the loop, for a key of [self.nodes]. *)
Lemma change_node_unit_step :
  forall u addr c ref,
    dict_get addr (nodes c) = Some ref ->
    exists t os,
      change_node_unit u addr c = (t, with_objects c os, Ok tt) /\
      (forall i, nth_error os i
                 = option_map (fun o => if managed o && Nat.eqb ref i
                                        then set_unit_of u o else o)
                     (nth_error (objects c) i)) /\
      (forall o, nth_error (objects c) ref = Some o -> managed o = true ->
                 updated t = [address (obj_node o)]).
Proof.
  intros u addr c ref Hd. unfold change_node_unit. rewrite Hd.
  assert (Hsame : forall i,
             (forall o, nth_error (objects c) ref = Some o -> managed o = false) ->
             nth_error (objects c) i
             = option_map (fun o => if managed o && Nat.eqb ref i
                                    then set_unit_of u o else o)
                 (nth_error (objects c) i)).
  { intros i H. destruct (nth_error (objects c) i) as [o|] eqn:Ei; [|reflexivity].
    simpl. destruct (Nat.eqb_spec ref i) as [->|_].
    - rewrite (H o Ei). reflexivity.
    - rewrite andb_false_r. reflexivity. }
  destruct (nth_error (objects c) ref) as [[n|id n|n]|] eqn:Er.
  - exists [], (objects c). rewrite with_objects_same.
    split; [reflexivity|]. split.
    + intros i. apply Hsame. intros o Ho. injection Ho as <-. reflexivity.
    + intros o Ho Hm. injection Ho as <-. discriminate Hm.
  - destruct (name_in ["TEMP_CONTROL"; "TEMP_CONTROL_C"] id) eqn:Eid.
    + eexists. exists (update_nth ref (set_unit_of u) (objects c)).
      split; [reflexivity|]. split.
      * intros i. rewrite nth_error_update_nth.
        destruct (Nat.eqb_spec ref i) as [<-|_].
        -- rewrite Er. cbn [option_map managed]. rewrite Eid. reflexivity.
        -- destruct (nth_error (objects c) i) as [o|]; [|reflexivity].
           simpl. rewrite andb_false_r. reflexivity.
      * intros o Ho _. injection Ho as <-. reflexivity.
    + exists [], (objects c). rewrite with_objects_same.
      split; [reflexivity|]. split.
      * intros i. apply Hsame. intros o Ho. injection Ho as <-. exact Eid.
      * intros o Ho Hm. injection Ho as <-. cbn [managed] in Hm. congruence.
  - exists [], (objects c). rewrite with_objects_same.
    split; [reflexivity|]. split.
    + intros i. apply Hsame. intros o Ho. injection Ho as <-. reflexivity.
    + intros o Ho Hm. injection Ho as <-. discriminate Hm.
  - exists [], (objects c). rewrite with_objects_same.
    split; [reflexivity|]. split.
    + intros i. apply Hsame. intros o Ho. discriminate Ho.
    + intros o Ho. discriminate Ho.
Qed.

(** The loop of [change_temp_units] over keys of [self.nodes]: it ends
    normally, and an object is relabelled exactly when it is a thermostat
    that one of the keys leads to. *)
Lemma change_units_loop :
  forall u l c,
    (forall addr, In addr l -> dict_get addr (nodes c) <> None) ->
    exists t os,
      for_each (change_node_unit u) l c = (t, with_objects c os, Ok tt) /\
      (forall i, nth_error os i
                 = option_map (fun o => if managed o && touched c l i
                                        then set_unit_of u o else o)
                     (nth_error (objects c) i)) /\
      (forall i o, nth_error (objects c) i = Some o -> managed o = true ->
                   touched c l i = true ->
                   In (address (obj_node o)) (updated t)).
Proof.
  intros u l. induction l as [|addr l IH]; intros c Hl.
  - exists [], (objects c). rewrite with_objects_same.
    split; [reflexivity|]. split.
    + intros i. destruct (nth_error (objects c) i) as [o|]; [|reflexivity].
      simpl. rewrite andb_false_r. reflexivity.
    + intros i o _ _ H. discriminate H.
  - destruct (dict_get addr (nodes c)) as [ref|] eqn:Hd;
      [|exfalso; apply (Hl addr); [left; reflexivity | exact Hd]].
    destruct (change_node_unit_step u addr c ref Hd) as (t1 & os1 & E1 & N1 & U1).
    destruct (IH (with_objects c os1)) as (t2 & os2 & E2 & N2 & U2).
    { intros a Ha. apply Hl. right. exact Ha. }
    cbn [for_each].
    rewrite (bindH_ok_eq _ _ _ _ c t1 (with_objects c os1) tt) by exact E1.
    rewrite E2. exists (t1 ++ t2)%list, os2.
    split; [reflexivity|].
    assert (Ht : forall i, touched (with_objects c os1) l i = touched c l i)
      by reflexivity.
    split.
    + intros i. rewrite N2. cbn [objects with_objects]. rewrite N1, Ht.
      destruct (nth_error (objects c) i) as [o|]; [|reflexivity].
      cbn [option_map touched existsb]. rewrite Hd. f_equal.
      destruct (managed o) eqn:Em; cbn [andb].
      * destruct (Nat.eqb ref i); cbn [orb].
        -- rewrite (set_unit_of_managed u o Em). cbn [andb].
           destruct (touched c l i); [apply set_unit_of_twice | reflexivity].
        -- rewrite Em. reflexivity.
      * rewrite Em. reflexivity.
    + intros i o Ho Hm Hi. rewrite updated_app. apply in_or_app.
      cbn [touched existsb] in Hi. rewrite Hd in Hi.
      destruct (Nat.eqb_spec ref i) as [->|Hne].
      * left. rewrite (U1 o Ho Hm). left. reflexivity.
      * right. cbn [orb] in Hi.
        assert (Ho' : nth_error (objects (with_objects c os1)) i = Some o).
        { cbn [objects with_objects]. rewrite N1, Ho. simpl.
          apply Nat.eqb_neq in Hne. rewrite Hne, andb_false_r. reflexivity. }
        apply (U2 i o Ho' Hm). rewrite Ht. exact Hi.
Qed.

Lemma dict_get_key :
  forall (V : Type) (d : list (string * V)) addr,
    In addr (map fst d) -> dict_get addr d <> None.
Proof.
  intros V d addr. induction d as [|[k v] d IH]; simpl; [tauto|].
  intros [->|H].
  - rewrite String.eqb_refl. discriminate.
  - destruct (String.eqb k addr); [discriminate | apply IH; exact H].
Qed.


(** The whole method, on a controller whose own node is a controller
    node. *)
Lemma change_temp_units_run :
  forall u c n0,
    nth_error (objects c) (self_ref c) = Some (ControllerObj n0) ->
    exists t os,
      change_temp_units u c
      = ((t ++ [UpdateNode (address n0)])%list,
         with_unit (with_objects c os) u, Ok tt) /\
      (forall i, nth_error os i
                 = option_map
                     (fun o =>
                        if Nat.eqb (self_ref c) i
                        then obj_with (fun n => mkNode (address n)
                               (relabel ["CLITEMP"; "GV9"] u (drivers n))) o
                        else if managed o && touched c (map fst (nodes c)) i
                             then set_unit_of u o else o)
                     (nth_error (objects c) i)) /\
      (forall i o, nth_error (objects c) i = Some o -> managed o = true ->
                   touched c (map fst (nodes c)) i = true ->
                   In (address (obj_node o)) (updated t)).
Proof.
  intros u c n0 Hself. unfold change_temp_units.
  destruct (change_units_loop u (map fst (nodes c)) c) as (t & os & E & N & U).
  { intros addr. apply dict_get_key. }
  rewrite (bindH_ok_eq _ _ _ _ c t (with_objects c os) tt) by exact E.
  assert (Hs : nth_error os (self_ref c) = Some (ControllerObj n0)).
  { rewrite N, Hself. reflexivity. }
  exists t.
  exists (update_nth (self_ref c)
            (obj_with (fun n => mkNode (address n)
                                  (relabel ["CLITEMP"; "GV9"] u (drivers n)))) os).
  split; [|split].
  - unfold Controller_set_temp_unit, bindH, modify, emit, obj_address.
    cbn [fst snd app objects self_ref with_objects update_object].
    rewrite Hs. reflexivity.
  - intros i. rewrite nth_error_update_nth, N.
    destruct (Nat.eqb_spec (self_ref c) i) as [<-|_].
    + rewrite Hself. reflexivity.
    + reflexivity.
  - exact U.
Qed.



Lemma relabel_obj_twice :
  forall names u1 u2 o,
    obj_with (fun n => mkNode (address n) (relabel names u2 (drivers n)))
      (obj_with (fun n => mkNode (address n) (relabel names u1 (drivers n))) o)
    = obj_with (fun n => mkNode (address n) (relabel names u2 (drivers n))) o.
Proof.
  intros names u1 u2 [n|id n|n]; simpl; rewrite relabel_relabel; reflexivity.
Qed.

(** X19: changing the temperature unit twice leaves the controller as the
    second change alone does: the first unit leaves no trace in a node
    definition, a unit of measure or the current unit. *)
Theorem change_temp_units_last_wins :
  forall (u1 u2 : option string) (c : Controller) (n0 : node),
    nth_error (objects c) (self_ref c) = Some (ControllerObj n0) ->
    snd (fst (change_temp_units u2 (snd (fst (change_temp_units u1 c)))))
    = snd (fst (change_temp_units u2 c)).
Proof.
  intros u1 u2 c n0 Hself.
  destruct (change_temp_units_run u1 c n0 Hself) as (t1 & os1 & E1 & N1 & _).
  destruct (change_temp_units_run u2 c n0 Hself) as (t2 & os2 & E2 & N2 & _).
  rewrite E1, E2. cbn [fst snd].
  set (c1 := with_unit (with_objects c os1) u1).
  assert (Hself1 : nth_error (objects c1) (self_ref c1)
                   = Some (ControllerObj
                             (mkNode (address n0)
                                (relabel ["CLITEMP"; "GV9"] u1 (drivers n0))))).
  { cbn [c1 objects self_ref with_unit with_objects].
    rewrite N1, Hself, Nat.eqb_refl. reflexivity. }
  destruct (change_temp_units_run u2 c1 _ Hself1) as (t3 & os3 & E3 & N3 & _).
  rewrite E3. cbn [fst snd].
  assert (Hos : os3 = os2).
  { apply nth_error_ext. intros i. rewrite N3, N2.
    cbn [c1 objects self_ref nodes with_unit with_objects]. rewrite N1.
    change (touched c1 (map fst (nodes c)) i)
      with (touched c (map fst (nodes c)) i).
    destruct (nth_error (objects c) i) as [o|]; [|reflexivity].
    cbn [option_map]. f_equal.
    destruct (Nat.eqb (self_ref c) i); [apply relabel_obj_twice|].
    destruct (managed o) eqn:Em; cbn [andb]; [|rewrite Em; reflexivity].
    destruct (touched c (map fst (nodes c)) i).
    - rewrite (set_unit_of_managed u1 o Em). apply set_unit_of_twice.
    - rewrite Em. reflexivity. }
  rewrite Hos. reflexivity.
Qed.

Lemma change_temp_units_last_wins_witness :
  snd (fst (change_temp_units (Some "F")
              (snd (fst (change_temp_units (Some "C") sample_controller)))))
  = snd (fst (change_temp_units (Some "F") sample_controller)).
Proof.
  apply (change_temp_units_last_wins (Some "C") (Some "F") sample_controller
           (mkNode "controller" Controller_drivers)).
  reflexivity.
Defined.

(** ** The effects of a status update *)

Section Says.
Variable P : hub_effect -> Prop.

Lemma says_ret : forall (A : Type) (a : A), says P (ret a).
Proof. intros A a c. constructor. Qed.

Lemma says_lift : forall (A : Type) (r : result A), says P (lift r).
Proof. intros A r c. constructor. Qed.

Lemma says_gets : forall (A : Type) (f : Controller -> A), says P (gets f).
Proof. intros A f c. constructor. Qed.

Lemma says_modify : forall f, says P (modify f).
Proof. intros f c. constructor. Qed.

Lemma says_emit : forall e, P e -> says P (emit e).
Proof. intros e H c. constructor; [exact H | constructor]. Qed.

Lemma says_bind :
  forall (A B : Type) (m : Hub A) (k : A -> Hub B),
    says P m -> (forall a, says P (k a)) -> says P (bindH m k).
Proof.
  intros A B m k Hm Hk c. unfold bindH.
  specialize (Hm c). destruct (m c) as [[t c'] [a|e]]; simpl in *.
  - specialize (Hk a c'). destruct (k a c') as [[t' c''] r]. simpl in *.
    apply Forall_app. split; assumption.
  - exact Hm.
Qed.

Lemma says_for_each :
  forall (A : Type) (body : A -> Hub unit) (l : list A),
    (forall x, says P (body x)) -> says P (for_each body l).
Proof.
  intros A body l H. induction l as [|x l IH]; simpl.
  - apply says_ret.
  - apply says_bind; [apply H | intros _; exact IH].
Qed.

Lemma says_node_ref : forall addr, says P (node_ref addr).
Proof.
  intros addr c. unfold node_ref. destruct (dict_get addr (nodes c)); constructor.
Qed.

Lemma says_obj_setDriver :
  forall ref name v r, says P (obj_setDriver ref name v r).
Proof. intros ref name v r. apply says_modify. Qed.

Lemma says_self_setDriver : forall name v r, says P (self_setDriver name v r).
Proof. intros name v r c. apply (says_obj_setDriver (self_ref c) name v r c). Qed.

Lemma says_obj_update_thermo :
  forall ref s h r, says P (obj_update_thermo_drivers ref s h r).
Proof.
  intros ref s h r c. unfold obj_update_thermo_drivers.
  destruct (nth_error (objects c) ref) as [[n|id n|n]|]; constructor.
Qed.
End Says.

Ltac says_steps P :=
  repeat first
    [ apply (says_node_ref P)
    | apply (says_bind P); [|intros ?]
    | apply (says_lift P)
    | apply (says_gets P)
    | apply (says_ret P)
    | apply (says_obj_setDriver P)
    | apply (says_self_setDriver P)
    | apply (says_obj_update_thermo P) ].

Lemma says_update_thermostat :
  forall P temp addr a b d r, says P (update_thermostat temp addr a b d r).
Proof. intros P temp addr a b d r. unfold update_thermostat. says_steps P. Qed.

Lemma says_update_equipment :
  forall P r element, says P (update_equipment r element).
Proof.
  intros P r element c. unfold update_equipment.
  destruct (dict_get (tag element) (nodes c)) as [ref|].
  - revert c. says_steps P.
  - constructor.
Qed.

Lemma says_change_temp_units : forall u, says calm (change_temp_units u).
Proof.
  intros u c. unfold change_temp_units. revert c.
  apply (says_bind calm).
  - intros c. apply (says_for_each calm). clear c.
    intros addr c. unfold change_node_unit.
    destruct (dict_get addr (nodes c)) as [ref|]; [|constructor].
    destruct (nth_error (objects c) ref) as [[n|id n|n]|]; try constructor.
    destruct (name_in _ id); [|constructor].
    revert c. apply (says_bind calm); [apply says_modify|].
    intros _. apply says_emit. exact I.
  - intros _ c. unfold Controller_set_temp_unit. revert c.
    intros c. apply (says_bind calm); [apply says_modify|].
    intros _. apply (says_bind calm); [apply says_emit; exact I|].
    intros _. apply says_modify.
Qed.

Lemma says_quiet_calm :
  forall (A : Type) (m : Hub A), says quiet m -> says calm m.
Proof.
  intros A m H c. eapply Forall_impl; [|apply H].
  intros [e| | | |]; simpl; tauto.
Qed.

Lemma calm_trace :
  forall t, Forall calm t ->
    hub_gets t = [] /\ added_nodes t = [] /\ reported t = [].
Proof.
  induction 1 as [|e t He _ (IH1 & IH2 & IH3)]; [repeat split|].
  destruct e as [[]| | | |]; simpl in *; try tauto.
Qed.

Lemma quiet_trace : forall t, Forall quiet t -> updated t = [].
Proof.
  induction 1 as [|e t He _ IH]; [reflexivity|].
  destruct e as [[]| | | |]; simpl in *; try tauto.
Qed.

Lemma reported_app :
  forall t1 t2, reported (t1 ++ t2)%list = (reported t1 ++ reported t2)%list.
Proof.
  induction t1 as [|e t1 IH]; intros t2; simpl.
  - reflexivity.
  - destruct e; simpl; rewrite ?IH; reflexivity.
Qed.

Lemma net_trace :
  forall ts, added_nodes (map Net ts) = [] /\ reported (map Net ts) = [] /\
             updated (map Net ts) = [].
Proof. induction ts as [|e ts (I1 & I2 & I3)]; repeat split; assumption. Qed.

(** What a status update does besides setting drivers. *)
Lemma update_node_states_effects :
  forall w report c a,
    autelis c = Some a ->
    exists ts t,
      fst (fst (update_node_states w report c)) = (map Net ts ++ t)%list /\
      http_gets ts = [status_request a] /\
      Forall calm t /\
      ((forall x u, snd (get_status w a) = Ok (Some x) ->
                    find_text (XML.find x "temp") "tempunits" = Ok u ->
                    u = currentTempUnit c) ->
       Forall quiet t).
Proof.
  intros w report c a Ha. unfold update_node_states.
  rewrite (bindH_ok_eq _ _ _ _ c [] c a)
    by (unfold get_autelis; rewrite Ha; reflexivity).
  pose proof (get_status_gets w a) as G.
  destruct (get_status w a) as [ts [[x|]|e]] eqn:Es; cbn [fst snd] in *.
  - rewrite (bindH_ok_eq _ _ _ _ c (map Net ts) c (Some x)) by reflexivity.
    destruct (find_text (XML.find x "temp") "tempunits") as [u|e] eqn:Eu.
    + rewrite (bindH_ok_eq _ _ _ _ c [] c u) by reflexivity.
      rewrite (bindH_ok_eq _ _ _ _ c [] c (currentTempUnit c)) by reflexivity.
      lazymatch goal with
      | |- context [bindH ?m ?k c] =>
          assert (Hc : says calm (bindH m k));
          [| assert (Hq : option_string_eqb u (currentTempUnit c) = true ->
                          says quiet (bindH m k));
             [| specialize (Hc c);
                destruct (bindH m k c) as [[t' c2] r] eqn:Eb ]]
      end.
      * apply (says_bind calm).
        { destruct (option_string_eqb _ _);
            [apply says_ret | apply says_change_temp_units]. }
        intros _. apply says_quiet_calm.
        says_steps quiet; try apply says_update_thermostat.
        apply (says_for_each quiet). apply says_update_equipment.
      * intros ->. apply (says_bind quiet); [apply says_ret|].
        intros _.
        says_steps quiet; try apply says_update_thermostat.
        apply (says_for_each quiet). apply says_update_equipment.
      * exists ts, t'. cbn [fst snd app].
        split; [reflexivity|]. split; [exact G|]. split; [exact Hc|].
        intros H. specialize (H x u eq_refl Eu).
        assert (E : option_string_eqb u (currentTempUnit c) = true).
        { rewrite <- H. destruct u as [s|]; simpl; [apply String.eqb_refl | reflexivity]. }
        specialize (Hq E c). rewrite Eb in Hq. exact Hq.
    + exists ts, []. cbn [fst snd app lift bindH].
      split; [reflexivity|]. split; [exact G|]. split; constructor.
  - rewrite (bindH_ok_eq _ _ _ _ c (map Net ts) c None) by reflexivity.
    eexists ts, _. cbn [fst snd app emit bindH self_setDriver obj_setDriver modify].
    split; [reflexivity|]. split; [exact G|].
    split; [|intros _]; repeat constructor.
  - exists ts, []. unfold bindH, net. cbn [fst snd app].
    rewrite app_nil_r.
    split; [reflexivity|]. split; [exact G|]. split; constructor.
Qed.

(** X20: [update_node_states] talks to the pool controller exactly once, with
    the one request of [get_status], however it ends; it never asks the
    framework for a new node; and it asks for the update of a node
    definition only when the snapshot names a temperature unit other than
    the current one.  Without an interface (before [start]) it raises
    AttributeError and does nothing.  (What [setDriver] reports to the hub
    when [report] is true is the framework's and is not recorded here.) *)
Theorem update_node_states_one_request :
  forall (w : HttpWorld) (report : bool) (c : Controller),
    let t := fst (fst (update_node_states w report c)) in
    match autelis c with
    | None => update_node_states w report c = ([], c, Raise AttributeError)
    | Some a =>
        hub_gets t = [status_request a] /\
        added_nodes t = [] /\
        ((forall x u, snd (get_status w a) = Ok (Some x) ->
                      find_text (XML.find x "temp") "tempunits" = Ok u ->
                      u = currentTempUnit c) ->
         updated t = [])
    end.
Proof.
  intros w report c t. subst t.
  destruct (autelis c) as [a|] eqn:Ha.
  - destruct (update_node_states_effects w report c a Ha)
      as (ts & t & -> & G & Hc & Hq).
    destruct (calm_trace t Hc) as (C1 & C2 & _).
    destruct (net_trace ts) as (N1 & _ & N3).
    rewrite hub_gets_app, added_nodes_app, updated_app.
    rewrite hub_gets_net, G, C1, C2, N1, N3.
    repeat split. intros H. apply quiet_trace. apply Hq. exact H.
  - unfold update_node_states, bindH, get_autelis. rewrite Ha. reflexivity.
Qed.

Lemma update_node_states_one_request_witness :
  updated (fst (fst (update_node_states sample_world true sample_controller))) = [].
Proof.
  apply (update_node_states_one_request sample_world true sample_controller).
  intros x u Hx Hu.
  assert (Es : snd (get_status sample_world sample_interface) = Ok (Some sample_status))
    by (vm_compute; reflexivity).
  rewrite Es in Hx. injection Hx as <-.
  vm_compute in Hu. injection Hu as <-. reflexivity.
Defined.

Lemma report_loop :
  forall l c,
    for_each (fun addr => emit (ReportDrivers addr)) l c
    = (map ReportDrivers l, c, Ok tt).
Proof.
  induction l as [|addr l IH]; intros c; [reflexivity|].
  cbn [for_each]. unfold bindH at 1. cbn [emit]. rewrite IH. reflexivity.
Qed.

Lemma reported_all : forall l, reported (map ReportDrivers l) = l.
Proof. induction l as [|a l IH]; simpl; [|rewrite IH]; reflexivity. Qed.

Lemma hub_gets_reports : forall l, hub_gets (map ReportDrivers l) = [].
Proof. induction l as [|a l IH]; simpl; [reflexivity | exact IH]. Qed.

(** X21: [query].  The controller's query leaves the controller exactly as a
    status update without reports leaves it and ends as that update ends;
    it sends the one request of the update, and then asks every node of
    [self.nodes] for a report of its drivers, once each and in the order
    of the dictionary; when the update raises, nothing is reported.  The
    query of an equipment or thermostat node does the same update and
    reports that node only. *)
Theorem query_updates_then_reports :
  forall (w : HttpWorld) (c : Controller) (a : AutelisInterface) (addr : string),
    autelis c = Some a ->
    let u := update_node_states w false c in
    let q := Controller_query w c in
    let n := Node_query w addr c in
    (snd (fst q) = snd (fst u) /\ snd q = snd u /\
     hub_gets (fst (fst q)) = [status_request a] /\
     reported (fst (fst q))
     = match snd u with Ok _ => map fst (nodes c) | Raise _ => [] end) /\
    (snd (fst n) = snd (fst u) /\ snd n = snd u /\
     hub_gets (fst (fst n)) = [status_request a] /\
     reported (fst (fst n))
     = match snd u with Ok _ => [addr] | Raise _ => [] end).
Proof.
  intros w c a addr Ha u q n. subst u q n.
  unfold Controller_query, Node_query, bindH.
  destruct (update_node_states_effects w false c a Ha)
    as (ts & t1 & Et & Gs & Hc & _).
  destruct (calm_trace t1 Hc) as (C1 & _ & C3).
  destruct (net_trace ts) as (_ & N2 & _).
  assert (G : hub_gets (fst (fst (update_node_states w false c)))
              = [status_request a])
    by (rewrite Et, hub_gets_app, hub_gets_net, Gs, C1; reflexivity).
  assert (R : reported (fst (fst (update_node_states w false c))) = [])
    by (rewrite Et, reported_app, N2, C3; reflexivity).
  clear Et.
  destruct (keeps_update_node_states w false c) as [(_ & Hn & _) _].
  destruct (update_node_states w false c) as [[t0 c0] [[]|e]];
    cbn [fst snd] in *.
  - rewrite report_loop, Hn. cbn [fst snd emit].
    rewrite !hub_gets_app, !reported_app, G, R, reported_all, hub_gets_reports.
    repeat split.
  - repeat split; assumption.
Qed.

Lemma query_updates_then_reports_witness :
  reported (fst (fst (Controller_query sample_world sample_controller)))
  = ["controller"; "poolht"; "spaht"; "circuit1"] /\
  reported (fst (fst (Node_query sample_world "spaht" sample_controller)))
  = ["spaht"].
Proof.
  assert (E : snd (update_node_states sample_world false sample_controller) = Ok tt)
    by (vm_compute; reflexivity).
  destruct (query_updates_then_reports sample_world sample_controller
              sample_interface "spaht" eq_refl)
    as ((_ & _ & _ & Hq) & (_ & _ & _ & Hn)).
  rewrite E in Hq, Hn. split; [exact Hq | exact Hn].
Defined.

(** ** The state drivers after a status update *)

Lemma find_set_first_map :
  forall name v ds,
    find_driver name (set_first name v ds)
    = option_map (fun _ => v) (find_driver name ds).
Proof.
  intros name v ds. induction ds as [|d ds IH]; simpl; [reflexivity|].
  destruct (String.eqb (d_name d) name) eqn:E; simpl; rewrite E.
  - reflexivity.
  - exact IH.
Qed.

Lemma obj_driver_set_map :
  forall c ref name v r ref',
    obj_driver (update_object ref (obj_with (fun n => setDriver n name v r)) c)
               ref' name
    = if Nat.eqb ref ref' then option_map (fun _ => v) (obj_driver c ref' name)
      else obj_driver c ref' name.
Proof.
  intros c ref name v r ref'. rewrite obj_driver_update.
  destruct (Nat.eqb ref ref'); [|reflexivity].
  unfold obj_driver. destruct (nth_error (objects c) ref') as [o|]; [|reflexivity].
  apply find_set_first_map.
Qed.

Lemma st_write_ext :
  forall d s st st',
    (forall ref, st ref = st' ref) ->
    forall ref, st_write d st s ref = st_write d st' s ref.
Proof.
  intros d [addr r] st st' H ref. unfold st_write. cbn [fst snd].
  destruct (dict_get addr d) as [ref'|]; [|apply H].
  destruct r as [v|e]; [|apply H].
  rewrite H. reflexivity.
Qed.

Lemma st_apply_ext :
  forall d ws st st',
    (forall ref, st ref = st' ref) ->
    forall ref, fold_left (st_write d) ws st ref = fold_left (st_write d) ws st' ref.
Proof.
  intros d ws. induction ws as [|s ws IH]; intros st st' H ref; [apply H|].
  cbn [fold_left]. apply IH. apply st_write_ext. exact H.
Qed.

Lemma st_apply_untouched :
  forall d ws st ref,
    (forall addr r, In (addr, r) ws -> dict_get addr d <> Some ref) ->
    fold_left (st_write d) ws st ref = st ref.
Proof.
  intros d ws. induction ws as [|[addr r] ws IH]; intros st ref H; [reflexivity|].
  cbn [fold_left]. rewrite IH by (intros a' r' Hin; apply (H a' r'); right; exact Hin).
  unfold st_write. cbn [fst snd].
  destruct (dict_get addr d) as [ref'|] eqn:Ed; [|reflexivity].
  destruct r as [v|e]; [|reflexivity].
  destruct (Nat.eqb_spec ref' ref) as [->|_]; [|reflexivity].
  exfalso. apply (H addr (Ok v)); [left; reflexivity | exact Ed].
Qed.

Lemma st_apply_present :
  forall d ws st ref,
    st ref <> None -> fold_left (st_write d) ws st ref <> None.
Proof.
  intros d ws. induction ws as [|[addr r] ws IH]; intros st ref H; [exact H|].
  cbn [fold_left]. apply IH. unfold st_write. cbn [fst snd].
  destruct (dict_get addr d) as [ref'|]; [|exact H].
  destruct r as [v|e]; [|exact H].
  destruct (Nat.eqb ref' ref); [|exact H].
  destruct (st ref); [discriminate | exact H].
Qed.

Lemma st_apply_last :
  forall d pre addr v post st ref,
    dict_get addr d = Some ref ->
    (forall addr' r', In (addr', r') post -> dict_get addr' d <> Some ref) ->
    st ref <> None ->
    fold_left (st_write d) (pre ++ (addr, Ok v) :: post)%list st ref = Some v.
Proof.
  intros d pre addr v post st ref Hd Hpost Hst.
  rewrite fold_left_app. cbn [fold_left].
  rewrite (st_apply_untouched d post _ ref Hpost).
  pose proof (st_apply_present d pre st ref Hst) as P.
  set (st' := fold_left (st_write d) pre st) in *.
  unfold st_write. cbn [fst snd]. rewrite Hd, Nat.eqb_refl.
  destruct (st' ref); [reflexivity | contradiction].
Qed.

(** One thermostat of a status update, seen from the ST drivers. *)
Lemma thermostat_state_step :
  forall temp addr sn spn tn report c c',
    runs (update_thermostat temp addr sn spn tn report) c c' tt ->
    nodes c' = nodes c /\
    source_ok (nodes c) (addr, find_int temp tn) /\
    forall ref,
      obj_driver c' ref "ST"
      = st_write (nodes c) (fun r => obj_driver c r "ST") (addr, find_int temp tn) ref.
Proof.
  intros temp addr sn spn tn report c c' H.
  pose proof (runs_keeps _ _ _ _ _ _ (keeps_update_thermostat _ _ _ _ _ _) H)
    as [(_ & Hn & _) _].
  split; [exact Hn|].
  unfold update_thermostat in H.
  apply runs_bind in H. destruct H as (c0 & node & H0 & H).
  destruct H0 as [t0 H0]. unfold node_ref in H0.
  destruct (dict_get addr (nodes c)) as [ref'|] eqn:Hd; [|discriminate H0].
  injection H0 as _ <- <-.
  apply runs_bind in H. destruct H as (? & htstatus & E1 & H).
  apply runs_lift in E1. destruct E1 as [E1 ->].
  apply runs_bind in H. destruct H as (? & setting & E2 & H).
  apply runs_lift in E2. destruct E2 as [E2 ->].
  apply runs_bind in H. destruct H as (? & setPoint & E3 & H).
  apply runs_lift in E3. destruct E3 as [E3 ->].
  apply runs_bind in H. destruct H as (? & currentTemp & E4 & H).
  apply runs_lift in E4. destruct E4 as [E4 ->].
  apply runs_bind in H. destruct H as (c2 & u2 & H2 & H).
  apply runs_modify in H2.
  assert (K : keeps_driver "ST" c2 c').
  { refine (runs_keeps _ _ _ _ _ _ _ H). keeps_drv "ST". }
  destruct K as (_ & _ & K).
  split.
  - intros _. exists currentTemp. exact E4.
  - intros ref. rewrite K. subst c2. rewrite obj_driver_set_map.
    unfold st_write. cbn [fst snd]. rewrite Hd, E4. reflexivity.
Qed.

(** One element of the equipment, seen from the ST drivers. *)
Lemma equipment_state_step :
  forall report e c c',
    runs (update_equipment report e) c c' tt ->
    nodes c' = nodes c /\
    source_ok (nodes c) (tag e, int_of_value (XML.text e)) /\
    forall ref,
      obj_driver c' ref "ST"
      = st_write (nodes c) (fun r => obj_driver c r "ST")
          (tag e, int_of_value (XML.text e)) ref.
Proof.
  intros report e c c' H.
  pose proof (runs_keeps _ _ _ _ _ _ (keeps_update_equipment report e) H)
    as [(_ & Hn & _) _].
  split; [exact Hn|].
  unfold source_ok, st_write. cbn [fst snd].
  destruct H as [t H]. unfold update_equipment in H.
  destruct (dict_get (tag e) (nodes c)) as [ref'|] eqn:Hd.
  - assert (H' : runs (state <- lift (int_of_value (XML.text e)) ;;
                       obj_setDriver ref' "ST" state report) c c' tt)
      by (exists t; exact H).
    apply runs_bind in H'. destruct H' as (? & state & E & H').
    apply runs_lift in E. destruct E as [E ->].
    apply runs_modify in H'. subst c'. rewrite E. split.
    + intros _. exists state. reflexivity.
    + intros ref. apply obj_driver_set_map.
  - injection H as _ <-. split; [contradiction | reflexivity].
Qed.

Lemma equipment_state_loop :
  forall report l c c',
    runs (for_each (update_equipment report) l) c c' tt ->
    Forall (source_ok (nodes c))
      (map (fun e => (tag e, int_of_value (XML.text e))) l) /\
    forall ref,
      obj_driver c' ref "ST"
      = fold_left (st_write (nodes c))
          (map (fun e => (tag e, int_of_value (XML.text e))) l)
          (fun r => obj_driver c r "ST") ref.
Proof.
  intros report l. induction l as [|e l IH]; intros c c' H.
  - destruct H as [t H]. injection H as _ <-. split; [constructor | reflexivity].
  - cbn [for_each] in H. apply runs_bind in H.
    destruct H as (c1 & [] & H1 & H).
    destruct (equipment_state_step _ _ _ _ H1) as (Hn & Hok & Hst).
    destruct (IH _ _ H) as (Hoks & Hsts). rewrite Hn in Hoks, Hsts.
    split; [constructor; assumption|].
    intros ref. cbn [map fold_left]. rewrite Hsts.
    apply st_apply_ext. exact Hst.
Qed.

(** The ST drivers after a completed status update, as the writes of the
    sources of the snapshot in their order. *)
Lemma update_node_states_state_writes :
  forall w report c c' a x t,
    autelis c = Some a ->
    snd (get_status w a) = Ok (Some x) ->
    update_node_states w report c = (t, c', Ok tt) ->
    Forall (source_ok (nodes c)) (st_writes x) /\
    forall ref,
      obj_driver c' ref "ST"
      = fold_left (st_write (nodes c)) (st_writes x)
          (fun r => obj_driver c r "ST") ref.
Proof.
  intros w report c c' a x t Ha Hs Hrun.
  assert (H : runs (update_node_states w report) c c' tt) by (exists t; exact Hrun).
  clear Hrun. unfold update_node_states in H.
  apply runs_bind in H. destruct H as (c0 & a' & H0 & H).
  destruct (runs_get_autelis _ _ _ _ Ha H0) as [-> ->]. clear H0.
  apply runs_bind in H. destruct H as (c0 & sx & H0 & H).
  apply runs_net in H0. destruct H0 as [H0 ->]. rewrite Hs in H0.
  injection H0 as <-.
  apply runs_bind in H. destruct H as (c0 & tempUnit & H0 & H).
  apply runs_lift in H0. destruct H0 as [_ ->].
  apply runs_bind in H. destruct H as (c0 & current & H0 & H).
  apply runs_gets in H0. destruct H0 as [_ ->].
  apply (runs_peel _ _ (keeps_driver "ST")) in H;
    [|destruct (option_string_eqb tempUnit current);
      [apply (keeps_ret _ (keeps_driver_refl "ST"))
      |apply keeps_driver_values, keeps_change_temp_units]].
  destruct H as (c1 & u & K & H).
  do 8 (apply runs_bind in H;
        let v := fresh "v" in
        let E := fresh "E" in
        destruct H as (? & v & E & H);
        apply runs_lift in E; destruct E as [_ ->]).
  do 8 (apply (runs_peel _ _ (keeps_driver "ST")) in H;
        [|apply keeps_driver_self_setDriver; discriminate];
        let c2 := fresh "c" in
        let K2 := fresh "K" in
        destruct H as (c2 & ? & K2 & H);
        pose proof (keeps_driver_trans _ _ _ _ K K2) as K3;
        clear K K2; rename K3 into K).
  destruct K as (_ & Kn & Kd).
  apply runs_bind in H. destruct H as (cp & up & Hpool & H). destruct up.
  apply runs_bind in H. destruct H as (csp & usp & Hspa & H). destruct usp.
  apply runs_bind in H. destruct H as (? & elements & E & H).
  apply runs_lift in E. destruct E as [E ->].
  destruct (thermostat_state_step _ _ _ _ _ _ _ _ Hpool) as (Np & Okp & Sp).
  destruct (thermostat_state_step _ _ _ _ _ _ _ _ Hspa) as (Ns & Oks & Ss).
  destruct (equipment_state_loop _ _ _ _ H) as (Oke & Se).
  rewrite Ns, Np, Kn in *.
  unfold st_writes. unfold element_list in E.
  destruct (XML.find x "equipment") as [equipment|]; [|discriminate E].
  injection E as <-. split.
  - constructor; [exact Okp|]. constructor; [exact Oks | exact Oke].
  - intros ref. rewrite Se. cbn [app fold_left].
    apply st_apply_ext. intros r. rewrite Ss.
    apply st_write_ext. intros r'. rewrite Sp.
    apply st_write_ext. exact Kd.
Qed.

(** X22: the ST drivers after a status update that runs to its end on a
    snapshot.  The update goes through the sources of the snapshot in
    this order: pooltemp for the node poolht, spatemp for the node spaht,
    then the children of [equipment] in the order of the document, each for
    the node of [self.nodes] with its tag (children without a node are
    skipped).  The ST driver of a node holds the integer of the last
    source that leads to it, and that source holds an integer; a node that
    no source leads to keeps its ST. *)
Theorem update_node_states_last_state_wins :
  forall (w : HttpWorld) (report : bool) (c c' : Controller)
         (a : AutelisInterface) (x : Element) (t : list hub_effect),
    autelis c = Some a ->
    snd (get_status w a) = Ok (Some x) ->
    update_node_states w report c = (t, c', Ok tt) ->
    (forall pre addr r post ref,
       st_writes x = (pre ++ (addr, r) :: post)%list ->
       dict_get addr (nodes c) = Some ref ->
       (forall addr' r', In (addr', r') post ->
                         dict_get addr' (nodes c) <> Some ref) ->
       obj_driver c ref "ST" <> None ->
       exists v, r = Ok v /\ obj_driver c' ref "ST" = Some v) /\
    (forall ref,
       (forall addr r, In (addr, r) (st_writes x) ->
                       dict_get addr (nodes c) <> Some ref) ->
       obj_driver c' ref "ST" = obj_driver c ref "ST").
Proof.
  intros w report c c' a x t Ha Hs Hrun.
  destruct (update_node_states_state_writes w report c c' a x t Ha Hs Hrun)
    as (Hok & Hst).
  split.
  - intros pre addr r post ref Hw Hd Hpost Hp.
    assert (Hin : In (addr, r) (st_writes x))
      by (rewrite Hw; apply in_or_app; right; left; reflexivity).
    rewrite Forall_forall in Hok. destruct (Hok _ Hin) as [v Hv].
    { cbn [fst]. rewrite Hd. discriminate. }
    cbn [snd] in Hv. subst r. exists v. split; [reflexivity|].
    rewrite Hst, Hw. apply st_apply_last; assumption.
  - intros ref H. rewrite Hst. apply st_apply_untouched. exact H.
Qed.

Lemma update_node_states_last_state_wins_witness :
  exists v,
    int_of_value (Some "1") = Ok v /\
    obj_driver (snd (fst (update_node_states sample_world true sample_controller)))
      3 "ST" = Some v.
Proof.
  assert (E : snd (update_node_states sample_world true sample_controller) = Ok tt)
    by (vm_compute; reflexivity).
  destruct (update_node_states sample_world true sample_controller)
    as [[t c'] r] eqn:Hrun.
  simpl in E. subst r. cbn [fst snd].
  assert (Es : snd (get_status sample_world sample_interface) = Ok (Some sample_status))
    by (vm_compute; reflexivity).
  apply (proj1 (update_node_states_last_state_wins
                  sample_world true sample_controller c'
                  sample_interface sample_status t eq_refl Es Hrun)
           [ ("poolht", find_int (XML.find sample_status "temp") "pooltemp");
             ("spaht", find_int (XML.find sample_status "temp") "spatemp") ]
           "circuit1" (int_of_value (Some "1"))
           [ ("circuit2", int_of_value (Some "0"));
             ("circuit3", int_of_value None) ]
           3%nat).
  - reflexivity.
  - reflexivity.
  - intros addr' r' [H|[H|[]]]; injection H as <- _; vm_compute; discriminate.
  - vm_compute. discriminate.
Defined.
